(** * tablemaker: text grid renderer, style registry and line segmenter

    A shallow embedding of [tables/ascii_tables.go] and of the segmenter of
    [output/png.go].

    Go strings are byte sequences: they are embedded as [string] (a list of
    8-bit [ascii] characters), so that a literal such as ["│"] denotes its
    three UTF-8 bytes.  Go [int] values (lengths, widths, counts) are
    embedded as [Z]; every value the program computes is a length plus a
    small constant, far below [2^63], so no wrap-around is reachable.

    The parts of the Go standard library the program calls are embedded from
    their documented behaviour: [unicode/utf8] (decoding, encoding),
    [strings.ReplaceAll], [strings.Repeat], [strings.ContainsRune] and the
    one regular expression of the segmenter.  [strings.ToLower] depends on
    the Unicode case tables; the development is parametric in it.

    The rest of [output/png.go], [output/fonts.go] and [main.go] are
    embedded as well: what they call from the graphics packages, the
    operating system and the JSON decoder are parameters, gathered in the
    classes [Graphics], [Files] and [Command].  A fixed-point number of
    [fixed.Int26_6] is embedded as a [Z] with its 32-bit wrap-around
    written out; the coordinates and dimensions of the picture are Go
    [int] values built from at most one line height (below [2^25]) per
    line of the text, which stay far below [2^63]. *)

From Stdlib Require Import ZArith Ascii String Lia Bool.
From stdpp Require Import base list gmap strings.

Local Open Scope Z_scope.

(** ** Bytes and UTF-8 *)

Module Utf8.

(** The numeric value of a byte. *)
Definition byteZ (c : ascii) : Z := Z.of_N (N_of_ascii c).

(** The conversion [byte(x)] of Go: the low eight bits. *)
Definition toByte (x : Z) : ascii := ascii_of_N (Z.to_N (x mod 256)).

Definition RuneError : Z := 0xFFFD.
Definition MaxRune : Z := 0x10FFFF.
Definition RuneSelf : Z := 0x80.
Definition surrogateMin : Z := 0xD800.
Definition surrogateMax : Z := 0xDFFF.

Definition t2 : Z := 0xC0.
Definition t3 : Z := 0xE0.
Definition t4 : Z := 0xF0.
Definition tx : Z := 0x80.
Definition maskx : Z := 0x3F.
Definition mask2 : Z := 0x1F.
Definition mask3 : Z := 0x0F.
Definition mask4 : Z := 0x07.

Definition rune1Max : Z := 0x7F.
Definition rune2Max : Z := 0x7FF.
Definition rune3Max : Z := 0xFFFF.

Definition locb : Z := 0x80.
Definition hicb : Z := 0xBF.

(** What the table [first] of [unicode/utf8] says about a leading byte:
    an ASCII byte, an illegal leading byte, or the leading byte of a
    sequence of [sz] bytes whose second byte must lie in [lo..hi]. *)
Inductive firstInfo : Type :=
| FirstASCII
| FirstInvalid
| FirstLead (sz : nat) (lo hi : Z).

Definition first (b : Z) : firstInfo :=
  if b <? 0x80 then FirstASCII
  else if b <? 0xC2 then FirstInvalid
  else if b <? 0xE0 then FirstLead 2 locb hicb
  else if b =? 0xE0 then FirstLead 3 0xA0 hicb
  else if b <? 0xED then FirstLead 3 locb hicb
  else if b =? 0xED then FirstLead 3 locb 0x9F
  else if b <? 0xF0 then FirstLead 3 locb hicb
  else if b =? 0xF0 then FirstLead 4 0x90 hicb
  else if b <? 0xF4 then FirstLead 4 locb hicb
  else if b =? 0xF4 then FirstLead 4 locb 0x8F
  else FirstInvalid.

(** [utf8.DecodeRuneInString]: the first rune of [s] and its width in
    bytes; an ill-formed sequence decodes to [(RuneError, 1)], the empty
    string to [(RuneError, 0)]. *)
Definition DecodeRuneInString (s : string) : Z * nat :=
  match s with
  | EmptyString => (RuneError, 0%nat)
  | String c0 r0 =>
    let s0 := byteZ c0 in
    match first s0 with
    | FirstASCII => (s0, 1%nat)
    | FirstInvalid => (RuneError, 1%nat)
    | FirstLead sz lo hi =>
      if Nat.ltb (String.length s) sz then (RuneError, 1%nat) else
      match r0 with
      | EmptyString => (RuneError, 1%nat)
      | String c1 r1 =>
        let s1 := byteZ c1 in
        if (s1 <? lo) || (hi <? s1) then (RuneError, 1%nat)
        else if Nat.leb sz 2 then
          (Z.lor (Z.shiftl (Z.land s0 mask2) 6) (Z.land s1 maskx), 2%nat)
        else
        match r1 with
        | EmptyString => (RuneError, 1%nat)
        | String c2 r2 =>
          let s2 := byteZ c2 in
          if (s2 <? locb) || (hicb <? s2) then (RuneError, 1%nat)
          else if Nat.leb sz 3 then
            (Z.lor (Z.lor (Z.shiftl (Z.land s0 mask3) 12)
                          (Z.shiftl (Z.land s1 maskx) 6))
                   (Z.land s2 maskx), 3%nat)
          else
          match r2 with
          | EmptyString => (RuneError, 1%nat)
          | String c3 _ =>
            let s3 := byteZ c3 in
            if (s3 <? locb) || (hicb <? s3) then (RuneError, 1%nat)
            else
              (Z.lor (Z.lor (Z.lor (Z.shiftl (Z.land s0 mask4) 18)
                                   (Z.shiftl (Z.land s1 maskx) 12))
                            (Z.shiftl (Z.land s2 maskx) 6))
                     (Z.land s3 maskx), 4%nat)
          end
        end
      end
    end
  end.

(** The three-byte and four-byte arms of [utf8.AppendRune]. *)
Definition encode3 (r : Z) : string :=
  String (toByte (Z.lor t3 (Z.shiftr r 12)))
    (String (toByte (Z.lor tx (Z.land (Z.shiftr r 6) maskx)))
      (String (toByte (Z.lor tx (Z.land r maskx))) EmptyString)).

Definition encode4 (r : Z) : string :=
  String (toByte (Z.lor t4 (Z.shiftr r 18)))
    (String (toByte (Z.lor tx (Z.land (Z.shiftr r 12) maskx)))
      (String (toByte (Z.lor tx (Z.land (Z.shiftr r 6) maskx)))
        (String (toByte (Z.lor tx (Z.land r maskx))) EmptyString))).

(** [utf8.AppendRune] to an empty buffer: the UTF-8 encoding of [r]; a rune
    out of range or a surrogate is encoded as [RuneError].  The rune is
    read as a [uint32]. *)
Definition EncodeRune (r : Z) : string :=
  let i := r mod 2 ^ 32 in
  if i <=? rune1Max then String (toByte i) EmptyString
  else if i <=? rune2Max then
    String (toByte (Z.lor t2 (Z.shiftr i 6)))
      (String (toByte (Z.lor tx (Z.land i maskx))) EmptyString)
  else if (MaxRune <? i) || ((surrogateMin <=? i) && (i <=? surrogateMax))
  then encode3 RuneError
  else if i <=? rune3Max then encode3 i
  else encode4 i.

(** The iteration [for _, r := range s] and the conversion [[]rune(s)]:
    the runes of [s] with their widths, each ill-formed byte giving
    [(RuneError, 1)].  [skip] counts the bytes of the current rune that are
    still to be passed over. *)
Fixpoint decodeFrom (skip : nat) (s : string) : list (Z * nat) :=
  match s with
  | EmptyString => []
  | String _ r =>
    match skip with
    | S k => decodeFrom k r
    | O => let d := DecodeRuneInString s in d :: decodeFrom (snd d - 1) r
    end
  end.

Definition decodeAll (s : string) : list (Z * nat) := decodeFrom 0 s.

Definition runes (s : string) : list Z := (decodeAll s).*1.

(** [utf8.RuneCountInString], also [len([]rune(s))]. *)
Definition RuneCountInString (s : string) : Z := Z.of_nat (length (runes s)).

(** One step of [utf8.ValidString]: a decoded rune is ill-formed exactly
    when it is [RuneError] of width one. *)
Definition wellFormed (d : Z * nat) : bool :=
  negb ((d.1 =? RuneError) && Nat.eqb d.2 1).

(** [utf8.ValidString]. *)
Definition ValidString (s : string) : bool := forallb wellFormed (decodeAll s).

(** The runes of a list written one after the other, as
    [strings.Builder.WriteRune] does. *)
Definition encodeRunes (rs : list Z) : string :=
  foldr (λ r acc, EncodeRune r +:+ acc) EmptyString rs.

(** The test of the length in [DecodeRuneInString] only anticipates the
    tests of the bytes: a missing byte is an ill-formed sequence. *)
Definition decodeNoLen (s : string) : Z * nat :=
  match s with
  | EmptyString => (RuneError, 0%nat)
  | String c0 r0 =>
    let s0 := byteZ c0 in
    match first s0 with
    | FirstASCII => (s0, 1%nat)
    | FirstInvalid => (RuneError, 1%nat)
    | FirstLead sz lo hi =>
      match r0 with
      | EmptyString => (RuneError, 1%nat)
      | String c1 r1 =>
        let s1 := byteZ c1 in
        if (s1 <? lo) || (hi <? s1) then (RuneError, 1%nat)
        else if Nat.leb sz 2 then
          (Z.lor (Z.shiftl (Z.land s0 mask2) 6) (Z.land s1 maskx), 2%nat)
        else
        match r1 with
        | EmptyString => (RuneError, 1%nat)
        | String c2 r2 =>
          let s2 := byteZ c2 in
          if (s2 <? locb) || (hicb <? s2) then (RuneError, 1%nat)
          else if Nat.leb sz 3 then
            (Z.lor (Z.lor (Z.shiftl (Z.land s0 mask3) 12)
                          (Z.shiftl (Z.land s1 maskx) 6))
                   (Z.land s2 maskx), 3%nat)
          else
          match r2 with
          | EmptyString => (RuneError, 1%nat)
          | String c3 _ =>
            let s3 := byteZ c3 in
            if (s3 <? locb) || (hicb <? s3) then (RuneError, 1%nat)
            else
              (Z.lor (Z.lor (Z.lor (Z.shiftl (Z.land s0 mask4) 18)
                                   (Z.shiftl (Z.land s1 maskx) 12))
                            (Z.shiftl (Z.land s2 maskx) 6))
                     (Z.land s3 maskx), 4%nat)
          end
        end
      end
    end
  end.

End Utf8.

(** ** The Go library functions the program calls *)

(** [strings.ToLower] maps every letter through the Unicode case tables,
    which are not part of this development: the embedding takes the
    function as a parameter. *)
Class StringsToLower := ToLower : string → string.

(** [strings.ToLower] on a string of ASCII bytes only (the fast path of the
    Go function): the letters [A-Z] become [a-z].  It is used to evaluate
    the embedding on ASCII inputs. *)
Definition asciiLowerByte (c : ascii) : ascii :=
  let b := Utf8.byteZ c in
  if (65 <=? b) && (b <=? 90) then Utf8.toByte (b + 32) else c.

Fixpoint asciiToLower (s : string) : string :=
  match s with
  | EmptyString => EmptyString
  | String c r => String (asciiLowerByte c) (asciiToLower r)
  end.

(** [strings.TrimSpace] removes the leading and the trailing white space
    of a string, as the Unicode tables define it; the embedding takes the
    function as a parameter as well. *)
Class StringsTrimSpace := TrimSpace : string → string.

(** [strings.TrimSpace] on a string of ASCII bytes only: the white space is
    the space and the bytes 9 to 13.  It is used to evaluate the embedding
    on ASCII inputs. *)
Definition asciiSpaceByte (c : ascii) : bool :=
  let b := Utf8.byteZ c in
  (b =? 32) || ((9 <=? b) && (b <=? 13)).

Fixpoint asciiTrimLeft (s : string) : string :=
  match s with
  | EmptyString => EmptyString
  | String c r => if asciiSpaceByte c then asciiTrimLeft r else s
  end.

Fixpoint asciiTrimRight (s : string) : string :=
  match s with
  | EmptyString => EmptyString
  | String c r =>
    match asciiTrimRight r with
    | EmptyString => if asciiSpaceByte c then EmptyString else String c EmptyString
    | r' => String c r'
    end
  end.

Definition asciiTrimSpace (s : string) : string := asciiTrimRight (asciiTrimLeft s).

Module Strings.

(** [len(s)]: the number of bytes of [s]. *)
Definition len (s : string) : Z := Z.of_nat (String.length s).

Fixpoint repeatNat (s : string) (n : nat) : string :=
  match n with
  | O => EmptyString
  | S k => s +:+ repeatNat s k
  end.

(** [strings.Repeat(s, count)].  Go panics on a negative [count]; the
    program only passes counts that are proved non-negative below. *)
Definition Repeat (s : string) (count : Z) : string := repeatNat s (Z.to_nat count).

Fixpoint replaceFrom (skip : nat) (s old new : string) : string :=
  match s with
  | EmptyString => EmptyString
  | String c r =>
    match skip with
    | S k => replaceFrom k r old new
    | O =>
      if String.prefix old s
      then new +:+ replaceFrom (String.length old - 1) r old new
      else String c (replaceFrom 0 r old new)
    end
  end.

(** [strings.ReplaceAll(s, old, new)] for a non-empty [old]: the
    non-overlapping occurrences of [old], found from left to right, are
    replaced by [new]. *)
Definition ReplaceAll (s old new : string) : string := replaceFrom 0 s old new.

(** [strings.ContainsRune(s, r)]: whether [r] is one of the runes of [s].
    (Go searches [s] for the bytes of [r]; an occurrence of a rune in a
    string always starts where a rune of the string starts.) *)
Definition ContainsRune (s : string) (r : Z) : bool :=
  existsb (Z.eqb r) (Utf8.runes s).

(** The concatenation of a list of strings. *)
Definition concatStrings (l : list string) : string := foldr String.append "" l.

(** The slice expression [s[i:j]] for [i <= j <= len(s)]. *)
Definition slice (s : string) (i j : nat) : string := String.substring i (j - i) s.

(** The verb [%v] of [fmt] applied to a [[]string]: the elements separated
    by spaces, in brackets. *)
Definition formatStrings (l : list string) : string :=
  "[" +:+ String.concat " " l +:+ "]".

(** [strings.Split(s, sep)] for a non-empty [sep]: the texts between the
    non-overlapping occurrences of [sep], found from left to right; [cur]
    is the text read since the last occurrence. *)
Fixpoint splitFrom (skip : nat) (s sep cur : string) : list string :=
  match s with
  | EmptyString => [cur]
  | String c r =>
    match skip with
    | S k => splitFrom k r sep cur
    | O =>
      if String.prefix sep s
      then cur :: splitFrom (String.length sep - 1) r sep EmptyString
      else splitFrom 0 r sep (cur +:+ String c EmptyString)
    end
  end.

Definition Split (s sep : string) : list string := splitFrom 0 s sep EmptyString.

(** [strings.Contains(s, substr)]. *)
Fixpoint Contains (s substr : string) : bool :=
  String.prefix substr s
  || match s with
     | EmptyString => false
     | String _ r => Contains r substr
     end.

End Strings.

(** The statement [for i, x := range xs { st = body(st, i, x) }], with the
    index starting at [i]. *)
Fixpoint forRange {A St : Type} (body : St → nat → A → St)
    (i : nat) (xs : list A) (st : St) : St :=
  match xs with
  | [] => st
  | x :: xs' => forRange body (S i) xs' (body st i x)
  end.

(** The line terminator ["\n"]. *)
Definition newline : string := String (ascii_of_nat 10) EmptyString.

(** ** Package [tables] *)

Module Tables.
Import Strings.

(** [TableConfig].  Its field [PNG] holds the font selection of the
    rasterizer and is read by no function of this package. *)
Record TableConfig : Type := {
  Type_ : string;
  Name : string;
  Headers : list string;
  Rows : list (list string);
  Alignment : list string
}.

(** [AlignmentType] is a string type with three named values. *)
Definition AlignmentType : Type := string.
Definition AlignLeft : AlignmentType := "left".
Definition AlignCenter : AlignmentType := "center".
Definition AlignRight : AlignmentType := "right".

Record TableStyle : Type := {
  TopLeft : string;
  TopRight : string;
  BottomLeft : string;
  BottomRight : string;
  Horizontal : string;
  Vertical : string;
  TopJoin : string;
  BottomJoin : string;
  LeftJoin : string;
  RightJoin : string;
  Cross : string
}.

Definition singleLineFull : TableStyle := {|
  TopLeft := "┌"; TopRight := "┐"; BottomLeft := "└"; BottomRight := "┘";
  Horizontal := "─"; Vertical := "│";
  TopJoin := "┬"; BottomJoin := "┴"; LeftJoin := "├"; RightJoin := "┤";
  Cross := "┼" |}.

Definition doubleLineFull : TableStyle := {|
  TopLeft := "╔"; TopRight := "╗"; BottomLeft := "╚"; BottomRight := "╝";
  Horizontal := "═"; Vertical := "║";
  TopJoin := "╦"; BottomJoin := "╩"; LeftJoin := "╠"; RightJoin := "╣";
  Cross := "╬" |}.

(** The initial value of the package variable [tableStyles].  The variable
    is mutable: the functions below take its current value as an
    argument. *)
Definition tableStyles : gmap string TableStyle :=
  <["single-line-full" := singleLineFull]>
    (<["double-line-full" := doubleLineFull]> ∅).

Record ASCIITableRenderer : Type := { Style : TableStyle }.

Definition cleanText (text : string) : string := ReplaceAll text "**" "".

Definition getDisplayLength (text : string) : Z :=
  Utf8.RuneCountInString (cleanText text).

(** The body of the loop of [calculateColumnWidths] over the cells of a
    row: the width of column [i] is raised to the display length of the
    cell, when the column exists. *)
Definition raiseWidth (colWidths : list Z) (i : nat) (cell : string) : list Z :=
  if Nat.ltb i (length colWidths) then
    let cellLen := getDisplayLength cell in
    if colWidths !!! i <? cellLen then <[i := cellLen]> colWidths else colWidths
  else colWidths.

Definition calculateColumnWidths (config : TableConfig) : list Z :=
  if Nat.eqb (length (Headers config)) 0 then [] else
  let colWidths := replicate (length (Headers config)) 0 in
  let colWidths :=
    forRange (λ cw i header, <[i := getDisplayLength header]> cw)
      0 (Headers config) colWidths in
  let colWidths :=
    forRange (λ cw _ row, forRange raiseWidth 0 row cw)
      0 (Rows config) colWidths in
  forRange (λ cw i _, <[i := cw !!! i + 2]> cw) 0 colWidths colWidths.

Definition formatCellContent (content : string) (width : Z)
    (alignment : AlignmentType) : string :=
  let cleanContent := cleanText content in
  let contentLen := getDisplayLength content in
  let width := if width <? contentLen + 2 then contentLen + 2 else width in
  let spacesNeeded := width - contentLen in
  if String.eqb alignment AlignCenter then
    let leftSpaces := spacesNeeded `quot` 2 in
    let rightSpaces := spacesNeeded - leftSpaces in
    Repeat " " leftSpaces +:+ cleanContent +:+ Repeat " " rightSpaces
  else if String.eqb alignment AlignRight then
    let leftSpaces := spacesNeeded - 1 in
    Repeat " " leftSpaces +:+ cleanContent +:+ " "
  else
    let rightSpaces := spacesNeeded - 1 in
    " " +:+ cleanContent +:+ Repeat " " rightSpaces.

Section WithToLower.
Context `{StringsToLower}.

Definition parseAlignment (align : string) : AlignmentType :=
  let a := ToLower align in
  if String.eqb a "center" || String.eqb a "centre" then AlignCenter
  else if String.eqb a "right" then AlignRight
  else AlignLeft.

Definition getColumnAlignment (config : TableConfig) (columnIndex : nat)
    : AlignmentType :=
  match Alignment config !! columnIndex with
  | Some a => parseAlignment a
  | None => AlignLeft
  end.

(** The loop that writes the horizontal rulers of a border line, with
    [join] between two columns; it occurs four times in [Render]. *)
Definition writeRulers (r : ASCIITableRenderer) (join : string)
    (colWidths : list Z) (result : string) : string :=
  forRange (λ result i width,
    let result := result +:+ Repeat (Horizontal (Style r)) width in
    if Z.of_nat i <? Z.of_nat (length colWidths) - 1
    then result +:+ join else result) 0 colWidths result.

(** The header row without its line terminator. *)
Definition writeHeaderRow (r : ASCIITableRenderer) (config : TableConfig)
    (colWidths : list Z) (result : string) : string :=
  let result := result +:+ Vertical (Style r) in
  forRange (λ result i header,
    let alignment := getColumnAlignment config i in
    let formattedCell := formatCellContent header (colWidths !!! i) alignment in
    result +:+ (formattedCell +:+ Vertical (Style r)))
    0 (Headers config) result.

(** A data row without its line terminator. *)
Definition writeDataRow (r : ASCIITableRenderer) (config : TableConfig)
    (colWidths : list Z) (row : list string) (result : string) : string :=
  let result := result +:+ Vertical (Style r) in
  forRange (λ result i cell,
    if Nat.ltb i (length colWidths) then
      let alignment := getColumnAlignment config i in
      let formattedCell := formatCellContent cell (colWidths !!! i) alignment in
      result +:+ (formattedCell +:+ Vertical (Style r))
    else result) 0 row result.

Definition Render (r : ASCIITableRenderer) (config : TableConfig) : string :=
  if Nat.eqb (length (Rows config)) 0 || Nat.eqb (length (Headers config)) 0
  then "" else
  let colWidths := calculateColumnWidths config in
  let result := "" in
  let result := result +:+ TopLeft (Style r) in
  let result := writeRulers r (TopJoin (Style r)) colWidths result in
  let result := result +:+ (TopRight (Style r) +:+ newline) in
  let result := writeHeaderRow r config colWidths result in
  let result := result +:+ newline in
  let result := result +:+ LeftJoin (Style r) in
  let result := writeRulers r (Cross (Style r)) colWidths result in
  let result := result +:+ (RightJoin (Style r) +:+ newline) in
  let result :=
    forRange (λ result rowIdx row,
      let result := writeDataRow r config colWidths row result in
      let result := result +:+ newline in
      if Z.of_nat rowIdx <? Z.of_nat (length (Rows config)) - 1 then
        let result := result +:+ LeftJoin (Style r) in
        let result := writeRulers r (Cross (Style r)) colWidths result in
        result +:+ (RightJoin (Style r) +:+ newline)
      else result) 0 (Rows config) result in
  let result := result +:+ BottomLeft (Style r) in
  let result := writeRulers r (BottomJoin (Style r)) colWidths result in
  result +:+ (BottomRight (Style r) +:+ newline).

(** The keys of the style map.  Go iterates over a map in an unspecified
    order: only the members of the list are meaningful. *)
Definition getAvailableTypes (styles : gmap string TableStyle) : list string :=
  (map_to_list styles).*1.

(** [GetRenderer] returns the renderer, or the error built by
    [fmt.Errorf], embedded as its message. *)
Definition GetRenderer (styles : gmap string TableStyle) (tableType : string)
    : ASCIITableRenderer + string :=
  match styles !! ToLower tableType with
  | None =>
    inr ("unknown table type: " +:+ tableType +:+ ". Available types: "
         +:+ formatStrings (getAvailableTypes styles))
  | Some style => inl {| Style := style |}
  end.

Definition RegisterTableStyle (name : string) (style : TableStyle)
    (styles : gmap string TableStyle) : gmap string TableStyle :=
  <[ToLower name := style]> styles.

(** The values the package variable [tableStyles] can take: the initial
    map and what [RegisterTableStyle] makes of it. *)
Inductive reachable : gmap string TableStyle → Prop :=
| reachable_init : reachable tableStyles
| reachable_register name style styles :
    reachable styles → reachable (RegisterTableStyle name style styles).

End WithToLower.
End Tables.

(** ** Package [output]: the segmenter *)

Module Output.
Import Strings.

(** [TextType] is an integer type; the segmenter also uses [-1] for "no
    type yet". *)
Definition TextType : Type := Z.
Definition ASCIIText : TextType := 0.
Definition HeaderText : TextType := 1.
Definition ContentText : TextType := 2.

Record TextSegment : Type := { Text : string; Type_ : TextType }.

(** The literal of box-drawing characters of [parseLineSegments]. *)
Definition asciiChars : string := "┌┐└┘├┤┬┴┼─│╔╗╚╝╠╣╦╩╬═║".

(** The type [classifyTextSegments] gives to one character. *)
Definition charTypeOf (allASCIIChars : string) (char : Z) : TextType :=
  if ContainsRune allASCIIChars char then ASCIIText else ContentText.

(** The body of the loop of [classifyTextSegments] over the state
    [(segments, currentSegment, currentType)]. *)
Definition classifyStep (allASCIIChars : string)
    (st : list TextSegment * string * TextType) (char : Z)
    : list TextSegment * string * TextType :=
  let '(segments, currentSegment, currentType) := st in
  let charType := charTypeOf allASCIIChars char in
  let currentType := if currentType =? -1 then charType else currentType in
  if charType =? currentType then
    (segments, currentSegment +:+ Utf8.EncodeRune char, currentType)
  else
    let segments :=
      if 0 <? len currentSegment
      then segments ++ [{| Text := currentSegment; Type_ := currentType |}]
      else segments in
    (segments, Utf8.EncodeRune char, charType).

Definition classifyTextSegments (text asciiChars : string) : list TextSegment :=
  let allASCIIChars := asciiChars +:+ "┌┐└┘├┤┬┴┼─│╔╗╚╝╠╣╦╩╬═║" in
  let '(segments, currentSegment, currentType) :=
    foldl (classifyStep allASCIIChars) ([], "", -1) (Utf8.runes text) in
  if 0 <? len currentSegment
  then segments ++ [{| Text := currentSegment; Type_ := currentType |}]
  else segments.

(** *** The regular expression [\*\*([^*]+)\*\*]

    A match is two stars, a non-empty run of characters other than a star,
    and two stars.  The run is greedy and must be followed by a star, so it
    is the longest star-free run; a star is an ASCII byte and never part of
    a longer UTF-8 sequence, so the run is also the longest run of bytes
    other than the star. *)

Definition isStar (c : ascii) : bool := Ascii.eqb c "*"%char.

(** The length of the longest star-free prefix of [s], and what follows. *)
Fixpoint spanNotStar (s : string) : nat :=
  match s with
  | EmptyString => 0%nat
  | String c r => if isStar c then 0%nat else S (spanNotStar r)
  end.

Fixpoint skipNotStar (s : string) : string :=
  match s with
  | EmptyString => EmptyString
  | String c r => if isStar c then s else skipNotStar r
  end.

(** The length of the match of the pattern at the start of [s], if any. *)
Definition boldPatternAt (s : string) : option nat :=
  match s with
  | String c0 (String c1 r) =>
    if isStar c0 && isStar c1 then
      let n := spanNotStar r in
      if Nat.ltb 0 n && String.prefix "**" (skipNotStar r)
      then Some (n + 4)%nat else None
    else None
  | _ => None
  end.

(** One element of the result of [FindAllStringSubmatchIndex]: the bounds
    [m0, m1] of the match and [m2, m3] of its group. *)
Record submatch : Type := { m0 : nat; m1 : nat; m2 : nat; m3 : nat }.

(** The successive leftmost matches in the suffix [s] of the line that
    starts at offset [pos]; the search resumes at the end of a match. *)
Fixpoint findAllFrom (skip pos : nat) (s : string) : list submatch :=
  match s with
  | EmptyString => []
  | String _ r =>
    match skip with
    | S k => findAllFrom k (S pos) r
    | O =>
      match boldPatternAt s with
      | Some n =>
        {| m0 := pos; m1 := pos + n; m2 := pos + 2; m3 := pos + n - 2 |}
          :: findAllFrom (n - 1) (S pos) r
      | None => findAllFrom 0 (S pos) r
      end
    end
  end.

(** [boldPattern.FindAllStringSubmatchIndex(line, -1)]. *)
Definition FindAllStringSubmatchIndex (line : string) : list submatch :=
  findAllFrom 0 0 line.

(** The body of the loop of [parseLineSegments] over the matches, on the
    state [(segments, lastIndex)]. *)
Definition parseStep (line : string) (st : list TextSegment * nat) (m : submatch)
    : list TextSegment * nat :=
  let '(segments, lastIndex) := st in
  let start := m0 m in
  let end_ := m1 m in
  let segments :=
    if Nat.ltb lastIndex start
    then segments ++ classifyTextSegments (slice line lastIndex start) asciiChars
    else segments in
  let boldText := slice line (m2 m) (m3 m) in
  let segments := segments ++ [{| Text := boldText; Type_ := HeaderText |}] in
  (segments, end_).

(** What [parseLineSegments] does after the loop: the remaining text. *)
Definition parseFinish (line : string) (st : list TextSegment * nat)
    : list TextSegment :=
  let '(segments, lastIndex) := st in
  if Nat.ltb lastIndex (String.length line)
  then segments ++ classifyTextSegments
                     (slice line lastIndex (String.length line)) asciiChars
  else segments.

Definition parseLineSegments (line : string) : list TextSegment :=
  let boldMatches := FindAllStringSubmatchIndex line in
  parseFinish line
    (forRange (λ st _ m, parseStep line st m) 0 boldMatches ([], 0%nat)).

(** *** The lines of the table text

    The loop of [GeneratePNG] over the lines of the table text: the
    segments of every line that is not blank. *)
Section WithTrimSpace.
Context `{StringsTrimSpace}.

Definition tableSegments (tableText : string) : list (list TextSegment) :=
  let lines := Split tableText newline in
  forRange (λ segments (_ : nat) line,
      if String.eqb (TrimSpace line) "" then segments
      else segments ++ [parseLineSegments line]) 0 lines [].

End WithTrimSpace.

(** *** The picture

    [GeneratePNG] draws with the packages [truetype], [font], [freetype],
    [image] and [png], and reads the fonts from files.  These are not part
    of this development: the embedding takes what the program calls from
    them as parameters.  An [error] is embedded as its message, a pointer
    that may be nil as an [option]. *)

(** A value of [fixed.Int26_6] is a 32-bit integer that counts 64ths of a
    pixel: [int32 z] is the value of [z] in 32 bits. *)
Definition int32 (z : Z) : Z := (z + 2 ^ 31) mod 2 ^ 32 - 2 ^ 31.

(** [fixed.Int26_6.Ceil]: [int((x + 0x3f) >> 6)]. *)
Definition Ceil (x : Z) : Z := Z.shiftr (int32 (x + 0x3f)) 6.

Class Graphics : Type := {
  (** The type [float64] of the font sizes. *)
  float64 : Type;
  (** [truetype.Font], [font.Face] and [image.RGBA]. *)
  Font : Type;
  Face : Type;
  RGBA : Type;
  (** [truetype.NewFace(f, &truetype.Options{Size: size, DPI: 72})]. *)
  truetypeNewFace : option Font → float64 → Face;
  (** The fields [Ascent] and [Descent] of [face.Metrics()]. *)
  metricsAscent : Face → Z;
  metricsDescent : Face → Z;
  (** [font.MeasureString(face, s)]. *)
  fontMeasureString : Face → string → Z;
  (** [c.DrawString(s, freetype.Pt(x, y))] on a new [freetype] context [c]
      of 72 DPI with the given font and size, black, that draws into the
      picture and is clipped to it: the picture after the call and the
      error. *)
  freetypeDrawString :
    RGBA → option Font → float64 → string → Z → Z → RGBA * option string;
  (** [image.NewRGBA(image.Rect(0, 0, width, height))], filled with the
      transparent colour by [draw.Draw]. *)
  imageNewRGBA : Z → Z → RGBA;
  (** [truetype.Parse] of the bytes of a font file. *)
  truetypeParse : string → Font + string
}.

(** The system and its files, as far as the program uses them. *)
Class Files `{Graphics} : Type := {
  (** [runtime.GOOS] and [os.Getenv]. *)
  runtimeGOOS : string;
  osGetenv : string → string;
  (** Whether [os.Stat(path)] returns no error, and whether it returns an
      error for which [os.IsNotExist] holds. *)
  osStat : string → bool;
  osStatNotExist : string → bool;
  (** [filepath.IsAbs] and [filepath.Join]. *)
  filepathIsAbs : string → bool;
  filepathJoin : list string → string;
  (** The walk of [searchFontInSubdirs] through the tree of a directory,
      made by [filepath.Walk]: the path it finds, or the empty string. *)
  walkFontTree : string → list string → Z → string;
  (** [ioutil.ReadFile]. *)
  ioutilReadFile : string → string + string;
  (** The error of [os.Create(path)]. *)
  osCreate : string → option string;
  (** The error of [png.Encode] of the picture into the file created at
      the path. *)
  pngEncode : string → RGBA → option string
}.

Section WithGraphics.
Context `{Graphics}.

Record FontConfig : Type := { Path : string; Size : float64 }.

Record PNGConfig : Type := {
  TitleFont : FontConfig;
  ContentFont : FontConfig;
  ASCIIFont : FontConfig
}.

(** The text of a line: the loop [full.WriteString(s.Text)] over its
    segments. *)
Definition lineText (lineSegs : list TextSegment) : string :=
  forRange (λ full (_ : nat) (s : TextSegment), full +:+ Text s) 0 lineSegs "".

Definition newFace (f : option Font) (size : float64) : Face :=
  truetypeNewFace f size.

Definition lineHeight (face : Face) : Z :=
  Ceil (int32 (metricsAscent face + metricsDescent face)).

(** The loop of [renderText] over the lines, from the baseline [y]: it
    returns at the first error of [DrawString]. *)
Fixpoint drawLines (img : RGBA) (fonts : gmap Z Font) (cfg : PNGConfig)
    (x lh : Z) (segments : list (list TextSegment)) (y : Z)
    : RGBA * option string :=
  match segments with
  | [] => (img, None)
  | lineSegs :: rest =>
    let full := lineText lineSegs in
    match freetypeDrawString img (fonts !! ASCIIText) (Size (ASCIIFont cfg))
            full x y with
    | (img, Some err) => (img, Some err)
    | (img, None) => drawLines img fonts cfg x lh rest (y + lh)
    end
  end.

(** [renderText]: the picture after the call and the error. *)
Definition renderText (img : RGBA) (segments : list (list TextSegment))
    (fonts : gmap Z Font) (cfg : PNGConfig) : RGBA * option string :=
  let monoFace := newFace (fonts !! ASCIIText) (Size (ASCIIFont cfg)) in
  let lh := lineHeight monoFace in
  let ascent := Ceil (metricsAscent monoFace) in
  let y := 50 + ascent in
  let x := 50 in
  drawLines img fonts cfg x lh segments y.

Definition calculateImageDimensions (segments : list (list TextSegment))
    (fonts : gmap Z Font) (cfg : PNGConfig) : Z * Z :=
  let monoFace := newFace (fonts !! ASCIIText) (Size (ASCIIFont cfg)) in
  let lh := lineHeight monoFace in
  let maxWidth :=
    forRange (λ maxWidth (_ : nat) lineSegs,
        let full := lineText lineSegs in
        let w := fontMeasureString monoFace full in
        if maxWidth <? Z.shiftr w 6 then Z.shiftr w 6 else maxWidth)
      0 segments 0 in
  let totalHeight := Z.of_nat (length segments) * lh in
  (maxWidth + 100, totalHeight + 100).

(** *** The fonts of the system (fonts.go) *)

(** [SystemFont]; its field [Path] is never read. *)
Record SystemFont : Type := { Names : list string; Path_ : string }.

Definition SystemSansSerif : SystemFont := {|
  Names := ["DejaVu Sans"; "Arial"; "Helvetica"; "Liberation Sans"; "FreeSans";
            "Noto Sans"; "Source Code Pro"];
  Path_ := "" |}.

Definition SystemSansSerifBold : SystemFont := {|
  Names := ["DejaVu Sans Bold"; "Arial Bold"; "Helvetica Bold";
            "Liberation Sans Bold"; "FreeSans Bold"; "Noto Sans Bold";
            "Source Code Pro Bold"];
  Path_ := "" |}.

Definition SystemMonospace : SystemFont := {|
  Names := ["DejaVu Sans Mono"; "Courier New"; "Liberation Mono"; "FreeMono";
            "Noto Sans Mono"; "Consolas"; "Source Code Pro"];
  Path_ := "" |}.

Context `{!Files} `{!StringsToLower}.

Definition getFontDirectories : list string :=
  let dirs :=
    if String.eqb runtimeGOOS "windows" then
      [filepathJoin [osGetenv "WINDIR"; "Fonts"];
       filepathJoin [osGetenv "LOCALAPPDATA"; "Microsoft"; "Windows"; "Fonts"]]
    else if String.eqb runtimeGOOS "darwin" then
      ["/System/Library/Fonts"; "/Library/Fonts";
       filepathJoin [osGetenv "HOME"; "Library"; "Fonts"]]
    else if String.eqb runtimeGOOS "linux" then
      ["/usr/share/fonts"; "/usr/local/share/fonts";
       filepathJoin [osGetenv "HOME"; ".fonts"];
       filepathJoin [osGetenv "HOME"; ".local/share/fonts"];
       "/var/lib/defoma/fontconfig.d/D"]
    else
      let dirs := ["/usr/share/fonts"; "/usr/local/share/fonts"] in
      let home := osGetenv "HOME" in
      if negb (String.eqb home "") then
        let dirs := dirs ++ [filepathJoin [home; ".fonts"]] in
        dirs ++ [filepathJoin [home; ".local/share/fonts"]]
      else dirs in
  ["./fonts"; "."] ++ dirs.

(** The file names [findSystemFont] tries for a font name. *)
Definition namingVariations (fontName : string) : list string :=
  let namingVariations :=
    [fontName;
     ReplaceAll fontName " " "";
     ReplaceAll fontName " " "-";
     ReplaceAll fontName " " "_";
     ToLower (ReplaceAll fontName " " "");
     ToLower (ReplaceAll fontName " " "-")] in
  if Contains (ToLower fontName) "source code pro" then
    if Contains (ToLower fontName) "bold"
    then namingVariations ++ ["SourceCodePro-Bold"; "SourceCodePro-Semibold"]
    else namingVariations ++ ["SourceCodePro-Regular"]
  else namingVariations.

Definition extensions : list string := [".ttf"; ".TTF"].

Definition searchFontInSubdirs (baseDir : string) (fontNames : list string)
    (maxDepth : Z) : string :=
  if maxDepth <=? 0 then "" else walkFontTree baseDir fontNames maxDepth.

(** The paths the three inner loops of [findSystemFont] try in a
    directory, in their order: for every font name, for every variation
    of the name, for every extension. *)
Definition candidatePaths (dir : string) (fontNames : list string) : list string :=
  fontName ← fontNames;
  name ← namingVariations fontName;
  ext ← extensions;
  [filepathJoin [dir; name +:+ ext]].

(** The loop of [findSystemFont] over the directories: it returns at the
    first path that exists. *)
Fixpoint searchDirectories (dirs : list string) (fontNames : list string)
    : option string :=
  match dirs with
  | [] => None
  | dir :: rest =>
    if osStatNotExist dir then searchDirectories rest fontNames
    else
      match List.find osStat (candidatePaths dir fontNames) with
      | Some fontPath => Some fontPath
      | None =>
        let foundPath := searchFontInSubdirs dir fontNames 2 in
        if negb (String.eqb foundPath "") then Some foundPath
        else searchDirectories rest fontNames
      end
  end.

(** [findSystemFont]: the path and the error. *)
Definition findSystemFont (fontNames : list string) : string * option string :=
  let dirs := getFontDirectories in
  match searchDirectories dirs fontNames with
  | Some fontPath => (fontPath, None)
  | None => ("", Some ("font not found: tried " +:+ formatStrings fontNames))
  end.

Definition resolveSystemFont (fontPath : string) : string * option string :=
  if osStat fontPath then (fontPath, None)
  else if negb (filepathIsAbs fontPath) && osStat fontPath then (fontPath, None)
  else findSystemFont [fontPath].

Definition getDefaultSystemFonts : string * string * string * option string :=
  let '(sansSerifPath, err1) := findSystemFont (Names SystemSansSerif) in
  let '(boldPath, err2) := findSystemFont (Names SystemSansSerifBold) in
  let '(monospacePath, err3) := findSystemFont (Names SystemMonospace) in
  if bool_decide (err1 ≠ None) && bool_decide (err2 ≠ None)
     && bool_decide (err3 ≠ None)
  then
    ("", "", "",
     Some ("no system fonts found. Please specify font paths in your JSON config or place TTF files in ./fonts/ directory. Searched for: "
           +:+ formatStrings (Names SystemSansSerif) +:+ ", "
           +:+ formatStrings (Names SystemSansSerifBold) +:+ ", "
           +:+ formatStrings (Names SystemMonospace)))
  else
    let sansSerifPath :=
      if bool_decide (err1 ≠ None) then boldPath else sansSerifPath in
    let boldPath :=
      if bool_decide (err2 ≠ None) then sansSerifPath else boldPath in
    let monospacePath :=
      if bool_decide (err3 ≠ None) then sansSerifPath else monospacePath in
    (sansSerifPath, boldPath, monospacePath, None).

(** [loadFont]: the font or the error. *)
Definition loadFont (fontPath : string) : Font + string :=
  match resolveSystemFont fontPath with
  | (_, Some err) =>
    inr ("failed to resolve font '" +:+ fontPath +:+ "': " +:+ err)
  | (resolvedPath, None) =>
    match ioutilReadFile resolvedPath with
    | inr err =>
      inr ("failed to read font file '" +:+ resolvedPath +:+ "': " +:+ err)
    | inl fontBytes =>
      match truetypeParse fontBytes with
      | inr err =>
        inr ("failed to parse font file '" +:+ resolvedPath +:+ "': " +:+ err)
      | inl font => inl font
      end
    end
  end.

(** The choice of the three font paths at the top of [GeneratePNG]:
    [(asciiPath, titlePath, contentPath)], or the error. *)
Definition fontPaths (config : PNGConfig) : string * string * string + string :=
  if String.eqb (Path (ASCIIFont config)) "" || String.eqb (Path (TitleFont config)) ""
     || String.eqb (Path (ContentFont config)) ""
  then
    let '(defaultContent, defaultTitle, defaultMono, sysErr) :=
      getDefaultSystemFonts in
    match sysErr with
    | Some sysErr =>
      inr ("failed to find system fonts and no paths specified: " +:+ sysErr)
    | None =>
      let asciiPath :=
        if String.eqb (Path (ASCIIFont config)) "" then defaultMono
        else Path (ASCIIFont config) in
      let titlePath :=
        if String.eqb (Path (TitleFont config)) "" then defaultTitle
        else Path (TitleFont config) in
      let contentPath :=
        if String.eqb (Path (ContentFont config)) "" then defaultContent
        else Path (ContentFont config) in
      inl (asciiPath, titlePath, contentPath)
    end
  else
    inl (Path (ASCIIFont config), Path (TitleFont config),
         Path (ContentFont config)).

Context `{!StringsTrimSpace}.

(** [GeneratePNG]: the error, [None] when the picture was written. *)
Definition GeneratePNG (tableText : string) (config : PNGConfig)
    (outputPath : string) : option string :=
  let fonts : gmap Z Font := ∅ in
  match fontPaths config with
  | inr err => Some err
  | inl (asciiPath, titlePath, contentPath) =>
    match loadFont asciiPath with
    | inr err => Some ("failed to load ASCII font: " +:+ err)
    | inl asciiFont =>
      let fonts := <[ASCIIText := asciiFont]> fonts in
      match loadFont titlePath with
      | inr err => Some ("failed to load title font: " +:+ err)
      | inl titleFont =>
        let fonts := <[HeaderText := titleFont]> fonts in
        match loadFont contentPath with
        | inr err => Some ("failed to load content font: " +:+ err)
        | inl contentFont =>
          let fonts := <[ContentText := contentFont]> fonts in
          let segments := tableSegments tableText in
          let '(width, height) := calculateImageDimensions segments fonts config in
          let img := imageNewRGBA width height in
          match renderText img segments fonts config with
          | (_, Some err) => Some ("failed to render text: " +:+ err)
          | (img, None) =>
            match osCreate outputPath with
            | Some err => Some ("failed to create output file: " +:+ err)
            | None =>
              match pngEncode outputPath img with
              | Some err => Some ("failed to encode PNG: " +:+ err)
              | None => None
              end
            end
          end
        end
      end
    end
  end.

End WithGraphics.

End Output.

(** ** The command (main.go) *)

Module Main.
Import Strings.


Section WithSystem.
Context `{StringsToLower} `{StringsTrimSpace}.
Context `{Output.Graphics} `{!Output.Files}.


Context `{!Command}.


End WithSystem.
End Main.

(** ** Notions the specification uses *)

Module Spec.

(** *** Column widths *)

(** The cells of the rows at column index [i]. *)
Definition columnCells (rows : list (list string)) (i : nat) : list string :=
  omap (λ row : list string, row !! i) rows.

(** The maximum of the display length of a header and of the display
    lengths of a list of cells. *)
Definition maxDisplayLength (header : string) (cells : list string) : Z :=
  foldl Z.max (Tables.getDisplayLength header) (Tables.getDisplayLength <$> cells).

(** The table description with other rows. *)
Definition withRows (config : Tables.TableConfig) (rows : list (list string))
    : Tables.TableConfig :=
  {| Tables.Type_ := Tables.Type_ config; Tables.Name := Tables.Name config;
     Tables.Headers := Tables.Headers config; Tables.Rows := rows;
     Tables.Alignment := Tables.Alignment config |}.

(** *** Formatted cells and the lines of the grid *)

(** The display width of a formatted cell: its number of runes. *)
Definition displayWidth (s : string) : Z := Utf8.RuneCountInString s.

(** A string between two spaces. *)
Definition spaced (s : string) : Prop :=
  (∃ x, s = String " "%char x) ∧ (∃ y, s = y +:+ " ").

(** A row line: the delimiter [v], then every formatted cell followed by
    the delimiter. *)
Definition rowLine (v : string) (cells : list string) : string :=
  v +:+ foldr (λ cell acc, (cell +:+ v) +:+ acc) EmptyString cells.

(** A text made of lines, each with its terminator. *)
Definition unlines (ls : list string) : string :=
  foldr (λ l acc, (l +:+ newline) +:+ acc) EmptyString ls.

(** The lines of a text, without their terminators. *)
Fixpoint linesOf (s : string) : list string :=
  match s with
  | EmptyString => []
  | String c r =>
    if Ascii.eqb c (ascii_of_nat 10) then EmptyString :: linesOf r
    else
      match linesOf r with
      | [] => [String c EmptyString]
      | l :: ls => String c l :: ls
      end
  end.

(** The number of positions of [s] at which [sub] occurs. *)
Fixpoint occurrences (sub s : string) : nat :=
  match s with
  | EmptyString => if String.prefix sub EmptyString then 1%nat else 0%nat
  | String _ r => ((if String.prefix sub s then 1 else 0) + occurrences sub r)%nat
  end.

(** Whether the byte [c] occurs in [s]. *)
Fixpoint containsByte (c : ascii) (s : string) : bool :=
  match s with
  | EmptyString => false
  | String x r => Ascii.eqb x c || containsByte c r
  end.

Section WithToLower.
Context `{StringsToLower}.

(** The cells of a row as [Render] formats them: the cell at index [i],
    for [i] within the columns, in the width and the alignment of column
    [i]. *)
Definition formattedCells (config : Tables.TableConfig) (colWidths : list Z)
    (cells : list string) : list string :=
  imap (λ i cell,
          Tables.formatCellContent cell (colWidths !!! i)
            (Tables.getColumnAlignment config i))
       (take (length colWidths) cells).

(** What one iteration of the rulers loop writes, for a table of [n]
    columns. *)
Definition rulerPiece (r : Tables.ASCIITableRenderer) (join : string) (n : nat)
    (i : nat) (width : Z) : string :=
  Strings.Repeat (Tables.Horizontal (Tables.Style r)) width
  +:+ (if Z.of_nat i <? Z.of_nat n - 1 then join else "").

(** What one iteration of a row loop writes: the formatted cell and the
    delimiter. *)
Definition cellPiece (r : Tables.ASCIITableRenderer) (config : Tables.TableConfig)
    (colWidths : list Z) (i : nat) (cell : string) : string :=
  Tables.formatCellContent cell (colWidths !!! i) (Tables.getColumnAlignment config i)
  +:+ Tables.Vertical (Tables.Style r).

(** A border line: a corner or join, the rulers, a corner or join. *)
Definition borderLine (r : Tables.ASCIITableRenderer) (left join right : string)
    (colWidths : list Z) : string :=
  left +:+ Tables.writeRulers r join colWidths EmptyString +:+ right.

Definition headerLine (r : Tables.ASCIITableRenderer)
    (config : Tables.TableConfig) : string :=
  Tables.writeHeaderRow r config (Tables.calculateColumnWidths config) EmptyString.

Definition dataLine (r : Tables.ASCIITableRenderer)
    (config : Tables.TableConfig) (row : list string) : string :=
  Tables.writeDataRow r config (Tables.calculateColumnWidths config) row EmptyString.

Definition separatorLine (r : Tables.ASCIITableRenderer)
    (config : Tables.TableConfig) : string :=
  borderLine r (Tables.LeftJoin (Tables.Style r)) (Tables.Cross (Tables.Style r))
    (Tables.RightJoin (Tables.Style r)) (Tables.calculateColumnWidths config).

(** The lines of the data rows from row index [rowIdx] on, with a separator
    after every row but the last of the [total] rows. *)
Fixpoint dataLines (r : Tables.ASCIITableRenderer) (config : Tables.TableConfig)
    (total rowIdx : nat) (rows : list (list string)) : list string :=
  match rows with
  | [] => []
  | row :: rest =>
    dataLine r config row
      :: (if Z.of_nat rowIdx <? Z.of_nat total - 1
          then [separatorLine r config] else [])
      ++ dataLines r config total (S rowIdx) rest
  end.

(** The lines of the grid: top border, header row, header separator, data
    rows with separators between them, bottom border. *)
Definition renderLines (r : Tables.ASCIITableRenderer)
    (config : Tables.TableConfig) : list string :=
  let cw := Tables.calculateColumnWidths config in
  let st := Tables.Style r in
  [borderLine r (Tables.TopLeft st) (Tables.TopJoin st) (Tables.TopRight st) cw;
   headerLine r config;
   separatorLine r config]
  ++ dataLines r config (length (Tables.Rows config)) 0 (Tables.Rows config)
  ++ [borderLine r (Tables.BottomLeft st) (Tables.BottomJoin st)
        (Tables.BottomRight st) cw].

End WithToLower.

(** *** Tables of the scenarios *)

(** The scenario of the specification: two headers, one row, no alignment
    hints, the single-line style. *)
Definition scenarioConfig (name : string) : Tables.TableConfig :=
  {| Tables.Type_ := "single-line-full"; Tables.Name := name;
     Tables.Headers := ["A"; "BB"]; Tables.Rows := [["x"; "yy"]];
     Tables.Alignment := [] |}.

(** A table whose only row has fewer cells than there are headers. *)
Definition shortRowConfig : Tables.TableConfig :=
  {| Tables.Type_ := "single-line-full"; Tables.Name := "";
     Tables.Headers := ["A"; "B"]; Tables.Rows := [["x"]];
     Tables.Alignment := [] |}.

(** *** Emphasis runs *)

(** An emphasis run is [**x**] for a non-empty [x] without a star.
    [runText s] reads [x] and its closing marker at the start of [s] and
    gives [x] and what follows the marker. *)
Fixpoint runText (s : string) : option (string * string) :=
  match s with
  | EmptyString => None
  | String c r =>
    if Output.isStar c then
      match r with
      | String c' r' => if Output.isStar c' then Some (EmptyString, r') else None
      | EmptyString => None
      end
    else
      match runText r with
      | Some (x, rest) => Some (String c x, rest)
      | None => None
      end
  end.

Definition emphasisRun (s : string) : option (string * string) :=
  match s with
  | String c0 (String c1 r) =>
    if Output.isStar c0 && Output.isStar c1 then
      match runText r with
      | Some (String c x, rest) => Some (String c x, rest)
      | _ => None
      end
    else None
  | _ => None
  end.

(** The pieces of a line: its emphasis runs, flagged [true] and without
    their markers, and the text between them, flagged [false].  The runs are
    taken from left to right; [skip] counts the bytes of the current run
    still to be passed over. *)
Definition consPlain (t : string) (ps : list (bool * string)) : list (bool * string) :=
  match ps with
  | (false, t') :: ps' => (false, t +:+ t') :: ps'
  | _ => (false, t) :: ps
  end.

Fixpoint piecesFrom (skip : nat) (s : string) : list (bool * string) :=
  match s with
  | EmptyString => []
  | String c r =>
    match skip with
    | S k => piecesFrom k r
    | O =>
      match emphasisRun s with
      | Some (x, _) => (true, x) :: piecesFrom (String.length x + 3) r
      | None => consPlain (String c EmptyString) (piecesFrom 0 r)
      end
    end
  end.

Definition pieces (line : string) : list (bool * string) := piecesFrom 0 line.

(** The pieces [ps] of the rest of a line, after the text [pending] that
    belongs to no emphasis run. *)
Definition prependPlain (pending : string) (ps : list (bool * string))
    : list (bool * string) :=
  match pending with
  | EmptyString => ps
  | _ => consPlain pending ps
  end.

(** No two pieces that follow each other are both outside emphasis runs. *)
Fixpoint separated (ps : list (bool * string)) : bool :=
  match ps with
  | [] => true
  | p1 :: rest =>
    match rest with
    | [] => true
    | p2 :: _ => p1.1 || p2.1
    end && separated rest
  end.

(** The line with the two markers of every emphasis run removed. *)
Definition stripEmphasis (line : string) : string :=
  Strings.concatStrings ((pieces line).*2).

(** The text a piece comes from. *)
Definition pieceSource (p : bool * string) : string :=
  if p.1 then "**" +:+ p.2 +:+ "**" else p.2.

(** *** Characters outside emphasis runs *)

(** The set of characters [classifyTextSegments] tests a character
    against, when called by [parseLineSegments]. *)
Definition allASCIIChars : string :=
  Output.asciiChars +:+ "┌┐└┘├┤┬┴┼─│╔╗╚╝╠╣╦╩╬═║".

(** The maximal runs of characters of one type, as typed texts: a
    character joins the run that follows it when it has its type. *)
Definition consRun (ty : Z) (t : string) (gs : list (Z * string)) : list (Z * string) :=
  match gs with
  | (ty', t') :: gs' => if ty =? ty' then (ty, t +:+ t') :: gs' else (ty, t) :: gs
  | [] => [(ty, t)]
  end.

Fixpoint runsOf (f : Z → Z) (rs : list Z) : list (Z * string) :=
  match rs with
  | [] => []
  | r :: rs' => consRun (f r) (Utf8.EncodeRune r) (runsOf f rs')
  end.

Definition segmentOfRun (g : Z * string) : Output.TextSegment :=
  {| Output.Text := g.2; Output.Type_ := g.1 |}.

(** [classified f rs segs]: the segments [segs] divide the characters [rs]
    into consecutive non-empty groups; a segment holds the encoding of the
    characters of its group, which all have its type under [f]. *)
Inductive classified (f : Z → Z) : list Z → list Output.TextSegment → Prop :=
| classified_nil : classified f [] []
| classified_cons (g rs : list Z) (ty : Z) (segs : list Output.TextSegment) :
    g ≠ [] → Forall (λ r, f r = ty) g → classified f rs segs →
    classified f (g ++ rs)
      ({| Output.Text := Utf8.encodeRunes g; Output.Type_ := ty |} :: segs).

(** The segments of a piece: an emphasis run is one header segment, other
    text is classified character by character. *)
Definition segmentsOfPiece (p : bool * string) : list Output.TextSegment :=
  if p.1 then [{| Output.Text := p.2; Output.Type_ := Output.HeaderText |}]
  else Output.classifyTextSegments p.2 Output.asciiChars.

(** The concatenation of the texts of a list of segments. *)
Definition segmentsText (segs : list Output.TextSegment) : string :=
  foldr (λ seg acc, Output.Text seg +:+ acc) EmptyString segs.

(** No two adjacent segments outside emphasis runs have the same type. *)
Definition runsAreMaximal (segs : list Output.TextSegment) : Prop :=
  ∀ i s1 s2, segs !! i = Some s1 → segs !! S i = Some s2 →
    Output.Type_ s1 ≠ Output.HeaderText → Output.Type_ s2 ≠ Output.HeaderText →
    Output.Type_ s1 ≠ Output.Type_ s2.

(** The same, segment after segment. *)
Definition mayFollow (s1 s2 : Output.TextSegment) : Prop :=
  Output.Type_ s1 = Output.HeaderText ∨ Output.Type_ s2 = Output.HeaderText
  ∨ Output.Type_ s1 ≠ Output.Type_ s2.

Fixpoint chained (segs : list Output.TextSegment) : Prop :=
  match segs with
  | [] => True
  | s1 :: rest =>
    match rest with
    | [] => True
    | s2 :: _ => mayFollow s1 s2
    end ∧ chained rest
  end.

(** A line that is not well-formed UTF-8: the single byte [0xFF]. *)
Definition illFormedLine : string := String (ascii_of_nat 255) EmptyString.

(** The encoding of the replacement character U+FFFD. *)
Definition replacementText : string :=
  String (ascii_of_nat 239) (String (ascii_of_nat 191)
    (String (ascii_of_nat 189) EmptyString)).

(** *** Border glyphs *)

(** The glyphs of a style, as runes. *)
Definition styleGlyphs (st : Tables.TableStyle) : list Z :=
  concat (Utf8.runes <$>
    [Tables.TopLeft st; Tables.TopRight st; Tables.BottomLeft st;
     Tables.BottomRight st; Tables.Horizontal st; Tables.Vertical st;
     Tables.TopJoin st; Tables.BottomJoin st; Tables.LeftJoin st;
     Tables.RightJoin st; Tables.Cross st]).

(** The glyphs of the two built-in styles. *)
Definition builtinGlyphs : list Z :=
  styleGlyphs Tables.singleLineFull ++ styleGlyphs Tables.doubleLineFull.

(** The rounded style of the documentation, registered at run time. *)
Definition roundedStyle : Tables.TableStyle := {|
  Tables.TopLeft := "╭"; Tables.TopRight := "╮";
  Tables.BottomLeft := "╰"; Tables.BottomRight := "╯";
  Tables.Horizontal := "─"; Tables.Vertical := "│";
  Tables.TopJoin := "┬"; Tables.BottomJoin := "┴";
  Tables.LeftJoin := "├"; Tables.RightJoin := "┤"; Tables.Cross := "┼" |}.

(** A rune is a border glyph of the registry [styles] when some registered
    style uses it. *)
Definition registeredGlyph (styles : gmap string Tables.TableStyle) (r : Z) : Prop :=
  ∃ name st, styles !! name = Some st ∧ r ∈ styleGlyphs st.

(** *** The grid as a whole *)

(** The eleven glyphs of a style, as texts. *)
Definition glyphTexts (st : Tables.TableStyle) : list string :=
  [Tables.TopLeft st; Tables.TopRight st; Tables.BottomLeft st;
   Tables.BottomRight st; Tables.Horizontal st; Tables.Vertical st;
   Tables.TopJoin st; Tables.BottomJoin st; Tables.LeftJoin st;
   Tables.RightJoin st; Tables.Cross st].

(** Every header and every cell of a table description. *)
Definition allCells (config : Tables.TableConfig) : list string :=
  Tables.Headers config ++ concat (Tables.Rows config).

(** A glyph that is one well-formed character. *)
Definition oneCharacter (g : string) : bool :=
  Utf8.ValidString g && (Utf8.RuneCountInString g =? 1).

(** The sum of a list of widths. *)
Definition sumZ (l : list Z) : Z := foldr Z.add 0 l.

(** The table description with other alignment hints. *)
Definition withAlignment (config : Tables.TableConfig) (alignment : list string)
    : Tables.TableConfig :=
  {| Tables.Type_ := Tables.Type_ config; Tables.Name := Tables.Name config;
     Tables.Headers := Tables.Headers config; Tables.Rows := Tables.Rows config;
     Tables.Alignment := alignment |}.

(** The table description with the emphasis markers removed from every
    header and every cell. *)
Definition withoutMarkers (config : Tables.TableConfig) : Tables.TableConfig :=
  {| Tables.Type_ := Tables.Type_ config; Tables.Name := Tables.Name config;
     Tables.Headers := fmap (M := list) Tables.cleanText (Tables.Headers config);
     Tables.Rows := fmap (M := list) (fmap (M := list) Tables.cleanText)
                      (Tables.Rows config);
     Tables.Alignment := Tables.Alignment config |}.

(** *** Bytes the segmenter replaces *)



(** *** The picture *)

Section WithGraphics.
Context `{Output.Graphics}.

(** What is drawn for a line: its text, the abscissa of its left end and
    the ordinate of its baseline. *)
Definition Draw : Type := string * Z * Z.

(** The draws of the lines of a picture: line [k] at the left margin of 50
    pixels, on the baseline [k] line heights below the first one. *)
Definition lineDraws (segments : list (list Output.TextSegment))
    (fonts : gmap Z Output.Font) (cfg : Output.PNGConfig) : list Draw :=
  let face := Output.newFace (fonts !! Output.ASCIIText)
                (Output.Size (Output.ASCIIFont cfg)) in
  imap (λ k lineSegs,
          (Output.lineText lineSegs, 50,
           50 + Output.Ceil (Output.metricsAscent face)
           + Z.of_nat k * Output.lineHeight face))
       segments.

(** Draws made one after the other with a font, until one fails. *)
Fixpoint drawAll (img : Output.RGBA) (font : option Output.Font)
    (size : Output.float64) (draws : list Draw) : Output.RGBA * option string :=
  match draws with
  | [] => (img, None)
  | (text, x, y) :: rest =>
    match Output.freetypeDrawString img font size text x y with
    | (img, Some err) => (img, Some err)
    | (img, None) => drawAll img font size rest
    end
  end.

(** A draw lies inside a picture of [width] by [height] pixels, for the
    metrics of a face: the text starts at the left margin of 50 pixels, the
    top of the line is at 50 pixels or more from the top of the picture,
    the bottom of the line at 49 pixels or more from its bottom, and the
    whole pixels of the advance of the text end at 50 pixels or more from
    its right side. *)
Definition inside (face : Output.Face) (width height : Z) (d : Draw) : Prop :=
  let '(text, x, y) := d in
  x = 50
  ∧ 50 <= y - Output.Ceil (Output.metricsAscent face)
  ∧ y + Output.Ceil (Output.metricsDescent face) <= height - 49
  ∧ x + Z.shiftr (Output.fontMeasureString face text) 6 <= width - 50.

(** What a directory offers to [findSystemFont] for a list of font names:
    nothing when it is reported missing, else the first of the candidate
    paths that exists, else what the search of its subdirectories finds. *)
Definition offer `{!Output.Files} `{!StringsToLower} (dir : string)
    (fontNames : list string) : option string :=
  if Output.osStatNotExist dir then None
  else
    match List.find Output.osStat (Output.candidatePaths dir fontNames) with
    | Some fontPath => Some fontPath
    | None =>
      if negb (String.eqb (Output.searchFontInSubdirs dir fontNames 2) "")
      then Some (Output.searchFontInSubdirs dir fontNames 2) else None
    end.

End WithGraphics.

(** *** A system for the examples

    A face whose ascent is the size and whose descent is a quarter of the
    size, in pixels, with characters half as wide as the size; a picture is
    the list of the draws made into it; no file is found, and the only
    table description the command reads is the scenario. *)
Definition exampleGraphics : Output.Graphics := {|
  Output.float64 := Z;
  Output.Font := unit;
  Output.Face := Z;
  Output.RGBA := list (string * Z * Z);
  Output.truetypeNewFace := λ _ size, size;
  Output.metricsAscent := λ size, 64 * size;
  Output.metricsDescent := λ size, 16 * size;
  Output.fontMeasureString := λ size s, 32 * size * Utf8.RuneCountInString s;
  Output.freetypeDrawString := λ img _ _ s x y, (img ++ [(s, x, y)], None);
  Output.imageNewRGBA := λ _ _, [];
  Output.truetypeParse := λ _, inl tt |}.



(** Fonts of 12 points, with no path. *)
Definition exampleConfig : Output.PNGConfig (H := exampleGraphics) :=
  let font := @Output.Build_FontConfig exampleGraphics "" 12 in
  {| Output.TitleFont := font; Output.ContentFont := font;
     Output.ASCIIFont := font |}.

Definition exampleFonts : gmap Z unit := {[Output.ASCIIText := tt]}.

Definition exampleFontsLoaded : gmap Z unit :=
  <[Output.ContentText := tt]> (<[Output.HeaderText := tt]> exampleFonts).

(** A line in one segment, and the same line divided by the types of its
    characters. *)
Definition exampleLine : list (list Output.TextSegment) :=
  [[{| Output.Text := "│ x │"; Output.Type_ := Output.ContentText |}]].

Definition exampleLineDivided : list (list Output.TextSegment) :=
  [Output.parseLineSegments "│ x │"].

End Spec.

(** * Properties *)

(** ** Strings *)

#[local] Arguments String.append !_ _ : simpl nomatch.

Section StringFacts.

Lemma string_app_assoc (a b c : string) : (a +:+ b) +:+ c = a +:+ (b +:+ c).
Proof. induction a as [|x a IH]; simpl; [done | by rewrite IH]. Qed.

Lemma string_app_nil_r (a : string) : a +:+ "" = a.
Proof. induction a as [|x a IH]; simpl; [done | by rewrite IH]. Qed.

Lemma string_length_app (a b : string) :
  String.length (a +:+ b) = (String.length a + String.length b)%nat.
Proof. induction a as [|x a IH]; simpl; [done | by rewrite IH]. Qed.

Lemma repeatNat_add (s : string) (n m : nat) :
  Strings.repeatNat s (n + m) = Strings.repeatNat s n +:+ Strings.repeatNat s m.
Proof.
  induction n as [|n IH]; [done |].
  cbn [Strings.repeatNat Nat.add]. by rewrite IH, string_app_assoc.
Qed.

(** A run of at least one copy of a one-byte string ends with that byte. *)
Lemma repeatNat_snoc (c : ascii) (n : nat) :
  Strings.repeatNat (String c "") (S n)
  = Strings.repeatNat (String c "") n +:+ String c "".
Proof.
  replace (S n) with (n + 1)%nat by lia.
  by rewrite repeatNat_add.
Qed.

End StringFacts.

(** ** UTF-8 *)

Section Utf8Facts.
Import Utf8.

Lemma byteZ_range (c : ascii) : 0 <= byteZ c < 256.
Proof.
  unfold byteZ. pose proof (N_ascii_bounded c). lia.
Qed.

Lemma toByte_byteZ (c : ascii) : toByte (byteZ c) = c.
Proof.
  unfold toByte. pose proof (byteZ_range c).
  rewrite Z.mod_small by lia. unfold byteZ.
  rewrite N2Z.id. apply ascii_N_embedding.
Qed.

Lemma first_lead (b : Z) (sz : nat) (lo hi : Z) :
  first b = FirstLead sz lo hi →
  (sz = 2 ∨ sz = 3 ∨ sz = 4)%nat ∧ 0x80 <= lo.
Proof.
  unfold first, locb.
  repeat (case_match; [intros [= <- <- <-] || intros [=]; lia |]).
  intros [=].
Qed.

Lemma decode_noLen (s : string) : DecodeRuneInString s = decodeNoLen s.
Proof.
  destruct s as [|c0 r0]; [done |].
  unfold DecodeRuneInString, decodeNoLen.
  destruct (first (byteZ c0)) as [| |sz lo hi] eqn:Hf; [done | done |].
  apply first_lead in Hf as [Hsz _].
  destruct r0 as [|c1 [|c2 [|c3 r3]]];
    destruct Hsz as [-> | [-> | ->]]; simpl;
    repeat case_match; done.
Qed.

Lemma decode_nonempty_width (c : ascii) (r : string) :
  (1 <= (DecodeRuneInString (String c r)).2 <= String.length (String c r))%nat.
Proof.
  rewrite decode_noLen. unfold decodeNoLen.
  destruct (first (byteZ c)) as [| |sz lo hi]; simpl; [lia | lia |].
  destruct r as [|c1 [|c2 [|c3 r3]]]; simpl; repeat case_match; simpl; lia.
Qed.

Lemma first_ascii (c : ascii) : byteZ c < 0x80 → first (byteZ c) = FirstASCII.
Proof. intros Hc. unfold first. case_match; [done | lia]. Qed.

Lemma decode_ascii (c : ascii) (r : string) :
  byteZ c < 0x80 → DecodeRuneInString (String c r) = (byteZ c, 1%nat).
Proof. intros Hc. unfold DecodeRuneInString. by rewrite first_ascii. Qed.

(** An ASCII byte that follows a string does not change how the first rune
    of the string decodes. *)
Lemma decode_before_ascii (c0 : ascii) (r0 : string) (c : ascii) (w : string) :
  byteZ c < 0x80 →
  DecodeRuneInString (String c0 r0 +:+ String c w)
  = DecodeRuneInString (String c0 r0).
Proof.
  intros Hc. rewrite !decode_noLen. simpl. unfold decodeNoLen.
  destruct (first (byteZ c0)) as [| |sz lo hi] eqn:Hf; [done | done |].
  apply first_lead in Hf as [_ Hlo].
  assert (Hlt : ∀ l h, 0x80 <= l → (byteZ c <? l) || (h <? byteZ c) = true).
  { intros l h Hl. apply orb_true_iff. left. lia. }
  destruct r0 as [|c1 r1]; simpl; [by rewrite Hlt |].
  destruct ((byteZ c1 <? lo) || (hi <? byteZ c1)); [done |].
  destruct (Nat.leb sz 2); [done |].
  destruct r1 as [|c2 r2]; simpl.
  { unfold locb at 1. rewrite Hlt; [done | lia]. }
  destruct ((byteZ c2 <? locb) || (hicb <? byteZ c2)); [done |].
  destruct (Nat.leb sz 3); [done |].
  destruct r2 as [|c3 r3]; simpl; [| done].
  unfold locb at 1. rewrite Hlt; [done | lia].
Qed.

Lemma decodeFrom_before_ascii (s : string) (c : ascii) (w : string) (k : nat) :
  byteZ c < 0x80 → (k <= String.length s)%nat →
  decodeFrom k (s +:+ String c w) = decodeFrom k s ++ decodeFrom 0 (String c w).
Proof.
  intros Hc. revert k. induction s as [|c0 r0 IH]; intros k Hk.
  - simpl in Hk. by replace k with 0%nat by lia.
  - destruct k as [|k].
    + change (decodeFrom 0 (String c0 r0 +:+ String c w))
        with (DecodeRuneInString (String c0 r0 +:+ String c w)
              :: decodeFrom
                   ((DecodeRuneInString (String c0 r0 +:+ String c w)).2 - 1)
                   (r0 +:+ String c w)).
      rewrite decode_before_ascii by done.
      pose proof (decode_nonempty_width c0 r0) as Hw.
      cbn [String.length] in Hw. rewrite IH by lia. done.
    + simpl in Hk. simpl. apply IH. lia.
Qed.

(** Decoding splits at an ASCII byte. *)
Lemma decodeAll_ascii_cons (c : ascii) (w : string) :
  byteZ c < 0x80 → decodeAll (String c w) = (byteZ c, 1%nat) :: decodeAll w.
Proof.
  intros Hc. unfold decodeAll.
  change (decodeFrom 0 (String c w))
    with (DecodeRuneInString (String c w)
          :: decodeFrom ((DecodeRuneInString (String c w)).2 - 1) w).
  by rewrite decode_ascii.
Qed.

Lemma decodeAll_app_ascii (s : string) (c : ascii) (w : string) :
  byteZ c < 0x80 →
  decodeAll (s +:+ String c w) = decodeAll s ++ (byteZ c, 1%nat) :: decodeAll w.
Proof.
  intros Hc. unfold decodeAll.
  rewrite decodeFrom_before_ascii by (done || lia).
  f_equal. apply (decodeAll_ascii_cons c w Hc).
Qed.

Lemma runeCount_ascii_cons (c : ascii) (w : string) :
  byteZ c < 0x80 → RuneCountInString (String c w) = 1 + RuneCountInString w.
Proof.
  intros Hc. unfold RuneCountInString, runes.
  rewrite decodeAll_ascii_cons by done. rewrite fmap_cons, length_cons. lia.
Qed.

Lemma runeCount_app_ascii (s : string) (c : ascii) (w : string) :
  byteZ c < 0x80 →
  RuneCountInString (s +:+ String c w)
  = RuneCountInString s + 1 + RuneCountInString w.
Proof.
  intros Hc. unfold RuneCountInString, runes.
  rewrite decodeAll_app_ascii by done.
  rewrite !length_fmap, length_app, length_cons. lia.
Qed.

Lemma runeCount_nonneg (s : string) : 0 <= RuneCountInString s.
Proof. unfold RuneCountInString. lia. Qed.

Lemma space_ascii : byteZ " " < 0x80.
Proof. done. Qed.

Lemma runeCount_spaces (n : nat) :
  RuneCountInString (Strings.repeatNat " " n) = Z.of_nat n.
Proof.
  induction n as [|n IH]; [done |].
  change (Strings.repeatNat " " (S n)) with (String " "%char (Strings.repeatNat " " n)).
  rewrite runeCount_ascii_cons by apply space_ascii. lia.
Qed.

Lemma runeCount_spaces_app (n : nat) (s : string) :
  RuneCountInString (Strings.repeatNat " " n +:+ s)
  = Z.of_nat n + RuneCountInString s.
Proof.
  induction n as [|n IH]; [simpl; lia |].
  change (Strings.repeatNat " " (S n) +:+ s)
    with (String " "%char (Strings.repeatNat " " n +:+ s)).
  rewrite runeCount_ascii_cons by apply space_ascii. lia.
Qed.

Lemma runeCount_app_spaces (s : string) (n : nat) :
  RuneCountInString (s +:+ Strings.repeatNat " " n)
  = RuneCountInString s + Z.of_nat n.
Proof.
  destruct n as [|n]; [simpl; rewrite string_app_nil_r; lia |].
  change (Strings.repeatNat " " (S n)) with (String " "%char (Strings.repeatNat " " n)).
  rewrite runeCount_app_ascii by apply space_ascii.
  rewrite runeCount_spaces. lia.
Qed.

(** The display width of content between two runs of spaces. *)
Lemma runeCount_padded (a b : nat) (s : string) :
  RuneCountInString (Strings.repeatNat " " a +:+ s +:+ Strings.repeatNat " " b)
  = Z.of_nat a + RuneCountInString s + Z.of_nat b.
Proof. rewrite runeCount_spaces_app, runeCount_app_spaces. lia. Qed.

End Utf8Facts.

(** ** UTF-8: encoding what was decoded *)

Section Utf8RoundTrip.
Import Utf8.

(** Goals on quotients and remainders by a power of two. *)
Ltac by_euclid := Z.div_mod_to_equations; lia.

Lemma lor_mul_pow2 (a b n : Z) :
  0 <= n → 0 <= b < 2 ^ n → Z.lor (a * 2 ^ n) b = a * 2 ^ n + b.
Proof.
  intros Hn Hb.
  assert (Hland : Z.land (a * 2 ^ n) b = 0).
  { apply Z.bits_inj'. intros m Hm.
    rewrite Z.land_spec, Z.bits_0.
    destruct (Z.lt_ge_cases m n) as [Hlt | Hge].
    - by rewrite Z.mul_pow2_bits_low.
    - rewrite <- (Z.mod_small b (2 ^ n)) by lia.
      rewrite Z.mod_pow2_bits_high by lia. apply andb_false_r. }
  rewrite <- Z.lxor_lor by done. symmetry. by apply Z.add_nocarry_lxor.
Qed.

Lemma land_low (b n m : Z) : 0 <= n → m = Z.ones n → Z.land b m = b mod 2 ^ n.
Proof. intros Hn ->. by apply Z.land_ones. Qed.

(** The value of a marker byte or-ed with the bits below it. *)
Lemma lor_tag (t a n x : Z) :
  0 <= n → t = a * 2 ^ n → 0 <= x < 2 ^ n → Z.lor t x = t + x.
Proof. intros Hn -> Hx. by apply lor_mul_pow2. Qed.

Lemma decode2_value (b0 b1 : Z) :
  0xC2 <= b0 <= 0xDF → 0x80 <= b1 <= 0xBF →
  Z.lor (Z.shiftl (Z.land b0 mask2) 6) (Z.land b1 maskx)
  = (b0 - 0xC0) * 64 + (b1 - 0x80).
Proof.
  intros H0 H1.
  rewrite (land_low b0 5), (land_low b1 6) by done.
  rewrite Z.shiftl_mul_pow2 by lia.
  rewrite lor_mul_pow2; [| lia | apply Z.mod_pos_bound; lia].
  change (2 ^ 5) with 32. change (2 ^ 6) with 64.
  by_euclid.
Qed.

Lemma decode3_value (b0 b1 b2 : Z) :
  0xE0 <= b0 <= 0xEF → 0x80 <= b1 <= 0xBF → 0x80 <= b2 <= 0xBF →
  Z.lor (Z.lor (Z.shiftl (Z.land b0 mask3) 12) (Z.shiftl (Z.land b1 maskx) 6))
        (Z.land b2 maskx)
  = (b0 - 0xE0) * 4096 + (b1 - 0x80) * 64 + (b2 - 0x80).
Proof.
  intros H0 H1 H2.
  rewrite (land_low b0 4), (land_low b1 6), (land_low b2 6) by done.
  rewrite !Z.shiftl_mul_pow2 by lia.
  assert (E0 : b0 mod 2 ^ 4 = b0 - 0xE0).
  { change (2 ^ 4) with 16. by_euclid. }
  assert (E1 : b1 mod 2 ^ 6 = b1 - 0x80).
  { change (2 ^ 6) with 64. by_euclid. }
  assert (E2 : b2 mod 2 ^ 6 = b2 - 0x80).
  { change (2 ^ 6) with 64. by_euclid. }
  rewrite E0, E1, E2.
  rewrite (lor_mul_pow2 _ _ 12) by lia.
  replace ((b0 - 224) * 2 ^ 12 + (b1 - 128) * 2 ^ 6)
    with (((b0 - 224) * 64 + (b1 - 128)) * 2 ^ 6) by lia.
  rewrite lor_mul_pow2 by lia. lia.
Qed.

Lemma decode4_value (b0 b1 b2 b3 : Z) :
  0xF0 <= b0 <= 0xF4 → 0x80 <= b1 <= 0xBF → 0x80 <= b2 <= 0xBF →
  0x80 <= b3 <= 0xBF →
  Z.lor (Z.lor (Z.lor (Z.shiftl (Z.land b0 mask4) 18)
                      (Z.shiftl (Z.land b1 maskx) 12))
               (Z.shiftl (Z.land b2 maskx) 6))
        (Z.land b3 maskx)
  = (b0 - 0xF0) * 262144 + (b1 - 0x80) * 4096 + (b2 - 0x80) * 64 + (b3 - 0x80).
Proof.
  intros H0 H1 H2 H3.
  rewrite (land_low b0 3), (land_low b1 6), (land_low b2 6), (land_low b3 6)
    by done.
  rewrite !Z.shiftl_mul_pow2 by lia.
  assert (E0 : b0 mod 2 ^ 3 = b0 - 0xF0).
  { change (2 ^ 3) with 8. by_euclid. }
  assert (E1 : b1 mod 2 ^ 6 = b1 - 0x80).
  { change (2 ^ 6) with 64. by_euclid. }
  assert (E2 : b2 mod 2 ^ 6 = b2 - 0x80).
  { change (2 ^ 6) with 64. by_euclid. }
  assert (E3 : b3 mod 2 ^ 6 = b3 - 0x80).
  { change (2 ^ 6) with 64. by_euclid. }
  rewrite E0, E1, E2, E3.
  rewrite (lor_mul_pow2 _ _ 18) by lia.
  replace ((b0 - 240) * 2 ^ 18 + (b1 - 128) * 2 ^ 12)
    with (((b0 - 240) * 64 + (b1 - 128)) * 2 ^ 12) by lia.
  rewrite (lor_mul_pow2 _ _ 12) by lia.
  replace (((b0 - 240) * 64 + (b1 - 128)) * 2 ^ 12 + (b2 - 128) * 2 ^ 6)
    with ((((b0 - 240) * 64 + (b1 - 128)) * 64 + (b2 - 128)) * 2 ^ 6) by lia.
  rewrite lor_mul_pow2 by lia. lia.
Qed.

(** A continuation byte: the marker [tx] and six bits. *)
Lemma encode_cont (x b : Z) :
  0x80 <= b <= 0xBF → x mod 64 = b - 0x80 →
  Z.lor tx (Z.land x maskx) = b.
Proof.
  intros Hb Hx. rewrite (land_low x 6) by done.
  change (2 ^ 6) with 64. rewrite Hx.
  rewrite (lor_tag tx 2 6) by (done || lia). unfold tx. lia.
Qed.

Lemma encode_decoded2 (c0 c1 : ascii) :
  0xC2 <= byteZ c0 <= 0xDF → 0x80 <= byteZ c1 <= 0xBF →
  EncodeRune ((byteZ c0 - 0xC0) * 64 + (byteZ c1 - 0x80))
  = String c0 (String c1 "").
Proof.
  intros H0 H1. set (r := (byteZ c0 - 0xC0) * 64 + (byteZ c1 - 0x80)).
  assert (Hr : 0x80 <= r <= 0x7FF) by (unfold r; lia).
  unfold EncodeRune. rewrite Z.mod_small by lia.
  unfold rune1Max, rune2Max.
  destruct (Z.leb_spec r 0x7F); [lia |].
  destruct (Z.leb_spec r 0x7FF); [| lia].
  rewrite Z.shiftr_div_pow2 by lia. change (2 ^ 6) with 64.
  assert (Hd : r / 64 = byteZ c0 - 0xC0).
  { unfold r. by_euclid. }
  assert (Hm : r mod 64 = byteZ c1 - 0x80).
  { unfold r. by_euclid. }
  rewrite Hd, (encode_cont r (byteZ c1)) by done.
  rewrite (lor_tag t2 3 6) by (done || lia).
  f_equal; [| by rewrite toByte_byteZ].
  rewrite <- (toByte_byteZ c0) at 2. f_equal. unfold t2. lia.
Qed.

Lemma encode_decoded3 (c0 c1 c2 : ascii) :
  0xE0 <= byteZ c0 <= 0xEF → 0x80 <= byteZ c1 <= 0xBF →
  (byteZ c0 = 0xE0 → 0xA0 <= byteZ c1) → (byteZ c0 = 0xED → byteZ c1 <= 0x9F) →
  0x80 <= byteZ c2 <= 0xBF →
  EncodeRune ((byteZ c0 - 0xE0) * 4096 + (byteZ c1 - 0x80) * 64 + (byteZ c2 - 0x80))
  = String c0 (String c1 (String c2 "")).
Proof.
  intros H0 H1 HE0 HED H2.
  set (r := (byteZ c0 - 0xE0) * 4096 + (byteZ c1 - 0x80) * 64 + (byteZ c2 - 0x80)).
  assert (Hr : 0x800 <= r <= 0xFFFF ∧ ¬ (0xD800 <= r <= 0xDFFF)) by (unfold r; lia).
  unfold EncodeRune. rewrite Z.mod_small by lia.
  unfold rune1Max, rune2Max, rune3Max, MaxRune, surrogateMin, surrogateMax.
  destruct (Z.leb_spec r 0x7F); [lia |].
  destruct (Z.leb_spec r 0x7FF); [lia |].
  destruct (Z.ltb_spec 0x10FFFF r); [lia |].
  assert (Hs : (0xD800 <=? r) && (r <=? 0xDFFF) = false).
  { destruct (Z.leb_spec 0xD800 r), (Z.leb_spec r 0xDFFF); try done. lia. }
  rewrite Hs. cbn [orb].
  destruct (Z.leb_spec r 0xFFFF); [| lia].
  unfold encode3. rewrite !Z.shiftr_div_pow2 by lia.
  change (2 ^ 6) with 64. change (2 ^ 12) with 4096.
  assert (Hd : r / 4096 = byteZ c0 - 0xE0).
  { unfold r. by_euclid. }
  assert (Hm1 : (r / 64) mod 64 = byteZ c1 - 0x80).
  { unfold r. by_euclid. }
  assert (Hm2 : r mod 64 = byteZ c2 - 0x80).
  { unfold r. by_euclid. }
  rewrite Hd, (encode_cont (r / 64) (byteZ c1)), (encode_cont r (byteZ c2)) by done.
  rewrite (lor_tag t3 14 4) by (done || lia).
  rewrite !toByte_byteZ. f_equal.
  rewrite <- (toByte_byteZ c0) at 2. f_equal. unfold t3. lia.
Qed.

Lemma encode_decoded4 (c0 c1 c2 c3 : ascii) :
  0xF0 <= byteZ c0 <= 0xF4 → 0x80 <= byteZ c1 <= 0xBF →
  (byteZ c0 = 0xF0 → 0x90 <= byteZ c1) → (byteZ c0 = 0xF4 → byteZ c1 <= 0x8F) →
  0x80 <= byteZ c2 <= 0xBF → 0x80 <= byteZ c3 <= 0xBF →
  EncodeRune ((byteZ c0 - 0xF0) * 262144 + (byteZ c1 - 0x80) * 4096
              + (byteZ c2 - 0x80) * 64 + (byteZ c3 - 0x80))
  = String c0 (String c1 (String c2 (String c3 ""))).
Proof.
  intros H0 H1 HF0 HF4 H2 H3.
  set (r := (byteZ c0 - 0xF0) * 262144 + (byteZ c1 - 0x80) * 4096
            + (byteZ c2 - 0x80) * 64 + (byteZ c3 - 0x80)).
  assert (Hr : 0x10000 <= r <= 0x10FFFF) by (unfold r; lia).
  unfold EncodeRune. rewrite Z.mod_small by lia.
  unfold rune1Max, rune2Max, rune3Max, MaxRune, surrogateMin, surrogateMax.
  destruct (Z.leb_spec r 0x7F); [lia |].
  destruct (Z.leb_spec r 0x7FF); [lia |].
  destruct (Z.ltb_spec 0x10FFFF r); [lia |].
  assert (Hs : (0xD800 <=? r) && (r <=? 0xDFFF) = false).
  { destruct (Z.leb_spec 0xD800 r), (Z.leb_spec r 0xDFFF); try done. lia. }
  rewrite Hs. cbn [orb].
  destruct (Z.leb_spec r 0xFFFF); [lia |].
  unfold encode4. rewrite !Z.shiftr_div_pow2 by lia.
  change (2 ^ 6) with 64. change (2 ^ 12) with 4096. change (2 ^ 18) with 262144.
  assert (Hd : r / 262144 = byteZ c0 - 0xF0).
  { unfold r. by_euclid. }
  assert (Hm1 : (r / 4096) mod 64 = byteZ c1 - 0x80).
  { unfold r. by_euclid. }
  assert (Hm2 : (r / 64) mod 64 = byteZ c2 - 0x80).
  { unfold r. by_euclid. }
  assert (Hm3 : r mod 64 = byteZ c3 - 0x80).
  { unfold r. by_euclid. }
  rewrite Hd, (encode_cont (r / 4096) (byteZ c1)),
    (encode_cont (r / 64) (byteZ c2)), (encode_cont r (byteZ c3)) by done.
  rewrite (lor_tag t4 30 3) by (done || lia).
  rewrite !toByte_byteZ. f_equal.
  rewrite <- (toByte_byteZ c0) at 2. f_equal. unfold t4. lia.
Qed.

Lemma encode_ascii (c : ascii) :
  byteZ c < 0x80 → EncodeRune (byteZ c) = String c "".
Proof.
  intros Hc. pose proof (byteZ_range c).
  unfold EncodeRune. rewrite Z.mod_small by lia.
  unfold rune1Max. destruct (Z.leb_spec (byteZ c) 0x7F); [| lia].
  by rewrite toByte_byteZ.
Qed.

(** What [first] says of a leading byte, as bounds. *)
Lemma first_lead_bounds (b : Z) (sz : nat) (lo hi : Z) :
  first b = FirstLead sz lo hi →
  0x80 <= lo ∧ hi <= 0xBF
  ∧ ((sz = 2%nat ∧ 0xC2 <= b <= 0xDF)
     ∨ (sz = 3%nat ∧ 0xE0 <= b <= 0xEF
        ∧ (b = 0xE0 → lo = 0xA0) ∧ (b = 0xED → hi = 0x9F))
     ∨ (sz = 4%nat ∧ 0xF0 <= b <= 0xF4
        ∧ (b = 0xF0 → lo = 0x90) ∧ (b = 0xF4 → hi = 0x8F))).
Proof.
  unfold first, locb, hicb.
  repeat (case_match; [intros [= <- <- <-] || intros [=]; lia |]).
  intros [=].
Qed.

Lemma range_test (x lo hi : Z) :
  (x <? lo) || (hi <? x) = false → lo <= x <= hi.
Proof. intros Ht. apply orb_false_iff in Ht as [? ?]. lia. Qed.

(** A well-formed sequence is the encoding of the rune it decodes to. *)
Lemma encode_decoded (c : ascii) (r : string) :
  wellFormed (DecodeRuneInString (String c r)) = true →
  ∃ rest,
    String c r = EncodeRune (DecodeRuneInString (String c r)).1 +:+ rest
    ∧ String.length (EncodeRune (DecodeRuneInString (String c r)).1)
      = (DecodeRuneInString (String c r)).2.
Proof.
  rewrite decode_noLen. unfold decodeNoLen.
  pose proof (byteZ_range c) as Hc.
  destruct (first (byteZ c)) as [| |sz lo hi] eqn:Hf.
  - intros _. exists r. unfold first in Hf.
    destruct (Z.ltb_spec (byteZ c) 0x80); [| by repeat case_match].
    cbn [fst snd]. by rewrite encode_ascii.
  - done.
  - apply first_lead_bounds in Hf as (Hlo & Hhi & Hcases).
    destruct r as [|c1 r1]; [done |].
    destruct ((byteZ c1 <? lo) || (hi <? byteZ c1)) eqn:H1; [done |].
    apply range_test in H1.
    destruct Hcases as [[-> H0] | [(-> & H0 & HE0 & HED) | (-> & H0 & HF0 & HF4)]].
    + intros _. cbn [Nat.leb fst snd]. exists r1.
      rewrite decode2_value by (done || lia).
      rewrite encode_decoded2 by (done || lia). done.
    + cbn [Nat.leb]. destruct r1 as [|c2 r2]; [done |].
      destruct ((byteZ c2 <? locb) || (hicb <? byteZ c2)) eqn:H2; [done |].
      apply range_test in H2. unfold locb, hicb in H2.
      intros _. cbn [fst snd]. exists r2.
      rewrite decode3_value by (done || lia).
      rewrite encode_decoded3 by (done || lia). done.
    + cbn [Nat.leb]. destruct r1 as [|c2 r2]; [done |].
      destruct ((byteZ c2 <? locb) || (hicb <? byteZ c2)) eqn:H2; [done |].
      apply range_test in H2. unfold locb, hicb in H2.
      destruct r2 as [|c3 r3]; [done |].
      destruct ((byteZ c3 <? locb) || (hicb <? byteZ c3)) eqn:H3; [done |].
      apply range_test in H3. unfold locb, hicb in H3.
      intros _. cbn [fst snd]. exists r3.
      rewrite decode4_value by (done || lia).
      rewrite encode_decoded4 by (done || lia). done.
Qed.

Lemma decodeFrom_skip (a b : string) :
  decodeFrom (String.length a) (a +:+ b) = decodeFrom 0 b.
Proof. induction a as [|c a IH]; [done | exact IH]. Qed.

Lemma encodeRunes_cons (r : Z) (rs : list Z) :
  encodeRunes (r :: rs) = EncodeRune r +:+ encodeRunes rs.
Proof. done. Qed.

Lemma EncodeRune_nonempty (r : Z) : EncodeRune r ≠ "".
Proof. unfold EncodeRune, encode3, encode4. by repeat case_match. Qed.

(** The iteration over a well-formed string, written back rune by rune,
    gives the string. *)
Lemma encodeRunes_valid_bounded (n : nat) (s : string) :
  (String.length s <= n)%nat → ValidString s = true →
  encodeRunes (runes s) = s.
Proof.
  revert s. induction n as [|n IH]; intros s Hlen Hvalid.
  - destruct s; [done | simpl in Hlen; lia].
  - destruct s as [|c r]; [done |].
    unfold ValidString, runes, decodeAll in *.
    change (decodeFrom 0 (String c r))
      with (DecodeRuneInString (String c r)
            :: decodeFrom ((DecodeRuneInString (String c r)).2 - 1) r) in *.
    cbn [forallb] in Hvalid. apply andb_true_iff in Hvalid as [Hwf Hrest].
    destruct (encode_decoded c r Hwf) as (rest & Hsplit & Hwidth).
    set (d := DecodeRuneInString (String c r)) in *.
    destruct (EncodeRune d.1) as [|e0 e] eqn:He;
      [by apply EncodeRune_nonempty in He |].
    cbn [String.append] in Hsplit. injection Hsplit as -> ->.
    cbn [String.length] in Hwidth. rewrite <- Hwidth in *.
    replace (S (String.length e) - 1)%nat with (String.length e) in * by lia.
    rewrite decodeFrom_skip in *.
    rewrite fmap_cons, encodeRunes_cons, He.
    cbn [String.append]. f_equal. f_equal.
    apply IH; [| done].
    cbn [String.length] in Hlen. rewrite string_length_app in Hlen. lia.
Qed.

Lemma encodeRunes_valid (s : string) :
  ValidString s = true → encodeRunes (runes s) = s.
Proof. by apply (encodeRunes_valid_bounded (String.length s)). Qed.

(** Validity splits at an ASCII byte. *)
Lemma ValidString_app_ascii (a : string) (c : ascii) (w : string) :
  byteZ c < 0x80 →
  ValidString (a +:+ String c w) = ValidString a && ValidString w.
Proof.
  intros Hc. unfold ValidString.
  rewrite decodeAll_app_ascii by done.
  rewrite forallb_app. cbn [forallb]. f_equal.
  unfold wellFormed. cbn [fst snd]. unfold RuneError.
  destruct (Z.eqb_spec (byteZ c) 65533); [lia | done].
Qed.

Lemma ValidString_ascii_cons (c : ascii) (w : string) :
  byteZ c < 0x80 → ValidString (String c w) = ValidString w.
Proof. intros Hc. exact (ValidString_app_ascii "" c w Hc). Qed.

End Utf8RoundTrip.

(** ** Column widths *)

Section ColumnWidths.
Import Tables.

(** The first loop stores the display length of every header. *)
Lemma seed_widths (f : string → Z) (hs : list string) (i : nat) (cw : list Z) :
  length cw = (i + length hs)%nat →
  forRange (λ cw i header, <[i := f header]> cw) i hs cw = take i cw ++ (f <$> hs).
Proof.
  revert i cw. induction hs as [|h hs IH]; intros i cw Hlen; simpl in *.
  - rewrite app_nil_r, take_ge; [done | lia].
  - rewrite IH by (rewrite length_insert; lia).
    rewrite take_insert_lt by lia.
    destruct (lookup_lt_is_Some_2 cw i) as [x Hx]; [lia |].
    rewrite (take_S_r _ _ x) by done.
    rewrite insert_app_r_alt by (rewrite length_take; lia).
    rewrite length_take, Nat.min_l, Nat.sub_diag by lia. simpl.
    by rewrite <- app_assoc.
Qed.

(** The last loop adds the padding to every width. *)
Lemma pad_widths (xs : list Z) (i : nat) (cw : list Z) :
  length cw = (i + length xs)%nat →
  forRange (λ (cw : list Z) i (_ : Z), <[i := cw !!! i + 2]> cw) i xs cw
  = take i cw ++ ((λ w, w + 2) <$> drop i cw).
Proof.
  revert i cw. induction xs as [|x xs IH]; intros i cw Hlen; simpl in *.
  - rewrite drop_ge by lia. by rewrite app_nil_r, take_ge by lia.
  - rewrite IH by (rewrite length_insert; lia).
    destruct (lookup_lt_is_Some_2 cw i) as [w Hw]; [lia |].
    rewrite (list_lookup_total_correct _ _ _ Hw).
    rewrite take_insert_lt by lia.
    rewrite (take_S_r _ _ w) by done.
    rewrite insert_app_r_alt by (rewrite length_take; lia).
    rewrite length_take, Nat.min_l, Nat.sub_diag by lia. simpl.
    rewrite drop_insert_lt by lia.
    rewrite (drop_S _ _ _ Hw). simpl. by rewrite <- app_assoc.
Qed.

Lemma raiseWidth_length cw i cell : length (raiseWidth cw i cell) = length cw.
Proof.
  unfold raiseWidth. repeat case_match; rewrite ?length_insert; done.
Qed.

Lemma raiseWidth_lookup cw i cell j w :
  cw !! j = Some w →
  raiseWidth cw i cell !! j
  = Some (if decide (i = j) then Z.max w (getDisplayLength cell) else w).
Proof.
  intros Hj. unfold raiseWidth.
  pose proof (lookup_lt_Some _ _ _ Hj) as Hlt.
  destruct (decide (i = j)) as [-> | Hne].
  - destruct (Nat.ltb_spec j (length cw)); [| lia].
    rewrite (list_lookup_total_correct _ _ _ Hj).
    destruct (Z.ltb_spec w (getDisplayLength cell)).
    + rewrite list_lookup_insert_eq by done. f_equal. lia.
    + rewrite Hj. f_equal. lia.
  - repeat case_match; rewrite ?list_lookup_insert_ne; done.
Qed.

Lemma row_widths_length (row : list string) (j : nat) (cw : list Z) :
  length (forRange raiseWidth j row cw) = length cw.
Proof.
  revert j cw. induction row as [|c row IH]; intros j cw; simpl; [done |].
  by rewrite IH, raiseWidth_length.
Qed.

Lemma row_widths_lookup (row : list string) (j : nat) (cw : list Z) (i : nat) (w : Z) :
  cw !! i = Some w →
  forRange raiseWidth j row cw !! i
  = Some (match (if decide (j ≤ i)%nat then row !! (i - j)%nat else None) with
          | Some c => Z.max w (getDisplayLength c)
          | None => w
          end).
Proof.
  revert j cw w. induction row as [|c row IH]; intros j cw w Hi; simpl.
  - by case_decide.
  - erewrite IH by (by apply raiseWidth_lookup).
    f_equal. destruct (decide (j = i)) as [-> | Hne].
    + rewrite decide_False by lia. rewrite decide_True by lia.
      by rewrite Nat.sub_diag.
    + destruct (decide (S j ≤ i)%nat).
      * rewrite decide_True by lia.
        replace (i - j)%nat with (S (i - S j)) by lia. done.
      * rewrite decide_False by lia. done.
Qed.

Lemma columnCells_cons (row : list string) (rows : list (list string)) (i : nat) :
  Spec.columnCells (row :: rows) i
  = match row !! i with
    | Some c => c :: Spec.columnCells rows i
    | None => Spec.columnCells rows i
    end.
Proof. done. Qed.

Lemma rows_widths_length (rows : list (list string)) (k : nat) (cw : list Z) :
  length (forRange (λ cw (_ : nat) row, forRange raiseWidth 0 row cw) k rows cw)
  = length cw.
Proof.
  revert k cw. induction rows as [|row rows IH]; intros k cw; simpl; [done |].
  by rewrite IH, row_widths_length.
Qed.

Lemma rows_widths_lookup (rows : list (list string)) (k : nat) (cw : list Z)
    (i : nat) (w : Z) :
  cw !! i = Some w →
  forRange (λ cw (_ : nat) row, forRange raiseWidth 0 row cw) k rows cw !! i
  = Some (foldl Z.max w (getDisplayLength <$> Spec.columnCells rows i)).
Proof.
  revert k cw w. induction rows as [|row rows IH]; intros k cw w Hi;
    cbn [forRange].
  - done.
  - erewrite IH by (by apply row_widths_lookup).
    f_equal. rewrite decide_True by lia. rewrite Nat.sub_0_r.
    rewrite columnCells_cons. destruct (row !! i); done.
Qed.

Lemma calculateColumnWidths_unfold (config : TableConfig) :
  calculateColumnWidths config
  = (λ w, w + 2) <$>
      forRange (λ cw (_ : nat) row, forRange raiseWidth 0 row cw) 0 (Rows config)
        (getDisplayLength <$> Headers config).
Proof.
  unfold calculateColumnWidths.
  destruct (Nat.eqb_spec (length (Headers config)) 0) as [H0 | Hn].
  - apply nil_length_inv in H0. rewrite H0. simpl.
    assert (Hl := rows_widths_length (Rows config) 0 []).
    apply nil_length_inv in Hl. by rewrite Hl.
  - rewrite seed_widths by (rewrite length_replicate; lia).
    rewrite take_0, app_nil_l.
    rewrite pad_widths by lia. by rewrite take_0, drop_0.
Qed.

Lemma calculateColumnWidths_length (config : TableConfig) :
  length (calculateColumnWidths config) = length (Headers config).
Proof.
  rewrite calculateColumnWidths_unfold.
  by rewrite length_fmap, rows_widths_length, length_fmap.
Qed.

Lemma calculateColumnWidths_lookup (config : TableConfig) (i : nat) (h : string) :
  Headers config !! i = Some h →
  calculateColumnWidths config !! i
  = Some (2 + Spec.maxDisplayLength h (Spec.columnCells (Rows config) i)).
Proof.
  intros Hh. rewrite calculateColumnWidths_unfold, list_lookup_fmap.
  erewrite rows_widths_lookup by (by rewrite list_lookup_fmap, Hh).
  simpl. unfold Spec.maxDisplayLength. f_equal. lia.
Qed.

Lemma foldl_max_ge_init (w : Z) (l : list Z) : w <= foldl Z.max w l.
Proof.
  revert w. induction l as [|x l IH]; intros w; simpl; [lia |].
  specialize (IH (Z.max w x)). lia.
Qed.

Lemma foldl_max_ge_elem (w x : Z) (l : list Z) : x ∈ l → x <= foldl Z.max w l.
Proof.
  revert w. induction l as [|y l IH]; intros w Hx; simpl.
  - by apply elem_of_nil in Hx.
  - apply elem_of_cons in Hx as [-> | Hx].
    + pose proof (foldl_max_ge_init (Z.max w y) l). lia.
    + by apply IH.
Qed.

(** Every width is at least the padding: the counts [Render] passes to
    [strings.Repeat] are not negative. *)
Lemma calculateColumnWidths_ge_2 (config : TableConfig) :
  Forall (λ w, 2 <= w) (calculateColumnWidths config).
Proof.
  apply Forall_lookup. intros i w Hw.
  assert (is_Some (Headers config !! i)) as [h Hh].
  { apply lookup_lt_is_Some. rewrite <- calculateColumnWidths_length.
    by apply lookup_lt_Some in Hw. }
  rewrite (calculateColumnWidths_lookup config i h Hh) in Hw.
  injection Hw as <-. unfold Spec.maxDisplayLength.
  pose proof (foldl_max_ge_init (getDisplayLength h)
    (getDisplayLength <$> Spec.columnCells (Rows config) i)).
  pose proof (runeCount_nonneg (cleanText h)).
  unfold getDisplayLength in *. lia.
Qed.


Lemma columnCells_take (rows : list (list string)) (n i : nat) :
  (i < n)%nat → Spec.columnCells (take n <$> rows) i = Spec.columnCells rows i.
Proof.
  intros Hi. induction rows as [|row rows IH]; [done |].
  rewrite fmap_cons, !columnCells_cons, IH.
  by rewrite lookup_take_lt by done.
Qed.

Lemma columnCells_elem (rows : list (list string)) (row : list string)
    (i : nat) (cell : string) :
  row ∈ rows → row !! i = Some cell → cell ∈ Spec.columnCells rows i.
Proof.
  intros Hrow Hcell. unfold Spec.columnCells.
  apply list_elem_of_omap. by exists row.
Qed.

(** The widths only depend on the cells within the header range. *)
Lemma calculateColumnWidths_take (config : TableConfig) (rows' : list (list string)) :
  take (length (Headers config)) <$> rows'
  = take (length (Headers config)) <$> Rows config →
  calculateColumnWidths (Spec.withRows config rows') = calculateColumnWidths config.
Proof.
  intros Hrows. apply list_eq. intros i.
  destruct (Headers config !! i) as [h|] eqn:Hh.
  - rewrite (calculateColumnWidths_lookup config i h Hh).
    rewrite (calculateColumnWidths_lookup (Spec.withRows config rows') i h Hh).
    simpl. pose proof (lookup_lt_Some _ _ _ Hh) as Hlt.
    rewrite <- (columnCells_take rows' _ i Hlt), Hrows.
    by rewrite columnCells_take.
  - apply lookup_ge_None in Hh.
    rewrite !lookup_ge_None_2; [done | |];
      rewrite calculateColumnWidths_length; done.
Qed.


End ColumnWidths.

(** ** Cell formatting *)

Section CellFormat.
Import Tables Strings.

(** The three arms of [formatCellContent], on the effective width. *)
Lemma formatCellContent_center (content : string) (W : Z) :
  let L := getDisplayLength content in
  let E := Z.max W (L + 2) in
  formatCellContent content W AlignCenter
  = Repeat " " ((E - L) / 2) +:+ cleanText content +:+ Repeat " " ((E - L + 1) / 2).
Proof.
  intros L E. unfold formatCellContent. fold L.
  change (String.eqb AlignCenter AlignCenter) with true. cbv iota.
  assert (HE : (if W <? L + 2 then L + 2 else W) = E).
  { unfold E. destruct (Z.ltb_spec W (L + 2)); lia. }
  rewrite HE. cbv zeta.
  assert (Hq : (E - L) `quot` 2 = (E - L) / 2).
  { apply Z.quot_div_nonneg; lia. }
  rewrite Hq. do 3 f_equal.
  pose proof (Z.div_mod (E - L) 2 ltac:(lia)).
  pose proof (Z.mod_pos_bound (E - L) 2 ltac:(lia)).
  pose proof (Z.div_mod (E - L + 1) 2 ltac:(lia)).
  pose proof (Z.mod_pos_bound (E - L + 1) 2 ltac:(lia)).
  lia.
Qed.

Lemma formatCellContent_right (content : string) (W : Z) :
  let L := getDisplayLength content in
  let E := Z.max W (L + 2) in
  formatCellContent content W AlignRight
  = Repeat " " (E - L - 1) +:+ cleanText content +:+ Repeat " " 1.
Proof.
  intros L E. unfold formatCellContent. fold L.
  change (String.eqb AlignRight AlignCenter) with false.
  change (String.eqb AlignRight AlignRight) with true. cbv iota.
  assert (HE : (if W <? L + 2 then L + 2 else W) = E).
  { unfold E. destruct (Z.ltb_spec W (L + 2)); lia. }
  by rewrite HE.
Qed.

Lemma formatCellContent_left (content : string) (W : Z) (alignment : AlignmentType) :
  let L := getDisplayLength content in
  let E := Z.max W (L + 2) in
  alignment ≠ AlignCenter → alignment ≠ AlignRight →
  formatCellContent content W alignment
  = Repeat " " 1 +:+ cleanText content +:+ Repeat " " (E - L - 1).
Proof.
  intros L E Hc Hr. unfold formatCellContent. fold L.
  apply String.eqb_neq in Hc, Hr. rewrite Hc, Hr.
  assert (HE : (if W <? L + 2 then L + 2 else W) = E).
  { unfold E. destruct (Z.ltb_spec W (L + 2)); lia. }
  by rewrite HE.
Qed.

Lemma cell_padding_facts (content : string) (W : Z) :
  let L := getDisplayLength content in
  let E := Z.max W (L + 2) in
  L + 2 <= E
  ∧ (1 <= (E - L) / 2 ∧ 1 <= (E - L + 1) / 2
     ∧ (E - L) / 2 + (E - L + 1) / 2 = E - L
     ∧ (E - L) / 2 <= (E - L + 1) / 2 <= (E - L) / 2 + 1).
Proof.
  intros L E.
  assert (HE : L + 2 <= E) by (unfold E; lia).
  pose proof (Z.div_mod (E - L) 2 ltac:(lia)).
  pose proof (Z.mod_pos_bound (E - L) 2 ltac:(lia)).
  pose proof (Z.div_mod (E - L + 1) 2 ltac:(lia)).
  pose proof (Z.mod_pos_bound (E - L + 1) 2 ltac:(lia)).
  lia.
Qed.


(** Every formatted cell is its stripped content between two non-empty
    runs of spaces that fill the effective width. *)
Lemma formatCellContent_shape (content : string) (W : Z) (alignment : AlignmentType) :
  ∃ lead trail : nat,
    (1 <= lead)%nat ∧ (1 <= trail)%nat
    ∧ formatCellContent content W alignment
      = repeatNat " " lead +:+ cleanText content +:+ repeatNat " " trail
    ∧ Z.of_nat lead + getDisplayLength content + Z.of_nat trail
      = Z.max W (getDisplayLength content + 2).
Proof.
  destruct (cell_padding_facts content W) as (HE & Hdiv).
  set (L := getDisplayLength content) in *.
  set (E := Z.max W (L + 2)) in *.
  destruct (String.eqb_spec alignment AlignCenter) as [-> | Hc];
    [| destruct (String.eqb_spec alignment AlignRight) as [-> | Hr]].
  - exists (Z.to_nat ((E - L) / 2)), (Z.to_nat ((E - L + 1) / 2)).
    split; [lia |]. split; [lia |]. split; [apply formatCellContent_center | lia].
  - exists (Z.to_nat (E - L - 1)), 1%nat.
    split; [lia |]. split; [lia |]. split; [apply formatCellContent_right | lia].
  - exists 1%nat, (Z.to_nat (E - L - 1)).
    split; [lia |]. split; [lia |].
    split; [by apply formatCellContent_left | lia].
Qed.

(** The display width of a formatted cell is the effective width. *)
Lemma formatCellContent_displayWidth (content : string) (W : Z)
    (alignment : AlignmentType) :
  Spec.displayWidth (formatCellContent content W alignment)
  = Z.max W (getDisplayLength content + 2).
Proof.
  destruct (formatCellContent_shape content W alignment)
    as (lead & trail & _ & _ & -> & Hsum).
  unfold Spec.displayWidth. rewrite runeCount_padded.
  exact Hsum.
Qed.

End CellFormat.

(** ** The text grid *)

Section RenderFacts.
Import Tables Strings.
Context `{StringsToLower}.

(** A loop that only appends to the builder appends the concatenation of
    what each iteration writes. *)
Lemma forRange_builder {A : Type} (body : string → nat → A → string)
    (g : nat → A → string) (i : nat) (xs : list A) (res : string) :
  (∀ res i x, body res i x = res +:+ g i x) →
  forRange body i xs res = res +:+ concatStrings (imap (λ k, g (i + k)%nat) xs).
Proof.
  intros Hbody. revert i res.
  induction xs as [|x xs IH]; intros i res; cbn [forRange].
  - simpl. by rewrite string_app_nil_r.
  - rewrite IH, Hbody, imap_cons. cbn [concatStrings foldr].
    rewrite string_app_assoc, Nat.add_0_r. do 3 f_equal.
    apply imap_ext. intros k y _. simpl. f_equal. lia.
Qed.

Lemma concatStrings_app (l1 l2 : list string) :
  concatStrings (l1 ++ l2) = concatStrings l1 +:+ concatStrings l2.
Proof.
  induction l1 as [|x l1 IH]; simpl; [done |].
  by rewrite IH, string_app_assoc.
Qed.

Lemma concatStrings_imap_nil {A : Type} (f : nat → A → string) (l : list A) :
  (∀ k y, l !! k = Some y → f k y = "") → concatStrings (imap f l) = "".
Proof.
  revert f. induction l as [|a l IH]; intros f Hf; [done |].
  rewrite imap_cons. cbn [concatStrings foldr].
  rewrite (Hf 0%nat a) by done. simpl. apply IH.
  intros k y Hk. by apply (Hf (S k)).
Qed.

Lemma writeRulers_builder (r : ASCIITableRenderer) (join : string)
    (colWidths : list Z) (res : string) :
  writeRulers r join colWidths res
  = res +:+ writeRulers r join colWidths "".
Proof.
  unfold writeRulers.
  rewrite !(forRange_builder _ (Spec.rulerPiece r join (length colWidths))); [done | |];
    intros res' i x; unfold Spec.rulerPiece; case_match;
    by rewrite ?string_app_assoc, ?string_app_nil_r.
Qed.

Lemma rowLine_concat (v : string) (cells : list string) :
  Spec.rowLine v cells = v +:+ concatStrings ((λ c, c +:+ v) <$> cells).
Proof.
  unfold Spec.rowLine. f_equal.
  induction cells as [|c cells IH]; simpl; [done | by rewrite IH].
Qed.

Lemma writeHeaderRow_builder (r : ASCIITableRenderer) (config : TableConfig)
    (colWidths : list Z) (res : string) :
  writeHeaderRow r config colWidths res
  = res +:+ concatStrings
              (Vertical (Style r) :: imap (Spec.cellPiece r config colWidths) (Headers config)).
Proof.
  unfold writeHeaderRow.
  rewrite (forRange_builder _ (Spec.cellPiece r config colWidths)) by done.
  cbn [concatStrings foldr]. by rewrite string_app_assoc.
Qed.

Lemma writeDataRow_builder (r : ASCIITableRenderer) (config : TableConfig)
    (colWidths : list Z) (row : list string) (res : string) :
  writeDataRow r config colWidths row res
  = res +:+ concatStrings
              (Vertical (Style r)
               :: imap (Spec.cellPiece r config colWidths) (take (length colWidths) row)).
Proof.
  unfold writeDataRow.
  rewrite (forRange_builder _
    (λ i cell, if Nat.ltb i (length colWidths)
               then Spec.cellPiece r config colWidths i cell else ""));
    [| intros res' i x; case_match; by rewrite ?string_app_nil_r].
  cbn [concatStrings foldr]. rewrite string_app_assoc. do 2 f_equal.
  rewrite <- (take_drop (length colWidths) row) at 1.
  rewrite imap_app, concatStrings_app.
  destruct (decide (length colWidths <= length row)%nat) as [Hle | Hgt].
  - rewrite (concatStrings_imap_nil _ (drop (length colWidths) row)).
    2:{ intros k y _. simpl. rewrite length_take.
        destruct (Nat.ltb_spec (length colWidths `min` length row + k)
                    (length colWidths)); [lia | done]. }
    rewrite string_app_nil_r. f_equal. apply imap_ext.
    intros k y Hk. simpl.
    apply lookup_lt_Some in Hk. rewrite length_take in Hk.
    destruct (Nat.ltb_spec k (length colWidths)); [done | lia].
  - rewrite drop_ge by lia. simpl. rewrite string_app_nil_r.
    f_equal. apply imap_ext. intros k y Hk. simpl.
    apply lookup_lt_Some in Hk. rewrite length_take in Hk.
    destruct (Nat.ltb_spec k (length colWidths)); [done | lia].
Qed.

Lemma writeHeaderRow_res (r : ASCIITableRenderer) (config : TableConfig)
    (colWidths : list Z) (res : string) :
  writeHeaderRow r config colWidths res
  = res +:+ writeHeaderRow r config colWidths "".
Proof. by rewrite !(writeHeaderRow_builder r config colWidths). Qed.

Lemma writeDataRow_res (r : ASCIITableRenderer) (config : TableConfig)
    (colWidths : list Z) (row : list string) (res : string) :
  writeDataRow r config colWidths row res
  = res +:+ writeDataRow r config colWidths row "".
Proof. by rewrite !(writeDataRow_builder r config colWidths row). Qed.

Lemma cellPiece_fmap (r : ASCIITableRenderer) (config : TableConfig)
    (colWidths : list Z) (cells : list string) :
  imap (Spec.cellPiece r config colWidths) cells
  = (λ c, c +:+ Vertical (Style r))
      <$> imap (λ i cell, formatCellContent cell (colWidths !!! i)
                            (getColumnAlignment config i)) cells.
Proof. by rewrite fmap_imap. Qed.

(** The header row is the delimiter and the formatted headers, each
    followed by the delimiter. *)
Lemma headerLine_rowLine (r : ASCIITableRenderer) (config : TableConfig) :
  Spec.headerLine r config
  = Spec.rowLine (Vertical (Style r))
      (Spec.formattedCells config (calculateColumnWidths config) (Headers config)).
Proof.
  unfold Spec.headerLine, Spec.formattedCells.
  rewrite writeHeaderRow_builder, rowLine_concat. simpl.
  rewrite calculateColumnWidths_length, take_ge by done.
  by rewrite cellPiece_fmap.
Qed.

(** A data row is the delimiter and its formatted cells within the header
    range, each followed by the delimiter. *)
Lemma dataLine_rowLine (r : ASCIITableRenderer) (config : TableConfig)
    (row : list string) :
  Spec.dataLine r config row
  = Spec.rowLine (Vertical (Style r))
      (Spec.formattedCells config (calculateColumnWidths config) row).
Proof.
  unfold Spec.dataLine, Spec.formattedCells.
  rewrite writeDataRow_builder, rowLine_concat. simpl.
  by rewrite cellPiece_fmap.
Qed.

Lemma unlines_app (l1 l2 : list string) :
  Spec.unlines (l1 ++ l2) = Spec.unlines l1 +:+ Spec.unlines l2.
Proof.
  induction l1 as [|x l1 IH]; simpl; [done |].
  by rewrite IH, !string_app_assoc.
Qed.

Lemma rows_loop (r : ASCIITableRenderer) (config : TableConfig) (total : nat)
    (rows : list (list string)) (i : nat) (res : string) :
  forRange (λ result rowIdx row,
      let result := writeDataRow r config (calculateColumnWidths config) row result in
      let result := result +:+ newline in
      if Z.of_nat rowIdx <? Z.of_nat total - 1 then
        let result := result +:+ LeftJoin (Style r) in
        let result :=
          writeRulers r (Cross (Style r)) (calculateColumnWidths config) result in
        result +:+ (RightJoin (Style r) +:+ newline)
      else result) i rows res
  = res +:+ Spec.unlines (Spec.dataLines r config total i rows).
Proof.
  revert i res. induction rows as [|row rows IH]; intros i res;
    cbn [forRange Spec.dataLines].
  - simpl. by rewrite string_app_nil_r.
  - rewrite IH. cbv zeta.
    rewrite writeDataRow_res.
    change (Spec.dataLine r config row
            :: (if Z.of_nat i <? Z.of_nat total - 1
                then [Spec.separatorLine r config] else [])
               ++ Spec.dataLines r config total (S i) rows)
      with ([Spec.dataLine r config row]
            ++ (if Z.of_nat i <? Z.of_nat total - 1
                then [Spec.separatorLine r config] else [])
            ++ Spec.dataLines r config total (S i) rows).
    rewrite !unlines_app.
    destruct (Z.of_nat i <? Z.of_nat total - 1).
    + rewrite writeRulers_builder.
      unfold Spec.separatorLine, Spec.borderLine, Spec.dataLine. simpl.
      by rewrite !string_app_assoc, ?string_app_nil_r.
    + unfold Spec.dataLine. simpl.
      by rewrite !string_app_assoc, ?string_app_nil_r.
Qed.

(** The rendered text is the sequence of the lines of the grid. *)
Lemma Render_lines (r : ASCIITableRenderer) (config : TableConfig) :
  Render r config
  = if Nat.eqb (length (Rows config)) 0 || Nat.eqb (length (Headers config)) 0
    then "" else Spec.unlines (Spec.renderLines r config).
Proof.
  unfold Render.
  destruct (Nat.eqb (length (Rows config)) 0 || Nat.eqb (length (Headers config)) 0);
    [done |].
  cbv zeta. rewrite rows_loop.
  rewrite writeHeaderRow_res.
  rewrite !(writeRulers_builder r _ _ (_ +:+ _)).
  unfold Spec.renderLines. cbv zeta.
  rewrite unlines_app, unlines_app.
  unfold Spec.separatorLine, Spec.borderLine, Spec.headerLine. simpl.
  by rewrite !string_app_assoc, ?string_app_nil_r.
Qed.

End RenderFacts.

(** ** Counting a delimiter *)

Section Occurrences.
Import Strings.

Lemma prefix_cons (a b : ascii) (s1 s2 : string) :
  String.prefix (String a s1) (String b s2)
  = if Ascii.eqb a b then String.prefix s1 s2 else false.
Proof.
  cbn [String.prefix]. destruct (ascii_dec a b) as [-> | Hne].
  - by rewrite Ascii.eqb_refl.
  - apply Ascii.eqb_neq in Hne. by rewrite Hne.
Qed.

Lemma prefix_nil_l (s : string) : String.prefix "" s = true.
Proof. by destruct s. Qed.

Lemma prefix_length (v s : string) :
  String.prefix v s = true → (String.length v <= String.length s)%nat.
Proof.
  revert s. induction v as [|a v IH]; intros s Hp; [simpl; lia |].
  destruct s as [|b s]; [done |].
  rewrite prefix_cons in Hp. destruct (Ascii.eqb a b); [| done].
  apply IH in Hp. simpl. lia.
Qed.

Lemma prefix_refl (v : string) : String.prefix v v = true.
Proof.
  induction v as [|a v IH]; [done |].
  by rewrite prefix_cons, Ascii.eqb_refl.
Qed.

Lemma prefix_app (v s : string) : String.prefix v (v +:+ s) = true.
Proof.
  induction v as [|a v IH]; [apply prefix_nil_l |].
  cbn [String.append]. by rewrite prefix_cons, Ascii.eqb_refl.
Qed.

(** A prefix test of a string without the byte [c] does not look past an
    occurrence of [c]. *)
Lemma prefix_stop (v x : string) (c : ascii) (b : string) :
  Spec.containsByte c v = false →
  String.prefix v (x +:+ String c b) = String.prefix v x.
Proof.
  revert x. induction v as [|a v IH]; intros x Hv.
  - by rewrite !prefix_nil_l.
  - cbn [Spec.containsByte] in Hv. apply orb_false_iff in Hv as [Hac Hv].
    destruct x as [|y x]; cbn [String.append].
    + by rewrite prefix_cons, Hac.
    + rewrite !prefix_cons. by rewrite IH.
Qed.

Lemma occurrences_nil (v : string) : v ≠ "" → Spec.occurrences v "" = 0%nat.
Proof. intros Hv. destruct v; [done | reflexivity]. Qed.

Lemma occurrences_short (v s : string) :
  (String.length s < String.length v)%nat → Spec.occurrences v s = 0%nat.
Proof.
  induction s as [|b s IH]; intros Hlen.
  - apply occurrences_nil. destruct v; [simpl in Hlen; lia | done].
  - cbn [Spec.occurrences].
    destruct (String.prefix v (String b s)) eqn:Hp.
    + apply prefix_length in Hp. lia.
    + rewrite IH; [done | simpl in Hlen; lia].
Qed.

Lemma occurrences_self (v : string) : v ≠ "" → Spec.occurrences v v = 1%nat.
Proof.
  intros Hv. destruct v as [|a v]; [done |].
  cbn [Spec.occurrences]. rewrite prefix_refl.
  rewrite occurrences_short; [done | simpl; lia].
Qed.

Lemma occurrences_cons_stop (v : string) (c : ascii) (b : string) :
  v ≠ "" → Spec.containsByte c v = false →
  Spec.occurrences v (String c b) = Spec.occurrences v b.
Proof.
  intros Hv Hc. destruct v as [|a v]; [done |].
  cbn [Spec.occurrences]. rewrite prefix_cons.
  cbn [Spec.containsByte] in Hc. apply orb_false_iff in Hc as [-> _]. done.
Qed.

Lemma occurrences_app_stop (v a : string) (c : ascii) (b : string) :
  v ≠ "" → Spec.containsByte c v = false →
  Spec.occurrences v (a +:+ String c b)
  = (Spec.occurrences v a + Spec.occurrences v b)%nat.
Proof.
  intros Hv Hc. induction a as [|y a IH].
  - cbn [String.append]. rewrite occurrences_cons_stop by done.
    by rewrite occurrences_nil.
  - change (String y a +:+ String c b) with (String y (a +:+ String c b)).
    cbn [Spec.occurrences]. rewrite IH.
    change (String y (a +:+ String c b)) with (String y a +:+ String c b).
    rewrite prefix_stop by done. lia.
Qed.

Lemma occurrences_spaces_app (v : string) (n : nat) (s : string) :
  v ≠ "" → Spec.containsByte " " v = false →
  Spec.occurrences v (repeatNat " " n +:+ s) = Spec.occurrences v s.
Proof.
  intros Hv Hc. induction n as [|n IH]; [done |].
  change (repeatNat " " (S n) +:+ s) with (String " "%char (repeatNat " " n +:+ s)).
  by rewrite occurrences_cons_stop.
Qed.

Lemma occurrences_spaces (v : string) (n : nat) :
  v ≠ "" → Spec.containsByte " " v = false →
  Spec.occurrences v (repeatNat " " n) = 0%nat.
Proof.
  intros Hv Hc. rewrite <- (string_app_nil_r (repeatNat " " n)).
  rewrite occurrences_spaces_app by done. by apply occurrences_nil.
Qed.

Lemma spaced_padded (lead trail : nat) (s : string) :
  (1 <= lead)%nat → (1 <= trail)%nat →
  Spec.spaced (repeatNat " " lead +:+ s +:+ repeatNat " " trail).
Proof.
  intros Hl Ht. destruct lead as [|lead]; [lia |].
  destruct trail as [|trail]; [lia |]. split.
  - by eexists.
  - exists (repeatNat " " (S lead) +:+ s +:+ repeatNat " " trail).
    rewrite (repeatNat_snoc " " trail). by rewrite !string_app_assoc.
Qed.

Lemma occurrences_padded (v : string) (lead trail : nat) (s : string) :
  v ≠ "" → Spec.containsByte " " v = false →
  Spec.occurrences v (repeatNat " " lead +:+ s +:+ repeatNat " " trail)
  = Spec.occurrences v s.
Proof.
  intros Hv Hc. rewrite occurrences_spaces_app by done.
  destruct trail as [|trail]; [by rewrite string_app_nil_r |].
  change (repeatNat " " (S trail)) with (String " "%char (repeatNat " " trail)).
  rewrite occurrences_app_stop by done.
  rewrite occurrences_spaces by done. lia.
Qed.

(** A row line of cells that are set between spaces and do not contain the
    delimiter has one delimiter more than it has cells. *)
Lemma occurrences_rowLine (v : string) (cells : list string) :
  v ≠ "" → Spec.containsByte " " v = false →
  Forall (λ c, Spec.spaced c ∧ Spec.occurrences v c = 0%nat) cells →
  Spec.occurrences v (Spec.rowLine v cells) = (length cells + 1)%nat.
Proof.
  intros Hv Hc Hcells. unfold Spec.rowLine.
  induction Hcells as [|c cells [[[x Hx] [y Hy]] H0] _ IH].
  - simpl. rewrite string_app_nil_r. by apply occurrences_self.
  - cbn [foldr length].
    set (T := foldr (λ cell acc, (cell +:+ v) +:+ acc) "" cells) in *.
    assert (Hy0 : Spec.occurrences v y = 0%nat).
    { rewrite Hy in H0.
      rewrite occurrences_app_stop, occurrences_nil in H0 by done. lia. }
    assert (Hmid : Spec.occurrences v ((c +:+ v) +:+ T)
                   = Spec.occurrences v (v +:+ T)).
    { rewrite Hy, !string_app_assoc.
      change (" " +:+ v +:+ T) with (String " "%char (v +:+ T)).
      rewrite occurrences_app_stop by done. lia. }
    rewrite <- Hmid in IH.
    rewrite Hx at 1.
    change ((String " " x +:+ v) +:+ T) with (String " "%char ((x +:+ v) +:+ T)).
    rewrite occurrences_app_stop by done.
    rewrite occurrences_self by done.
    assert (Hsame : Spec.occurrences v ((x +:+ v) +:+ T)
                    = Spec.occurrences v ((c +:+ v) +:+ T)).
    { rewrite Hx.
      change ((String " " x +:+ v) +:+ T) with (String " "%char ((x +:+ v) +:+ T)).
      by rewrite occurrences_cons_stop. }
    rewrite Hsame, Hmid. rewrite Hmid in IH. lia.
Qed.

End Occurrences.

(** ** The rendered grid: degenerate tables, the scenario, column widths *)

Section RenderClaims.
Import Tables Strings.
Context `{StringsToLower}.

(** C7: a table description without rows, or without headers, renders to
    the empty string, of length 0, whatever its other fields and whatever
    the style. *)
Theorem render_of_empty_table (r : ASCIITableRenderer) (type name : string)
    (headers : list string) (rows : list (list string)) (alignment : list string) :
  let noRows := {| Type_ := type; Name := name; Headers := headers;
                   Rows := []; Alignment := alignment |} in
  let noHeaders := {| Type_ := type; Name := name; Headers := [];
                      Rows := rows; Alignment := alignment |} in
  (Render r noRows = "" ∧ len (Render r noRows) = 0)
  ∧ (Render r noHeaders = "" ∧ len (Render r noHeaders) = 0).
Proof.
  intros noRows noHeaders.
  assert (H1 : Render r noRows = "") by done.
  assert (H2 : Render r noHeaders = "").
  { unfold Render, noHeaders. cbn [Rows Headers length].
    by rewrite orb_true_r. }
  rewrite H1, H2. done.
Qed.

(** C4: for headers [A, BB], the row [x, yy], no alignment hints and the
    style "single-line-full", the column widths are 3 and 4 and the text
    has exactly five lines; its header row is "│ A │ BB │" and its data
    row is "│ x │ yy │". *)
Theorem scenario_single_line_full (name : string) :
  ToLower "single-line-full" = "single-line-full" →
  let config := Spec.scenarioConfig name in
  let r := {| Style := singleLineFull |} in
  GetRenderer tableStyles (Type_ config) = inl r
  ∧ calculateColumnWidths config = [3; 4]
  ∧ Spec.linesOf (Render r config)
    = ["┌───┬────┐"; "│ A │ BB │"; "├───┼────┤"; "│ x │ yy │"; "└───┴────┘"]
  ∧ Render r config = Spec.unlines (Spec.renderLines r config)
  ∧ Spec.headerLine r config = "│ A │ BB │"
  ∧ Spec.dataLine r config ["x"; "yy"] = "│ x │ yy │".
Proof.
  intros Hlower config r.
  split.
  { unfold GetRenderer. cbn [Type_ config Spec.scenarioConfig].
    rewrite Hlower. reflexivity. }
  split; [reflexivity |].
  split; [vm_compute; reflexivity |].
  split; [by rewrite Render_lines |].
  split; vm_compute; reflexivity.
Qed.

(** The width of a column leaves room for every cell rendered in it. *)
Lemma column_width_fits (config : TableConfig) (cells : list string)
    (i : nat) (cell : string) (w : Z) :
  cells = Headers config ∨ cells ∈ Rows config →
  cells !! i = Some cell →
  calculateColumnWidths config !! i = Some w →
  getDisplayLength cell + 2 <= w.
Proof.
  intros Hcells Hcell Hw.
  assert (is_Some (Headers config !! i)) as [h Hh].
  { apply lookup_lt_is_Some. rewrite <- calculateColumnWidths_length.
    by apply lookup_lt_Some in Hw. }
  rewrite (calculateColumnWidths_lookup config i h Hh) in Hw.
  injection Hw as <-. unfold Spec.maxDisplayLength.
  destruct Hcells as [-> | Hin].
  - assert (h = cell) as -> by congruence.
    pose proof (foldl_max_ge_init (getDisplayLength cell)
      (getDisplayLength <$> Spec.columnCells (Rows config) i)). lia.
  - assert (Hel : getDisplayLength cell
                   ∈ getDisplayLength <$> Spec.columnCells (Rows config) i).
    { apply list_elem_of_fmap. exists cell. split; [done |].
      by apply (columnCells_elem _ cells). }
    pose proof (foldl_max_ge_elem (getDisplayLength h) _ _ Hel). lia.
Qed.

Lemma formattedCells_lookup (config : TableConfig) (colWidths : list Z)
    (cells : list string) (i : nat) (fc : string) :
  Spec.formattedCells config colWidths cells !! i = Some fc →
  ∃ cell w, cells !! i = Some cell ∧ colWidths !! i = Some w
            ∧ fc = formatCellContent cell w (getColumnAlignment config i).
Proof.
  unfold Spec.formattedCells. rewrite list_lookup_imap.
  destruct (take (length colWidths) cells !! i) as [cell|] eqn:Hcell; [| done].
  intros [= <-].
  apply lookup_take_Some in Hcell as [Hcell Hlt].
  destruct (lookup_lt_is_Some_2 colWidths i Hlt) as [w Hw].
  exists cell, w. by rewrite (list_lookup_total_correct _ _ _ Hw).
Qed.

Lemma formattedCell_width (config : TableConfig) (cells : list string)
    (i : nat) (fc : string) :
  cells = Headers config ∨ cells ∈ Rows config →
  Spec.formattedCells config (calculateColumnWidths config) cells !! i = Some fc →
  calculateColumnWidths config !! i = Some (Spec.displayWidth fc).
Proof.
  intros Hcells Hfc.
  apply formattedCells_lookup in Hfc as (cell & w & Hcell & Hw & ->).
  rewrite formatCellContent_displayWidth.
  pose proof (column_width_fits config cells i cell w Hcells Hcell Hw).
  rewrite Hw. f_equal. lia.
Qed.

(** C5: the header row and every data row are written as the delimiter
    followed by their formatted cells; two formatted cells of the same
    column, headers or data, have the same display width, which is the
    computed width of the column. *)
Theorem cells_of_a_column_share_its_width (r : ASCIITableRenderer)
    (config : TableConfig) (cells1 cells2 : list string) (i : nat)
    (fc1 fc2 : string) :
  cells1 = Headers config ∨ cells1 ∈ Rows config →
  cells2 = Headers config ∨ cells2 ∈ Rows config →
  Spec.formattedCells config (calculateColumnWidths config) cells1 !! i = Some fc1 →
  Spec.formattedCells config (calculateColumnWidths config) cells2 !! i = Some fc2 →
  Spec.displayWidth fc1 = Spec.displayWidth fc2
  ∧ calculateColumnWidths config !! i = Some (Spec.displayWidth fc1)
  ∧ Spec.headerLine r config
    = Spec.rowLine (Vertical (Style r))
        (Spec.formattedCells config (calculateColumnWidths config) (Headers config))
  ∧ (∀ row, Spec.dataLine r config row
            = Spec.rowLine (Vertical (Style r))
                (Spec.formattedCells config (calculateColumnWidths config) row)).
Proof.
  intros Hc1 Hc2 Hf1 Hf2.
  pose proof (formattedCell_width config cells1 i fc1 Hc1 Hf1) as H1.
  pose proof (formattedCell_width config cells2 i fc2 Hc2 Hf2) as H2.
  split; [congruence |]. split; [done |].
  split; [apply headerLine_rowLine | apply dataLine_rowLine].
Qed.

Lemma formattedCells_take (config config' : TableConfig) (colWidths : list Z)
    (cells cells' : list string) :
  Alignment config' = Alignment config →
  take (length colWidths) cells' = take (length colWidths) cells →
  Spec.formattedCells config' colWidths cells'
  = Spec.formattedCells config colWidths cells.
Proof.
  intros Hal Htake. unfold Spec.formattedCells, getColumnAlignment.
  by rewrite Htake, Hal.
Qed.

Lemma dataLines_take (r : ASCIITableRenderer) (config : TableConfig)
    (total : nat) (rows'' rows rows' : list (list string)) (i : nat) :
  take (length (Headers config)) <$> rows'
  = take (length (Headers config)) <$> rows →
  calculateColumnWidths (Spec.withRows config rows'')
  = calculateColumnWidths config →
  Spec.dataLines r (Spec.withRows config rows'') total i rows'
  = Spec.dataLines r config total i rows.
Proof.
  intros Htake Hcw. revert rows' i Htake.
  induction rows as [|row rows IH]; intros rows' i Htake.
  - destruct rows'; [done | by rewrite fmap_cons in Htake].
  - destruct rows' as [|row' rows']; [by rewrite fmap_cons in Htake |].
    rewrite !fmap_cons in Htake. injection Htake as Hrow Hrest.
    cbn [Spec.dataLines]. rewrite (IH rows' (S i) Hrest).
    unfold Spec.separatorLine. rewrite Hcw. f_equal.
    rewrite !dataLine_rowLine. rewrite Hcw.
    f_equal. apply formattedCells_take; [done |].
    by rewrite calculateColumnWidths_length.
Qed.

(** The rendered text only depends on the cells within the header range. *)
Lemma Render_take (r : ASCIITableRenderer) (config : TableConfig)
    (rows' : list (list string)) :
  take (length (Headers config)) <$> rows'
  = take (length (Headers config)) <$> Rows config →
  Render r (Spec.withRows config rows') = Render r config.
Proof.
  intros Htake.
  pose proof (calculateColumnWidths_take config rows' Htake) as Hcw.
  assert (Hlen : length rows' = length (Rows config)).
  { apply (f_equal length) in Htake. by rewrite !length_fmap in Htake. }
  rewrite !Render_lines. cbn [Spec.withRows Rows Headers]. rewrite Hlen.
  destruct (Nat.eqb (length (Rows config)) 0 || Nat.eqb (length (Headers config)) 0);
    [done |].
  f_equal. unfold Spec.renderLines. cbv zeta.
  rewrite Hcw. cbn [Spec.withRows Rows]. rewrite Hlen.
  rewrite (dataLines_take r config _ rows' (Rows config) rows' 0 Htake Hcw).
  unfold Spec.separatorLine. rewrite Hcw.
  do 2 f_equal.
  rewrite !headerLine_rowLine, Hcw. f_equal.
Qed.

(** C9: cells appended to a row only count as far as they fall within the
    header range: the column widths and the rendered text are those of the
    row with the appended cells cut at the header count; appended to a row
    that already has a cell for every header, they change neither the
    column widths nor the rendered text. *)
Theorem extra_cells_are_ignored (r : ASCIITableRenderer) (config : TableConfig)
    (pre post : list (list string)) (row extra : list string) :
  Rows config = pre ++ row :: post →
  let N := length (Headers config) in
  let config' := Spec.withRows config (pre ++ (row ++ extra) :: post) in
  let cut := Spec.withRows config
               (pre ++ (row ++ take (N - length row) extra) :: post) in
  (calculateColumnWidths config' = calculateColumnWidths cut
   ∧ Render r config' = Render r cut)
  ∧ ((N <= length row)%nat →
     calculateColumnWidths config' = calculateColumnWidths config
     ∧ Render r config' = Render r config).
Proof.
  intros Hrows N config' cut. split.
  - assert (Htake : take (length (Headers cut))
                      <$> (pre ++ (row ++ extra) :: post)
                    = take (length (Headers cut)) <$> Rows cut).
    { unfold cut. cbn [Spec.withRows Rows Headers]. fold N.
      rewrite !fmap_app, !fmap_cons. do 2 f_equal.
      rewrite !take_app, take_take. do 2 f_equal. lia. }
    split.
    + exact (calculateColumnWidths_take cut _ Htake).
    + exact (Render_take r cut _ Htake).
  - intros Hlen.
    assert (Htake : take (length (Headers config))
                      <$> (pre ++ (row ++ extra) :: post)
                    = take (length (Headers config)) <$> Rows config).
    { rewrite Hrows, !fmap_app, !fmap_cons. do 2 f_equal.
      by rewrite take_app_le. }
    split; [by apply calculateColumnWidths_take | by apply Render_take].
Qed.

Lemma formattedCells_length (config : TableConfig) (colWidths : list Z)
    (cells : list string) :
  length (Spec.formattedCells config colWidths cells)
  = (length cells `min` length colWidths)%nat.
Proof.
  unfold Spec.formattedCells. rewrite length_imap, length_take. lia.
Qed.

Lemma formattedCells_spaced (v : string) (config : TableConfig)
    (colWidths : list Z) (cells : list string) :
  v ≠ "" → Spec.containsByte " " v = false →
  (∀ cell, cell ∈ cells → Spec.occurrences v (cleanText cell) = 0%nat) →
  Forall (λ c, Spec.spaced c ∧ Spec.occurrences v c = 0%nat)
    (Spec.formattedCells config colWidths cells).
Proof.
  intros Hv Hsp Hclean. apply Forall_forall. intros fc Hfc.
  apply list_elem_of_lookup in Hfc as [i Hi].
  apply formattedCells_lookup in Hi as (cell & w & Hcell & _ & ->).
  destruct (formatCellContent_shape cell w (getColumnAlignment config i))
    as (lead & trail & Hl & Ht & -> & _).
  split; [by apply spaced_padded |].
  rewrite occurrences_padded by done.
  apply Hclean. by apply list_elem_of_lookup_2 in Hcell.
Qed.

(** C1, as the code has it: under a style whose vertical delimiter is not
    empty and has no space, and for cells whose stripped text does not
    contain the delimiter, the header row line of a table with [N >= 1]
    headers and at least one row contains the delimiter exactly [N+1]
    times, and the line of a data row with [k] cells contains it exactly
    [min k N + 1] times: [N+1] times when the row has at least [N] cells. *)
Theorem row_lines_delimiter_count (r : ASCIITableRenderer) (config : TableConfig) :
  let V := Vertical (Style r) in
  let N := length (Headers config) in
  (1 <= N)%nat → (1 <= length (Rows config))%nat →
  V ≠ "" → Spec.containsByte " " V = false →
  (∀ cells cell, cells = Headers config ∨ cells ∈ Rows config →
     cell ∈ cells → Spec.occurrences V (cleanText cell) = 0%nat) →
  Render r config = Spec.unlines (Spec.renderLines r config)
  ∧ Spec.occurrences V (Spec.headerLine r config) = (N + 1)%nat
  ∧ (∀ row, row ∈ Rows config →
       Spec.occurrences V (Spec.dataLine r config row)
       = (length row `min` N + 1)%nat
       ∧ ((N <= length row)%nat →
          Spec.occurrences V (Spec.dataLine r config row) = (N + 1)%nat)).
Proof.
  intros V N HN Hrows HV Hsp Hclean.
  split.
  { rewrite Render_lines.
    destruct (Nat.eqb_spec (length (Rows config)) 0); [lia |].
    destruct (Nat.eqb_spec (length (Headers config)) 0); [unfold N in HN; lia |].
    done. }
  split.
  - rewrite headerLine_rowLine. fold V.
    rewrite occurrences_rowLine; [| done | done |].
    + rewrite formattedCells_length, calculateColumnWidths_length. fold N. lia.
    + apply formattedCells_spaced; [done | done |].
      intros cell Hcell. apply (Hclean (Headers config)); [by left | done].
  - intros row Hrow.
    assert (Hocc : Spec.occurrences V (Spec.dataLine r config row)
                   = (length row `min` N + 1)%nat).
    { rewrite dataLine_rowLine. fold V.
      rewrite occurrences_rowLine; [| done | done |].
      - by rewrite formattedCells_length, calculateColumnWidths_length.
      - apply formattedCells_spaced; [done | done |].
        intros cell Hcell. apply (Hclean row); [by right | done]. }
    split; [done |]. intros Hlen. rewrite Hocc. lia.
Qed.

End RenderClaims.

(** ** The segmenter: characters outside emphasis runs *)

Section Classification.
Import Output Strings.

Lemma len_pos (s : string) : s ≠ "" → (0 <? len s) = true.
Proof.
  intros Hs. destruct s; [done |]. unfold len. cbn [String.length].
  apply Z.ltb_lt. lia.
Qed.

Lemma string_app_nonempty_r (a b : string) : b ≠ "" → a +:+ b ≠ "".
Proof. intros Hb. destruct a; [done | discriminate]. Qed.

Lemma string_app_nonempty_l (a b : string) : a ≠ "" → a +:+ b ≠ "".
Proof. intros Ha. destruct a; [done | discriminate]. Qed.

Lemma charTypeOf_cases (all : string) (char : Z) :
  charTypeOf all char = ASCIIText ∨ charTypeOf all char = ContentText.
Proof. unfold charTypeOf. destruct (ContainsRune all char); [by left | by right]. Qed.

Lemma consRun_head (ty : Z) (t : string) (gs : list (Z * string)) :
  ∃ t' gs', Spec.consRun ty t gs = (ty, t') :: gs'.
Proof.
  unfold Spec.consRun. destruct gs as [|[ty' t'] gs']; [by eexists _, _ |].
  destruct (ty =? ty'); by eexists _, _.
Qed.

Lemma consRun_same (ty : Z) (t e : string) (gs : list (Z * string)) :
  Spec.consRun ty t (Spec.consRun ty e gs) = Spec.consRun ty (t +:+ e) gs.
Proof.
  unfold Spec.consRun. destruct gs as [|[ty' t'] gs'].
  - by rewrite Z.eqb_refl.
  - destruct (ty =? ty') eqn:Heq.
    + by rewrite Z.eqb_refl, string_app_assoc.
    + by rewrite Z.eqb_refl.
Qed.

Lemma consRun_other (ty ty' : Z) (t e : string) (gs : list (Z * string)) :
  ty ≠ ty' →
  Spec.consRun ty t (Spec.consRun ty' e gs) = (ty, t) :: Spec.consRun ty' e gs.
Proof.
  intros Hne. destruct (consRun_head ty' e gs) as (t' & gs' & ->).
  cbn [Spec.consRun]. apply Z.eqb_neq in Hne. by rewrite Hne.
Qed.

(** The state of the loop of [classifyTextSegments] once a character has
    been read: the segments closed so far, and the open run. *)
Lemma classify_loop (all : string) (rs : list Z) (segments : list TextSegment)
    (currentSegment : string) (currentType : Z) :
  currentSegment ≠ "" → currentType ≠ -1 →
  (let '(segments, currentSegment, currentType) :=
     foldl (classifyStep all) (segments, currentSegment, currentType) rs in
   if 0 <? len currentSegment
   then segments ++ [{| Text := currentSegment; Type_ := currentType |}]
   else segments)
  = segments
    ++ (Spec.segmentOfRun
          <$> Spec.consRun currentType currentSegment
                (Spec.runsOf (charTypeOf all) rs)).
Proof.
  revert segments currentSegment currentType.
  induction rs as [|r rs IH]; intros segments cur ty Hcur Hty.
  - cbn [foldl Spec.runsOf Spec.consRun]. by rewrite len_pos.
  - cbn [foldl Spec.runsOf]. unfold classifyStep at 2.
    destruct (Z.eqb_spec ty (-1)) as [? | _]; [done |].
    destruct (Z.eqb_spec (charTypeOf all r) ty) as [Heq | Hne].
    + rewrite IH; [| by apply string_app_nonempty_r, EncodeRune_nonempty | done].
      by rewrite Heq, consRun_same.
    + rewrite len_pos by done.
      rewrite IH; [| by apply EncodeRune_nonempty |].
      * rewrite consRun_other by done. by rewrite <- app_assoc.
      * destruct (charTypeOf_cases all r) as [-> | ->]; done.
Qed.

(** [classifyTextSegments] gives the maximal runs of the characters of
    the text, typed by [charTypeOf]. *)
Lemma classifyTextSegments_runs (text : string) :
  classifyTextSegments text asciiChars
  = Spec.segmentOfRun
      <$> Spec.runsOf (charTypeOf Spec.allASCIIChars) (Utf8.runes text).
Proof.
  unfold classifyTextSegments. fold Spec.allASCIIChars.
  destruct (Utf8.runes text) as [|r rs]; [done |].
  cbn [foldl Spec.runsOf]. unfold classifyStep at 2.
  change (-1 =? -1) with true. cbv iota. rewrite Z.eqb_refl.
  rewrite classify_loop.
  - done.
  - apply EncodeRune_nonempty.
  - destruct (charTypeOf_cases Spec.allASCIIChars r) as [-> | ->]; done.
Qed.

Lemma runsOf_nil (f : Z → Z) (rs : list Z) : Spec.runsOf f rs = [] → rs = [].
Proof.
  destruct rs as [|r rs]; [done |]. cbn [Spec.runsOf].
  destruct (consRun_head (f r) (Utf8.EncodeRune r) (Spec.runsOf f rs))
    as (t & gs & ->). done.
Qed.

Lemma runsOf_classified (f : Z → Z) (rs : list Z) :
  Spec.classified f rs (Spec.segmentOfRun <$> Spec.runsOf f rs).
Proof.
  induction rs as [|r rs IH]; [constructor |].
  cbn [Spec.runsOf].
  destruct (Spec.runsOf f rs) as [|[ty t] gs] eqn:Hruns.
  - apply runsOf_nil in Hruns as ->. cbn [Spec.consRun fmap list_fmap].
    unfold Spec.segmentOfRun. cbn [fst snd].
    rewrite <- (string_app_nil_r (Utf8.EncodeRune r)).
    apply (Spec.classified_cons f [r] [] (f r) []); [done | | constructor].
    by constructor.
  - cbn [fmap list_fmap] in IH. unfold Spec.segmentOfRun at 1 in IH.
    cbn [fst snd] in IH. inversion IH as [|g rs' ty' segs Hg Hall Hrest]; subst.
    cbn [Spec.consRun]. destruct (Z.eqb_spec (f r) ty) as [Heq | Hne].
    + cbn [fmap list_fmap]. unfold Spec.segmentOfRun at 1. cbn [fst snd].
      rewrite <- encodeRunes_cons.
      rewrite app_comm_cons, Heq.
      apply Spec.classified_cons; [done | | done].
      constructor; [done | done].
    + cbn [fmap list_fmap]. unfold Spec.segmentOfRun at 1 2. cbn [fst snd].
      rewrite <- (string_app_nil_r (Utf8.EncodeRune r)).
      apply (Spec.classified_cons f [r] (g ++ rs') (f r)); [done | by constructor |].
      by apply Spec.classified_cons.
Qed.

Lemma runsOf_nonempty (f : Z → Z) (rs : list Z) :
  Forall (λ g, g.2 ≠ "") (Spec.runsOf f rs).
Proof.
  induction rs as [|r rs IH]; [constructor |].
  cbn [Spec.runsOf]. unfold Spec.consRun.
  destruct (Spec.runsOf f rs) as [|[ty t] gs].
  - constructor; [apply EncodeRune_nonempty | constructor].
  - inversion IH; subst. destruct (f r =? ty).
    + constructor; [| done].
      apply string_app_nonempty_l, EncodeRune_nonempty.
    + constructor; [apply EncodeRune_nonempty | by constructor].
Qed.

Lemma runsOf_types (f : Z → Z) (rs : list Z) :
  Forall (λ g, ∃ r, g.1 = f r) (Spec.runsOf f rs).
Proof.
  induction rs as [|r rs IH]; [constructor |].
  cbn [Spec.runsOf]. unfold Spec.consRun.
  destruct (Spec.runsOf f rs) as [|[ty t] gs].
  - constructor; [by exists r | constructor].
  - inversion IH; subst. destruct (f r =? ty).
    + constructor; [by exists r | done].
    + constructor; [by exists r | by constructor].
Qed.

(** Two runs that follow each other have different types. *)
Lemma runsOf_chained (f : Z → Z) (rs : list Z) :
  Spec.chained (Spec.segmentOfRun <$> Spec.runsOf f rs).
Proof.
  induction rs as [|r rs IH]; [done |].
  cbn [Spec.runsOf]. unfold Spec.consRun.
  destruct (Spec.runsOf f rs) as [|[ty t] gs]; [done |].
  rewrite fmap_cons in IH. destruct IH as [Hhead Hrest].
  destruct (Z.eqb_spec (f r) ty) as [Heq | Hne].
  - rewrite fmap_cons. split; [| done].
    destruct gs as [|g gs]; [done |]. rewrite fmap_cons in *.
    unfold Spec.mayFollow, Spec.segmentOfRun in *. cbn [Type_ fst] in *.
    by rewrite Heq.
  - rewrite !fmap_cons. split; [| done].
    right. right. done.
Qed.

Lemma chained_app_cons (l1 : list TextSegment) (y : TextSegment)
    (l2 : list TextSegment) :
  Spec.chained l1 → Spec.chained (y :: l2) →
  (∀ x, last l1 = Some x → Spec.mayFollow x y) →
  Spec.chained (l1 ++ y :: l2).
Proof.
  intros H1 H2 Hlast. induction l1 as [|a l1 IH]; [done |].
  destruct H1 as [Ha H1]. rewrite <- app_comm_cons. split.
  - destruct l1 as [|b l1]; [by apply Hlast | done].
  - apply IH; [done |]. intros x Hx. apply Hlast.
    destruct l1; [done | exact Hx].
Qed.

Lemma chained_maximal (segs : list TextSegment) :
  Spec.chained segs → Spec.runsAreMaximal segs.
Proof.
  intros Hch i. revert segs Hch.
  induction i as [|i IH]; intros [|a [|b segs]] Hch s1 s2 H1 H2 Hh1 Hh2;
    try done.
  - injection H1 as <-. injection H2 as <-.
    destruct Hch as [[? | [? | ?]] _]; done.
  - destruct Hch as [_ Hch]. by apply (IH (b :: segs) Hch s1 s2).
Qed.

Lemma runsOf_text (f : Z → Z) (rs : list Z) :
  concatStrings ((Spec.runsOf f rs).*2) = Utf8.encodeRunes rs.
Proof.
  induction rs as [|r rs IH]; [done |].
  cbn [Spec.runsOf]. rewrite encodeRunes_cons, <- IH. unfold Spec.consRun.
  destruct (Spec.runsOf f rs) as [|[ty t] gs]; [done |].
  destruct (f r =? ty); [| done].
  cbn [fmap list_fmap snd concatStrings foldr]. by rewrite string_app_assoc.
Qed.

End Classification.

(** ** The segmenter: emphasis runs *)

Section Pieces.
Import Output Strings.

Lemma isStar_eq (c : ascii) : isStar c = true → c = "*"%char.
Proof. unfold isStar. apply Ascii.eqb_eq. Qed.

Lemma runText_some (r x rest : string) :
  Spec.runText r = Some (x, rest) →
  r = x +:+ "**" +:+ rest ∧ spanNotStar r = String.length x
  ∧ skipNotStar r = "**" +:+ rest.
Proof.
  revert x. induction r as [|c r IH]; intros x; [done |].
  cbn [Spec.runText spanNotStar skipNotStar].
  destruct (isStar c) eqn:Hc.
  - destruct r as [|c' r']; [done |].
    destruct (isStar c') eqn:Hc'; [| done].
    intros [= <- <-]. apply isStar_eq in Hc, Hc'. by subst.
  - destruct (Spec.runText r) as [[x' rest']|]; [| done].
    intros [= <- <-]. destruct (IH x' eq_refl) as (-> & -> & ->). done.
Qed.

Lemma runText_none (r : string) :
  Spec.runText r = None → String.prefix "**" (skipNotStar r) = false.
Proof.
  induction r as [|c r IH]; [done |].
  cbn [Spec.runText skipNotStar].
  destruct (isStar c) eqn:Hc.
  - destruct r as [|c' r']; [by rewrite prefix_cons; case_match |].
    destruct (isStar c') eqn:Hc'; [done |]. intros _.
    rewrite !prefix_cons. case_match; [| done].
    unfold isStar in Hc'. rewrite Ascii.eqb_sym in Hc'. by rewrite Hc'.
  - destruct (Spec.runText r) as [[x' rest']|]; [done | exact IH].
Qed.

(** The regular expression matches exactly at the emphasis runs. *)
Lemma boldPatternAt_emphasisRun (s : string) :
  boldPatternAt s
  = match Spec.emphasisRun s with
    | Some (x, _) => Some (String.length x + 4)%nat
    | None => None
    end.
Proof.
  destruct s as [|c0 [|c1 r]]; [done | done |].
  cbn [boldPatternAt Spec.emphasisRun].
  destruct (isStar c0 && isStar c1); [| done].
  destruct (Spec.runText r) as [[x rest]|] eqn:Hrun.
  - apply runText_some in Hrun as (_ & -> & ->).
    destruct x as [|c x]; [done |].
    by rewrite prefix_app.
  - apply runText_none in Hrun. rewrite Hrun. by rewrite andb_false_r.
Qed.

Lemma emphasisRun_some (s x rest : string) :
  Spec.emphasisRun s = Some (x, rest) →
  s = "**" +:+ x +:+ "**" +:+ rest ∧ x ≠ "".
Proof.
  destruct s as [|c0 [|c1 r]]; [done | done |].
  cbn [Spec.emphasisRun].
  destruct (isStar c0) eqn:H0; [| done].
  destruct (isStar c1) eqn:H1; [| done]. cbn [andb].
  destruct (Spec.runText r) as [[[|c x'] rest']|] eqn:Hrun; [done | | done].
  intros [= <- <-]. apply runText_some in Hrun as (-> & _ & _).
  apply isStar_eq in H0, H1. by subst.
Qed.

Lemma piecesFrom_skip (a b : string) :
  Spec.piecesFrom (String.length a) (a +:+ b) = Spec.piecesFrom 0 b.
Proof. induction a as [|c a IH]; [done | exact IH]. Qed.

Lemma findAllFrom_skip (a b : string) (pos : nat) :
  findAllFrom (String.length a) pos (a +:+ b)
  = findAllFrom 0 (pos + String.length a) b.
Proof.
  revert pos. induction a as [|c a IH]; intros pos.
  - cbn [String.length String.append]. by rewrite Nat.add_0_r.
  - cbn [String.length String.append findAllFrom]. rewrite IH.
    f_equal. lia.
Qed.

Lemma substring_skip (a b : string) (m : nat) :
  String.substring (String.length a) m (a +:+ b) = String.substring 0 m b.
Proof. induction a as [|c a IH]; [done | exact IH]. Qed.

Lemma substring_prefix (b c : string) :
  String.substring 0 (String.length b) (b +:+ c) = b.
Proof.
  induction b as [|x b IH]; [by destruct c |].
  cbn [String.length String.append String.substring]. by rewrite IH.
Qed.

(** The slice of a line between two of its parts. *)
Lemma slice_middle (a b c : string) :
  slice (a +:+ b +:+ c) (String.length a) (String.length a + String.length b) = b.
Proof.
  unfold slice.
  replace (String.length a + String.length b - String.length a)%nat
    with (String.length b) by lia.
  by rewrite substring_skip, substring_prefix.
Qed.

Lemma prependPlain_consPlain (pending : string) (c : ascii) (ps : list (bool * string)) :
  Spec.prependPlain pending (Spec.consPlain (String c "") ps)
  = Spec.prependPlain (pending +:+ String c "") ps.
Proof.
  destruct pending as [|p pending]; [done |].
  cbn [Spec.prependPlain String.append]. unfold Spec.consPlain.
  destruct ps as [|[[|] t] ps']; try done.
  do 2 f_equal. cbn [String.append]. f_equal.
  by rewrite string_app_assoc.
Qed.

Lemma forRange_parseStep_index (line : string) (ms : list submatch)
    (i j : nat) (st : list TextSegment * nat) :
  forRange (λ st (_ : nat) m, parseStep line st m) i ms st
  = forRange (λ st (_ : nat) m, parseStep line st m) j ms st.
Proof.
  revert i j st. induction ms as [|m ms IH]; intros i j st; [done |].
  cbn [forRange]. apply IH.
Qed.

(** The loop of [parseLineSegments], started after the text [done] of the
    line, with the text [pending] read since and [s] still to read. *)
Lemma parse_general (n : nat) (line done pending s : string)
    (segs : list TextSegment) :
  (String.length s <= n)%nat →
  line = done +:+ pending +:+ s →
  parseFinish line
    (forRange (λ st (_ : nat) m, parseStep line st m) 0
       (findAllFrom 0 (String.length done + String.length pending) s)
       (segs, String.length done))
  = segs ++ concat (Spec.segmentsOfPiece
                      <$> Spec.prependPlain pending (Spec.piecesFrom 0 s)).
Proof.
  revert done pending s segs.
  induction n as [|n IH]; intros done pending s segs Hlen Hline.
  - destruct s as [|c r]; [| cbn [String.length] in Hlen; lia].
    cbn [findAllFrom forRange Spec.piecesFrom parseFinish].
    rewrite Hline, !string_length_app. cbn [String.length].
    destruct pending as [|p pending].
    + cbn [String.length Spec.prependPlain fmap list_fmap concat].
      destruct (Nat.ltb_spec (String.length done) (String.length done + (0 + 0)));
        [lia | by rewrite app_nil_r].
    + destruct (Nat.ltb_spec (String.length done)
                  (String.length done + (String.length (String p pending) + 0)));
        [| cbn [String.length] in *; lia].
      rewrite Nat.add_0_r, slice_middle.
      cbn [Spec.prependPlain Spec.consPlain]. rewrite fmap_cons.
      cbn [fmap list_fmap concat].
      change (Spec.segmentsOfPiece (false, String p pending))
        with (classifyTextSegments (String p pending) asciiChars).
      by rewrite app_nil_r.
  - destruct s as [|c r].
    { apply (IH done pending "" segs); [cbn [String.length]; lia | done]. }
    cbn [findAllFrom Spec.piecesFrom].
    rewrite boldPatternAt_emphasisRun.
    destruct (Spec.emphasisRun (String c r)) as [[x rest]|] eqn:Hrun.
    + apply emphasisRun_some in Hrun as [Hs Hx].
      assert (Hr : r = ("*" +:+ x +:+ "**") +:+ rest).
      { rewrite !string_app_assoc. cbn [String.append] in Hs |- *.
        by injection Hs. }
      assert (Hlenr : String.length ("*" +:+ x +:+ "**") = (String.length x + 3)%nat).
      { rewrite !string_length_app. cbn [String.length]. lia. }
      replace (String.length x + 4 - 1)%nat with (String.length x + 3)%nat by lia.
      rewrite Hr at 1 2. rewrite <- Hlenr.
      rewrite findAllFrom_skip, piecesFrom_skip. rewrite Hlenr.
      cbn [forRange]. unfold parseStep at 2. cbn [m0 m1 m2 m3].
      set (pos := (String.length done + String.length pending)%nat).
      assert (Hbold : slice line (pos + 2) (pos + (String.length x + 4) - 2) = x).
      { rewrite Hline, Hs.
        replace (done +:+ pending +:+ "**" +:+ x +:+ "**" +:+ rest)
          with ((done +:+ pending +:+ "**") +:+ x +:+ ("**" +:+ rest))
          by (by rewrite !string_app_assoc).
        replace (pos + 2)%nat with (String.length (done +:+ pending +:+ "**"))
          by (rewrite !string_length_app; cbn [String.length]; lia).
        replace (pos + (String.length x + 4) - 2)%nat
          with (String.length (done +:+ pending +:+ "**") + String.length x)%nat
          by (rewrite !string_length_app; cbn [String.length]; lia).
        apply slice_middle. }
      rewrite Hbold.
      rewrite (forRange_parseStep_index line _ 1 0).
      replace (S pos + (String.length x + 3))%nat
        with (String.length (done +:+ pending +:+ "**" +:+ x +:+ "**")
              + String.length "")%nat
        by (rewrite !string_length_app; cbn [String.length]; lia).
      replace (pos + (String.length x + 4))%nat
        with (String.length (done +:+ pending +:+ "**" +:+ x +:+ "**"))
        by (rewrite !string_length_app; cbn [String.length]; lia).
      rewrite (IH (done +:+ pending +:+ "**" +:+ x +:+ "**") "" rest).
      2:{ rewrite Hs in Hlen. rewrite !string_length_app in Hlen.
          cbn [String.length] in Hlen. lia. }
      2:{ rewrite Hline, Hs. change ("" +:+ rest) with rest.
          by rewrite !string_app_assoc. }
      destruct pending as [|p pending].
      * destruct (Nat.ltb_spec (String.length done) pos);
          [unfold pos in *; cbn [String.length] in *; lia |].
        cbn [Spec.prependPlain]. rewrite fmap_cons. cbn [concat].
        change (Spec.segmentsOfPiece (true, x))
          with [{| Text := x; Type_ := HeaderText |}].
        by rewrite <- app_assoc.
      * destruct (Nat.ltb_spec (String.length done) pos);
          [| unfold pos in *; cbn [String.length] in *; lia].
        assert (Hpend : slice line (String.length done) pos = String p pending).
        { rewrite Hline. unfold pos. apply slice_middle. }
        rewrite Hpend.
        cbn [Spec.prependPlain Spec.consPlain]. rewrite !fmap_cons. cbn [concat].
        change (Spec.segmentsOfPiece (true, x))
          with [{| Text := x; Type_ := HeaderText |}].
        change (Spec.segmentsOfPiece (false, String p pending))
          with (classifyTextSegments (String p pending) asciiChars).
        by rewrite <- !app_assoc.
    + replace (S (String.length done + String.length pending))
        with (String.length done + String.length (pending +:+ String c ""))%nat
        by (rewrite string_length_app; cbn [String.length]; lia).
      rewrite (IH done (pending +:+ String c "") r).
      * by rewrite prependPlain_consPlain.
      * cbn [String.length] in Hlen. lia.
      * rewrite Hline. by rewrite !string_app_assoc.
Qed.

(** The segments of a line are the segments of its pieces, in order. *)
Lemma parseLineSegments_pieces (line : string) :
  parseLineSegments line = concat (Spec.segmentsOfPiece <$> Spec.pieces line).
Proof.
  unfold parseLineSegments, FindAllStringSubmatchIndex, Spec.pieces.
  exact (parse_general (String.length line) line "" "" line [] (le_n _) eq_refl).
Qed.

Lemma separated_consPlain (t : string) (ps : list (bool * string)) :
  Spec.separated ps = true → Spec.separated (Spec.consPlain t ps) = true.
Proof.
  unfold Spec.consPlain. by destruct ps as [|[[|] t'] ps'].
Qed.

Lemma piecesFrom_separated (s : string) (k : nat) :
  Spec.separated (Spec.piecesFrom k s) = true.
Proof.
  revert k. induction s as [|c r IH]; intros k; [done |].
  cbn [Spec.piecesFrom]. destruct k as [|k]; [| apply IH].
  destruct (Spec.emphasisRun (String c r)) as [[x rest]|].
  - cbn [Spec.separated fst orb]. rewrite IH. by case_match.
  - apply separated_consPlain, IH.
Qed.

Lemma piecesFrom_emphasis_nonempty (s : string) (k : nat) :
  Forall (λ p : bool * string, p.1 = true → p.2 ≠ "") (Spec.piecesFrom k s).
Proof.
  revert k. induction s as [|c r IH]; intros k; [constructor |].
  cbn [Spec.piecesFrom]. destruct k as [|k]; [| apply IH].
  destruct (Spec.emphasisRun (String c r)) as [[x rest]|] eqn:Hrun.
  - apply emphasisRun_some in Hrun as [_ Hx]. constructor; [done | apply IH].
  - specialize (IH 0%nat). unfold Spec.consPlain.
    destruct (Spec.piecesFrom 0 r) as [|[[|] t] ps]; [by constructor | |].
    + constructor; [done | done].
    + inversion IH; subst. by constructor.
Qed.

Lemma pieceSource_consPlain (c : ascii) (ps : list (bool * string)) :
  concatStrings (Spec.pieceSource <$> Spec.consPlain (String c "") ps)
  = String c (concatStrings (Spec.pieceSource <$> ps)).
Proof. unfold Spec.consPlain. by destruct ps as [|[[|] t] ps']. Qed.

(** The pieces, with the markers of the emphasis runs, make up the line. *)
Lemma pieces_source_bounded (n : nat) (s : string) :
  (String.length s <= n)%nat →
  concatStrings (Spec.pieceSource <$> Spec.piecesFrom 0 s) = s.
Proof.
  revert s. induction n as [|n IH]; intros s Hlen.
  - destruct s; [done | cbn [String.length] in Hlen; lia].
  - destruct s as [|c r]; [done |]. cbn [Spec.piecesFrom].
    destruct (Spec.emphasisRun (String c r)) as [[x rest]|] eqn:Hrun.
    + apply emphasisRun_some in Hrun as [Hs Hx].
      assert (Hr : r = ("*" +:+ x +:+ "**") +:+ rest).
      { rewrite !string_app_assoc. cbn [String.append] in Hs |- *.
        by injection Hs. }
      assert (Hlenr : String.length ("*" +:+ x +:+ "**") = (String.length x + 3)%nat).
      { rewrite !string_length_app. cbn [String.length]. lia. }
      rewrite Hr at 1. rewrite <- Hlenr, piecesFrom_skip.
      rewrite fmap_cons. cbn [concatStrings foldr].
      fold (concatStrings (Spec.pieceSource <$> Spec.piecesFrom 0 rest)).
      rewrite IH.
      * rewrite Hs. unfold Spec.pieceSource. cbn [fst snd].
        by rewrite !string_app_assoc.
      * rewrite Hs in Hlen. rewrite !string_length_app in Hlen.
        cbn [String.length] in Hlen. lia.
    + rewrite pieceSource_consPlain, IH; [done |].
      cbn [String.length] in Hlen. lia.
Qed.

Lemma pieces_source (line : string) :
  concatStrings (Spec.pieceSource <$> Spec.pieces line) = line.
Proof. by apply (pieces_source_bounded (String.length line)). Qed.

Lemma star_ascii : Utf8.byteZ "*" < 0x80.
Proof. done. Qed.

(** In a well-formed line, the text between the emphasis runs is well
    formed. *)
Lemma valid_plain_pieces (ps : list (bool * string)) :
  Spec.separated ps = true →
  Utf8.ValidString (concatStrings (Spec.pieceSource <$> ps)) = true →
  Forall (λ p : bool * string, p.1 = false → Utf8.ValidString p.2 = true) ps.
Proof.
  induction ps as [|[em t] ps IH]; intros Hsep Hvalid; [constructor |].
  cbn [Spec.separated] in Hsep. apply andb_true_iff in Hsep as [Hhead Hsep].
  rewrite fmap_cons in Hvalid. cbn [concatStrings foldr] in Hvalid.
  fold (concatStrings (Spec.pieceSource <$> ps)) in Hvalid.
  destruct em.
  - unfold Spec.pieceSource in Hvalid at 1. cbn [fst snd] in Hvalid.
    replace (("**" +:+ t +:+ "**") +:+ concatStrings (Spec.pieceSource <$> ps))
      with (("**" +:+ t +:+ "*")
            +:+ String "*"%char (concatStrings (Spec.pieceSource <$> ps)))
      in Hvalid by (by rewrite !string_app_assoc).
    rewrite ValidString_app_ascii in Hvalid by apply star_ascii.
    apply andb_true_iff in Hvalid as [_ Hvalid].
    constructor; [done | by apply IH].
  - unfold Spec.pieceSource in Hvalid at 1. cbn [fst snd] in Hvalid.
    destruct ps as [|[em' t'] ps'].
    + cbn in Hvalid. rewrite string_app_nil_r in Hvalid.
      constructor; [done | constructor].
    + cbn [fst orb] in Hhead. subst em'.
      rewrite fmap_cons in Hvalid. cbn [concatStrings foldr] in Hvalid.
      fold (concatStrings (Spec.pieceSource <$> ps')) in Hvalid.
      unfold Spec.pieceSource in Hvalid at 1. cbn [fst snd] in Hvalid.
      set (S' := concatStrings (Spec.pieceSource <$> ps')) in *.
      change (("**" +:+ t' +:+ "**") +:+ S')
        with (String "*"%char (("*" +:+ t' +:+ "**") +:+ S')) in Hvalid.
      rewrite ValidString_app_ascii in Hvalid by apply star_ascii.
      apply andb_true_iff in Hvalid as [Ht Hrest].
      constructor; [done |]. apply IH; [done |].
      rewrite fmap_cons. cbn [concatStrings foldr].
      fold (concatStrings (Spec.pieceSource <$> ps')). fold S'.
      unfold Spec.pieceSource at 1. cbn [fst snd].
      change (("**" +:+ t' +:+ "**") +:+ S')
        with (String "*"%char (("*" +:+ t' +:+ "**") +:+ S')).
      by rewrite ValidString_ascii_cons by apply star_ascii.
Qed.

Lemma segmentsText_app (l1 l2 : list TextSegment) :
  Spec.segmentsText (l1 ++ l2) = Spec.segmentsText l1 +:+ Spec.segmentsText l2.
Proof.
  induction l1 as [|s l1 IH]; [done |].
  rewrite <- app_comm_cons. unfold Spec.segmentsText in *. cbn [foldr].
  by rewrite IH, string_app_assoc.
Qed.

Lemma segmentsText_runs (gs : list (Z * string)) :
  Spec.segmentsText (Spec.segmentOfRun <$> gs) = concatStrings (gs.*2).
Proof.
  induction gs as [|g gs IH]; [done |].
  rewrite !fmap_cons. unfold Spec.segmentsText in *. cbn [foldr concatStrings].
  by rewrite IH.
Qed.

(** The texts of the segments of some text outside emphasis runs are the
    characters of the text, written back one by one. *)
Lemma segmentsText_classify (t : string) :
  Spec.segmentsText (classifyTextSegments t asciiChars)
  = Utf8.encodeRunes (Utf8.runes t).
Proof.
  by rewrite classifyTextSegments_runs, segmentsText_runs, runsOf_text.
Qed.

Lemma segmentsText_pieces (ps : list (bool * string)) :
  Forall (λ p : bool * string, p.1 = false → Utf8.ValidString p.2 = true) ps →
  Spec.segmentsText (concat (Spec.segmentsOfPiece <$> ps))
  = concatStrings (ps.*2).
Proof.
  induction 1 as [|[em t] ps Hp _ IH]; [done |].
  rewrite !fmap_cons. cbn [concat concatStrings foldr].
  rewrite segmentsText_app. fold (concatStrings (ps.*2)). rewrite IH.
  f_equal. cbn [snd]. unfold Spec.segmentsOfPiece. cbn [fst snd].
  destruct em.
  - unfold Spec.segmentsText. cbn [foldr Text]. apply string_app_nil_r.
  - rewrite segmentsText_classify. apply encodeRunes_valid. by apply Hp.
Qed.

Lemma classify_nonempty (t : string) :
  Forall (λ seg, Text seg ≠ "") (classifyTextSegments t asciiChars).
Proof.
  rewrite classifyTextSegments_runs. apply Forall_fmap.
  apply (Forall_impl _ _ _ (runsOf_nonempty _ _)). by intros [ty x].
Qed.

Lemma pieces_segments_nonempty (ps : list (bool * string)) :
  Forall (λ p : bool * string, p.1 = true → p.2 ≠ "") ps →
  Forall (λ seg, Text seg ≠ "") (concat (Spec.segmentsOfPiece <$> ps)).
Proof.
  induction 1 as [|[em t] ps Hp _ IH]; [constructor |].
  rewrite fmap_cons. cbn [concat]. apply Forall_app. split; [| done].
  unfold Spec.segmentsOfPiece. cbn [fst snd]. destruct em.
  - constructor; [by apply Hp | constructor].
  - apply classify_nonempty.
Qed.

Lemma pieces_segments_chained (ps : list (bool * string)) :
  Spec.separated ps = true →
  Spec.chained (concat (Spec.segmentsOfPiece <$> ps)).
Proof.
  induction ps as [|[em t] ps IH]; intros Hsep; [done |].
  cbn [Spec.separated] in Hsep. apply andb_true_iff in Hsep as [Hhead Hsep].
  specialize (IH Hsep). rewrite fmap_cons. cbn [concat].
  unfold Spec.segmentsOfPiece at 1. cbn [fst snd]. destruct em.
  - cbn [app]. split; [| done].
    destruct (concat (Spec.segmentsOfPiece <$> ps)); [done | by left].
  - destruct ps as [|[em' t'] ps'].
    + cbn [fmap list_fmap concat]. rewrite app_nil_r.
      rewrite classifyTextSegments_runs. apply runsOf_chained.
    + cbn [fst orb] in Hhead. subst em'.
      rewrite fmap_cons in IH |- *. cbn [concat] in IH |- *.
      change (Spec.segmentsOfPiece (true, t'))
        with [{| Text := t'; Type_ := HeaderText |}] in IH |- *.
      cbn [app] in IH |- *.
      apply chained_app_cons; [| done | by intros; right; left].
      rewrite classifyTextSegments_runs. apply runsOf_chained.
Qed.

End Pieces.

(** ** The segmenter: the claims *)

Section SegmenterClaims.
Import Output Strings.

Lemma structural_runes :
  ∀ char, char ∈ Utf8.runes Spec.allASCIIChars ↔ char ∈ Spec.builtinGlyphs.
Proof.
  assert (H1 : Forall (λ x, x ∈ Spec.builtinGlyphs) (Utf8.runes Spec.allASCIIChars)).
  { apply (bool_decide_unpack _). by vm_compute. }
  assert (H2 : Forall (λ x, x ∈ Utf8.runes Spec.allASCIIChars) Spec.builtinGlyphs).
  { apply (bool_decide_unpack _). by vm_compute. }
  rewrite Forall_forall in H1, H2. intros char. split; [apply H1 | apply H2].
Qed.

Lemma charTypeOf_builtin (char : Z) :
  charTypeOf Spec.allASCIIChars char
  = if decide (char ∈ Spec.builtinGlyphs) then ASCIIText else ContentText.
Proof.
  unfold charTypeOf, ContainsRune.
  destruct (existsb (Z.eqb char) (Utf8.runes Spec.allASCIIChars)) eqn:Hex.
  - apply existsb_exists in Hex as (x & Hin & Heq).
    apply Z.eqb_eq in Heq as <-. apply list_elem_of_In, structural_runes in Hin.
    by rewrite decide_True.
  - rewrite decide_False; [done |]. intros Hin.
    apply structural_runes, list_elem_of_In in Hin.
    assert (existsb (Z.eqb char) (Utf8.runes Spec.allASCIIChars) = true);
      [| congruence].
    apply existsb_exists. exists char. split; [done | apply Z.eqb_refl].
Qed.

(** C6, as the code has it: a line is divided into its emphasis runs, each
    of which gives one header segment, and the text outside them, which is
    classified character by character; there a character is structural
    exactly when it is one of the glyphs of the two built-in styles, which
    the segmenter holds as a constant, and plain content otherwise. *)
Theorem segmenter_structural_glyphs (line : string) :
  (∀ char,
     charTypeOf Spec.allASCIIChars char
     = if decide (char ∈ Spec.builtinGlyphs) then ASCIIText else ContentText)
  ∧ ∃ segss,
      parseLineSegments line = concat segss
      ∧ Forall2 (λ (p : bool * string) segs,
                   if p.1 then segs = [{| Text := p.2; Type_ := HeaderText |}]
                   else Spec.classified (charTypeOf Spec.allASCIIChars)
                          (Utf8.runes p.2) segs)
          (Spec.pieces line) segss.
Proof.
  split; [apply charTypeOf_builtin |].
  exists (Spec.segmentsOfPiece <$> Spec.pieces line).
  split; [apply parseLineSegments_pieces |].
  apply Forall2_fmap_r, Forall_Forall2_diag, Forall_forall.
  intros [em t] _. unfold Spec.segmentsOfPiece, compose. cbn [fst snd].
  destruct em; [done |].
  rewrite classifyTextSegments_runs. apply runsOf_classified.
Qed.

(** C10, as the code has it: the texts of the segments of a well-formed
    UTF-8 line, written one after the other, are the line without the
    markers of its emphasis runs; for every line, no segment is empty and
    no two segments that follow each other outside emphasis runs have the
    same type. *)
Theorem segmenter_partition (line : string) :
  (Utf8.ValidString line = true →
   Spec.segmentsText (parseLineSegments line) = Spec.stripEmphasis line)
  ∧ concatStrings (Spec.pieceSource <$> Spec.pieces line) = line
  ∧ Forall (λ seg, Text seg ≠ "") (parseLineSegments line)
  ∧ Spec.runsAreMaximal (parseLineSegments line).
Proof.
  rewrite parseLineSegments_pieces. split.
  { intros Hvalid. unfold Spec.stripEmphasis. apply segmentsText_pieces.
    apply valid_plain_pieces; [apply piecesFrom_separated |].
    by rewrite pieces_source. }
  split; [apply pieces_source |].
  split.
  - apply pieces_segments_nonempty, piecesFrom_emphasis_nonempty.
  - apply chained_maximal, pieces_segments_chained, piecesFrom_separated.
Qed.

End SegmenterClaims.

(** ** The style registry *)

Section StyleRegistry.
Import Tables Strings.
Context `{StringsToLower}.

Lemma getAvailableTypes_elem (styles : gmap string TableStyle) (key : string) :
  key ∈ getAvailableTypes styles ↔ is_Some (styles !! key).
Proof.
  unfold getAvailableTypes. rewrite list_elem_of_fmap. split.
  - intros ([k v] & -> & Hin). apply elem_of_map_to_list in Hin. by exists v.
  - intros [v Hv]. exists (key, v). split; [done |].
    by apply elem_of_map_to_list.
Qed.







End StyleRegistry.

(** ** Instances of the claims on concrete tables *)

Section Instances.
Import Tables Strings.

(** C1 fails as stated: the table with headers [A, B] and the single row
    [x] renders the data row line "│ x │", the fourth line of the text,
    with two delimiters, not the three that two headers call for. *)
Lemma short_row_has_fewer_delimiters :
  let r := {| Style := singleLineFull |} in
  Spec.linesOf (Render (H := asciiToLower) r Spec.shortRowConfig)
  = ["┌───┬───┐"; "│ A │ B │"; "├───┼───┤"; "│ x │"; "└───┴───┘"]
  ∧ Spec.dataLine (H := asciiToLower) r Spec.shortRowConfig ["x"] = "│ x │"
  ∧ Spec.occurrences (Vertical (Style r)) "│ x │" = 2%nat
  ∧ (length (Headers Spec.shortRowConfig) + 1)%nat = 3%nat.
Proof. vm_compute. done. Qed.

(** The scenario of the specification has three delimiters on both row
    lines. *)
Lemma row_lines_delimiter_count_witness :
  let r := {| Style := singleLineFull |} in
  Spec.occurrences "│" (Spec.headerLine (H := asciiToLower) r (Spec.scenarioConfig ""))
  = 3%nat
  ∧ Spec.occurrences "│"
      (Spec.dataLine (H := asciiToLower) r (Spec.scenarioConfig "") ["x"; "yy"])
    = 3%nat.
Proof.
  intros r.
  assert (Hclean : ∀ cells cell,
    cells = Headers (Spec.scenarioConfig "") ∨ cells ∈ Rows (Spec.scenarioConfig "") →
    cell ∈ cells → Spec.occurrences (Vertical (Style r)) (cleanText cell) = 0%nat).
  { intros cells cell [-> | Hin] Hcell.
    - simpl in Hcell. apply list_elem_of_In in Hcell.
      destruct Hcell as [<- | [<- | []]]; reflexivity.
    - simpl in Hin. apply list_elem_of_singleton in Hin. subst cells.
      apply list_elem_of_In in Hcell.
      destruct Hcell as [<- | [<- | []]]; reflexivity. }
  destruct (row_lines_delimiter_count (H := asciiToLower) r (Spec.scenarioConfig "")
              ltac:(simpl; lia) ltac:(simpl; lia) ltac:(done) ltac:(reflexivity) Hclean)
    as (_ & Hhead & Hrow).
  split; [exact Hhead |].
  apply (Hrow ["x"; "yy"]); [| simpl; lia].
  simpl. apply list_elem_of_singleton. done.
Defined.

(** The scenario, with the lower-casing of ASCII strings. *)
Lemma scenario_single_line_full_witness :
  calculateColumnWidths (Spec.scenarioConfig "") = [3; 4]
  ∧ Spec.headerLine (H := asciiToLower) {| Style := singleLineFull |}
      (Spec.scenarioConfig "") = "│ A │ BB │".
Proof.
  destruct (scenario_single_line_full (H := asciiToLower) "" eq_refl)
    as (_ & Hw & _ & _ & Hh & _).
  exact (conj Hw Hh).
Defined.

(** The first header and the first cell of the scenario. *)
Lemma cells_of_a_column_share_its_width_witness :
  Spec.displayWidth " A " = Spec.displayWidth " x "
  ∧ calculateColumnWidths (Spec.scenarioConfig "") !! 0%nat
    = Some (Spec.displayWidth " A ").
Proof.
  destruct (cells_of_a_column_share_its_width (H := asciiToLower)
              {| Style := singleLineFull |} (Spec.scenarioConfig "")
              ["A"; "BB"] ["x"; "yy"] 0 " A " " x "
              (or_introl eq_refl)
              (or_intror (list_elem_of_here _ _))
              eq_refl eq_refl)
    as (Heq & Hw & _).
  exact (conj Heq Hw).
Defined.

(** A third cell appended to the row of the scenario. *)
Lemma extra_cells_are_ignored_witness :
  let r := {| Style := singleLineFull |} in
  Render (H := asciiToLower) r
    (Spec.withRows (Spec.scenarioConfig "") [["x"; "yy"; "ignored"]])
  = Render (H := asciiToLower) r (Spec.scenarioConfig "").
Proof.
  intros r.
  destruct (extra_cells_are_ignored (H := asciiToLower) r (Spec.scenarioConfig "")
              [] [] ["x"; "yy"] ["ignored"] eq_refl)
    as [_ Hfull].
  destruct (Hfull ltac:(simpl; lia)) as [_ Hr].
  exact Hr.
Defined.


(** C6 fails as stated: once the rounded style of the documentation is
    registered, its corner "╭" is a glyph of a registered style, yet the
    segmenter classifies it as plain content. *)
Lemma registered_glyph_is_plain_content :
  let styles :=
    RegisterTableStyle (H := asciiToLower) "rounded" Spec.roundedStyle tableStyles in
  reachable (H := asciiToLower) styles
  ∧ Spec.registeredGlyph styles 0x256D
  ∧ Utf8.runes "╭" = [0x256D]
  ∧ Output.parseLineSegments "╭"
    = [{| Output.Text := "╭"; Output.Type_ := Output.ContentText |}].
Proof.
  intros styles. split; [apply reachable_register, reachable_init |].
  split.
  { exists "rounded", Spec.roundedStyle. split; [reflexivity |].
    apply list_elem_of_In. vm_compute. by left. }
  split; reflexivity.
Qed.

(** C10 fails as stated: the line made of the byte [0xFF], which is not
    well-formed UTF-8, has no emphasis run, and its only segment holds the
    three bytes of U+FFFD instead of the byte of the line. *)
Lemma ill_formed_byte_is_replaced :
  Utf8.ValidString Spec.illFormedLine = false
  ∧ Spec.stripEmphasis Spec.illFormedLine = Spec.illFormedLine
  ∧ Output.parseLineSegments Spec.illFormedLine
    = [{| Output.Text := Spec.replacementText;
          Output.Type_ := Output.ContentText |}]
  ∧ Spec.segmentsText (Output.parseLineSegments Spec.illFormedLine)
    ≠ Spec.stripEmphasis Spec.illFormedLine.
Proof.
  split; [reflexivity |]. split; [reflexivity |]. split; [reflexivity |].
  vm_compute. discriminate.
Qed.

(** A rendered row with an emphasized cell. *)
Lemma segmenter_partition_witness :
  Spec.segmentsText (Output.parseLineSegments "│ **Bold** │ x │")
  = Spec.stripEmphasis "│ **Bold** │ x │".
Proof.
  destruct (segmenter_partition "│ **Bold** │ x │") as [Hvalid _].
  exact (Hvalid eq_refl).
Defined.

End Instances.

(** * Further properties of the program *)

(** ** Bytes of a text *)

Section ByteFacts.
Import Strings.

Lemma containsByte_app (c : ascii) (a b : string) :
  Spec.containsByte c (a +:+ b) = Spec.containsByte c a || Spec.containsByte c b.
Proof.
  induction a as [|x a IH]; [done |].
  change (String x a +:+ b) with (String x (a +:+ b)).
  cbn [Spec.containsByte]. by rewrite IH, orb_assoc.
Qed.

Lemma containsByte_repeatNat (c : ascii) (g : string) (n : nat) :
  Spec.containsByte c g = false → Spec.containsByte c (repeatNat g n) = false.
Proof.
  intros Hg. induction n as [|n IH]; [done |].
  cbn [repeatNat]. by rewrite containsByte_app, Hg, IH.
Qed.

Lemma containsByte_concat (c : ascii) (l : list string) :
  Forall (λ s, Spec.containsByte c s = false) l →
  Spec.containsByte c (concatStrings l) = false.
Proof.
  induction 1 as [|s l Hs _ IH]; [done |].
  change (concatStrings (s :: l)) with (s +:+ concatStrings l).
  by rewrite containsByte_app, Hs, IH.
Qed.

End ByteFacts.

(** ** Removing the emphasis markers *)

Section CleanText.
Import Tables Strings.

Lemma cleanText_nil : cleanText "" = "".
Proof. reflexivity. Qed.

Lemma cleanText_marker (r : string) :
  cleanText (String "*" (String "*" r)) = cleanText r.
Proof.
  unfold cleanText, ReplaceAll. cbn [replaceFrom].
  rewrite !prefix_cons, prefix_nil_l. reflexivity.
Qed.

Lemma cleanText_other (c : ascii) (r : string) :
  String.prefix "**" (String c r) = false →
  cleanText (String c r) = String c (cleanText r).
Proof.
  intros Hp. unfold cleanText, ReplaceAll. cbn [replaceFrom]. by rewrite Hp.
Qed.

Lemma prefix_marker (c : ascii) (r : string) :
  String.prefix "**" (String c r) = Ascii.eqb "*" c && String.prefix "*" r.
Proof. rewrite prefix_cons. by destruct (Ascii.eqb "*" c). Qed.

Lemma prefix_star (c : ascii) (r : string) :
  String.prefix "*" (String c r) = Ascii.eqb "*" c.
Proof. rewrite prefix_cons, prefix_nil_l. by destruct (Ascii.eqb "*" c). Qed.

(** The three cases of [cleanText]: the end of the text, a marker, any
    other byte. *)
Lemma cleanText_cases (P : string → Prop) :
  P "" →
  (∀ r, P r → P (String "*" (String "*" r))) →
  (∀ c r, String.prefix "**" (String c r) = false → P r → P (String c r)) →
  ∀ s, P s.
Proof.
  intros Hnil Hmark Hother s.
  assert (Hn : ∀ n s, (String.length s <= n)%nat → P s).
  { clear s. induction n as [|n IH]; intros s Hlen.
    - destruct s; [done | simpl in Hlen; lia].
    - destruct s as [|c r]; [done |].
      destruct (String.prefix "**" (String c r)) eqn:Hp.
      + rewrite prefix_marker in Hp. apply andb_true_iff in Hp as [Hc Hr].
        apply Ascii.eqb_eq in Hc. subst c.
        destruct r as [|c' r']; [done |].
        rewrite prefix_star in Hr. apply Ascii.eqb_eq in Hr. subst c'.
        apply Hmark, IH. simpl in Hlen. lia.
      + apply Hother; [done |]. apply IH. simpl in Hlen. lia. }
  by apply (Hn (String.length s)).
Qed.

Lemma cleanText_no_marker_aux (s : string) :
  Spec.occurrences "**" (cleanText s) = 0%nat
  ∧ (String.prefix "*" s = false → String.prefix "*" (cleanText s) = false).
Proof.
  induction s as [| r [IH1 IH2] | c r Hp [IH1 IH2]] using cleanText_cases.
  - done.
  - rewrite cleanText_marker. split; [done |]. by rewrite prefix_star.
  - rewrite cleanText_other by done. split.
    + cbn [Spec.occurrences]. rewrite IH1, prefix_marker.
      rewrite prefix_marker in Hp.
      destruct (Ascii.eqb "*" c); [| done].
      simpl in Hp. by rewrite (IH2 Hp).
    + by rewrite !prefix_star.
Qed.

Lemma cleanText_no_marker (s : string) :
  Spec.occurrences "**" (cleanText s) = 0%nat.
Proof. apply cleanText_no_marker_aux. Qed.

Lemma cleanText_unmarked (s : string) :
  Spec.occurrences "**" s = 0%nat → cleanText s = s.
Proof.
  induction s as [|c r IH]; [done |].
  cbn [Spec.occurrences]. intros Hocc.
  destruct (String.prefix "**" (String c r)) eqn:Hp; [lia |].
  rewrite cleanText_other by done. rewrite IH; [done | lia].
Qed.

Lemma cleanText_idempotent (s : string) : cleanText (cleanText s) = cleanText s.
Proof. apply cleanText_unmarked, cleanText_no_marker. Qed.

Lemma cleanText_length (s : string) :
  (String.length (cleanText s) <= String.length s)%nat.
Proof.
  induction s as [| r IH | c r Hp IH] using cleanText_cases.
  - done.
  - rewrite cleanText_marker. simpl. lia.
  - rewrite cleanText_other by done. simpl. lia.
Qed.

Lemma cleanText_containsByte (c : ascii) (s : string) :
  Spec.containsByte c s = false → Spec.containsByte c (cleanText s) = false.
Proof.
  induction s as [| r IH | x r Hp IH] using cleanText_cases.
  - done.
  - rewrite cleanText_marker. cbn [Spec.containsByte].
    intros Hc. apply orb_false_iff in Hc as [_ Hc].
    apply orb_false_iff in Hc as [_ Hc]. by apply IH.
  - rewrite cleanText_other by done. cbn [Spec.containsByte].
    intros Hc. apply orb_false_iff in Hc as [Hx Hc].
    by rewrite Hx, IH.
Qed.

Lemma getDisplayLength_cleanText (s : string) :
  getDisplayLength (cleanText s) = getDisplayLength s.
Proof. unfold getDisplayLength. by rewrite cleanText_idempotent. Qed.

Lemma formatCellContent_cleanText (s : string) (w : Z) (a : AlignmentType) :
  formatCellContent (cleanText s) w a = formatCellContent s w a.
Proof.
  unfold formatCellContent.
  by rewrite getDisplayLength_cleanText, cleanText_idempotent.
Qed.

(** X1: [cleanText] removes every emphasis marker: its result holds no marker,
    so that cleaning twice is cleaning once and the display length of a
    cleaned text is the display length of the text; a text without marker
    is returned as it is; the result is never longer than the text and
    holds no byte the text does not hold. *)
Theorem cleanText_removes_every_marker (text : string) :
  Spec.occurrences "**" (cleanText text) = 0%nat
  ∧ cleanText (cleanText text) = cleanText text
  ∧ getDisplayLength (cleanText text) = getDisplayLength text
  ∧ (Spec.occurrences "**" text = 0%nat → cleanText text = text)
  ∧ (String.length (cleanText text) <= String.length text)%nat
  ∧ (∀ c, Spec.containsByte c (cleanText text) = true →
          Spec.containsByte c text = true).
Proof.
  split; [apply cleanText_no_marker |].
  split; [apply cleanText_idempotent |].
  split; [apply getDisplayLength_cleanText |].
  split; [apply cleanText_unmarked |].
  split; [apply cleanText_length |].
  intros c Hc. destruct (Spec.containsByte c text) eqn:Ht; [done |].
  by rewrite cleanText_containsByte in Hc.
Qed.

End CleanText.

(** ** The lines of the grid *)

Section GridLines.
Import Tables Strings.
Context `{StringsToLower}.

Lemma unlines_cons (l : string) (ls : list string) :
  Spec.unlines (l :: ls) = l +:+ newline +:+ Spec.unlines ls.
Proof. cbn [Spec.unlines foldr]. by rewrite string_app_assoc. Qed.

Lemma unlines_nonempty (ls : list string) : ls ≠ [] → Spec.unlines ls ≠ "".
Proof.
  destruct ls as [|l ls]; [done |]. intros _. rewrite unlines_cons.
  apply string_app_nonempty_r. discriminate.
Qed.

Lemma linesOf_line (l rest : string) :
  Spec.containsByte (ascii_of_nat 10) l = false →
  Spec.linesOf (l +:+ newline +:+ rest) = l :: Spec.linesOf rest.
Proof.
  induction l as [|x l IH]; intros Hc.
  - change ("" +:+ newline +:+ rest) with (String (ascii_of_nat 10) rest).
    cbn [Spec.linesOf]. by rewrite Ascii.eqb_refl.
  - cbn [Spec.containsByte] in Hc. apply orb_false_iff in Hc as [Hx Hl].
    change (String x l +:+ newline +:+ rest)
      with (String x (l +:+ newline +:+ rest)).
    cbn [Spec.linesOf]. by rewrite Hx, (IH Hl).
Qed.

(** A text made of lines that hold no line feed has these lines. *)
Lemma linesOf_unlines (ls : list string) :
  Forall (λ l, Spec.containsByte (ascii_of_nat 10) l = false) ls →
  Spec.linesOf (Spec.unlines ls) = ls.
Proof.
  induction 1 as [|l ls Hl _ IH]; [done |].
  by rewrite unlines_cons, linesOf_line, IH.
Qed.

Lemma Render_nondegenerate (r : ASCIITableRenderer) (config : TableConfig) :
  (1 <= length (Headers config))%nat → (1 <= length (Rows config))%nat →
  Render r config = Spec.unlines (Spec.renderLines r config).
Proof.
  intros Hh Hr. rewrite Render_lines.
  destruct (Nat.eqb_spec (length (Rows config)) 0); [lia |].
  destruct (Nat.eqb_spec (length (Headers config)) 0); [lia | done].
Qed.

(** X2: The rendered text is empty exactly for a table description without
    rows or without headers: every other description gives a text, whatever
    the style, even one whose glyphs are all empty. *)
Theorem render_is_empty_only_for_degenerate_tables (r : ASCIITableRenderer)
    (config : TableConfig) :
  Render r config = "" ↔ Rows config = [] ∨ Headers config = [].
Proof.
  rewrite Render_lines. split.
  - destruct (Rows config) as [|row rows]; [by left |].
    destruct (Headers config) as [|h hs]; [by right |].
    cbn [length Nat.eqb orb]. intros Hempty.
    by apply unlines_nonempty in Hempty.
  - by intros [-> | ->]; [| rewrite orb_true_r].
Qed.

(** The lines of the data rows: row [k] at index [2k], a separator at
    every odd index. *)
Lemma dataLines_layout (r : ASCIITableRenderer) (config : TableConfig)
    (rows : list (list string)) (i total : nat) :
  total = (i + length rows)%nat →
  (length (Spec.dataLines r config total i rows) + 1 = 2 * length rows
   ∨ rows = [])%nat
  ∧ (∀ k row, rows !! k = Some row →
       Spec.dataLines r config total i rows !! (2 * k)%nat
       = Some (Spec.dataLine r config row))
  ∧ (∀ k, (k + 1 < length rows)%nat →
       Spec.dataLines r config total i rows !! (2 * k + 1)%nat
       = Some (Spec.separatorLine r config)).
Proof.
  revert i. induction rows as [|row rest IH]; intros i Htotal.
  - split; [by right |]. split; [done |]. simpl. lia.
  - cbn [Spec.dataLines].
    destruct (IH (S i)) as (IHlen & IHrow & IHsep); [simpl in Htotal; lia |].
    destruct rest as [|row' rest'].
    + destruct (Z.ltb_spec (Z.of_nat i) (Z.of_nat total - 1));
        [simpl in Htotal; lia |].
      split; [by left |]. split.
      * intros [|k] row0 Hk; [by injection Hk as <- | done].
      * simpl. lia.
    + destruct (Z.ltb_spec (Z.of_nat i) (Z.of_nat total - 1));
        [| simpl in Htotal; lia].
      destruct IHlen as [IHlen | ?]; [| done].
      split; [left; simpl in *; lia |]. split.
      * intros [|k] row0 Hk; [by injection Hk as <- |].
        replace (2 * S k)%nat with (S (S (2 * k))) by lia.
        by apply IHrow.
      * intros [|k] Hk; [done |].
        replace (2 * S k + 1)%nat with (S (S (2 * k + 1))) by lia.
        apply IHsep. simpl in Hk. simpl. lia.
Qed.

Lemma writeRulers_pieces (r : ASCIITableRenderer) (join : string)
    (colWidths : list Z) :
  writeRulers r join colWidths ""
  = concatStrings (imap (Spec.rulerPiece r join (length colWidths)) colWidths).
Proof.
  unfold writeRulers.
  rewrite (forRange_builder _ (Spec.rulerPiece r join (length colWidths))).
  - done.
  - intros res' i x. unfold Spec.rulerPiece. case_match;
      by rewrite ?string_app_assoc, ?string_app_nil_r.
Qed.

Lemma Forall_imap_intro {A B : Type} (P : B → Prop) (f : nat → A → B) (l : list A) :
  (∀ i x, l !! i = Some x → P (f i x)) → Forall P (imap f l).
Proof.
  intros Hf. apply Forall_forall. intros y Hy.
  apply list_elem_of_lookup in Hy as [i Hi].
  rewrite list_lookup_imap in Hi.
  destruct (l !! i) as [x|] eqn:Hx; [| done].
  injection Hi as <-. by apply Hf.
Qed.

Lemma borderLine_containsByte (c : ascii) (r : ASCIITableRenderer)
    (left join right : string) (colWidths : list Z) :
  Spec.containsByte c left = false → Spec.containsByte c join = false →
  Spec.containsByte c right = false →
  Spec.containsByte c (Horizontal (Style r)) = false →
  Spec.containsByte c (Spec.borderLine r left join right colWidths) = false.
Proof.
  intros Hl Hj Hr Hh. unfold Spec.borderLine.
  rewrite !containsByte_app, Hl, Hr, writeRulers_pieces.
  rewrite containsByte_concat; [done |].
  apply Forall_imap_intro. intros i w _. unfold Spec.rulerPiece.
  rewrite containsByte_app. unfold Repeat.
  rewrite containsByte_repeatNat by done. by case_match.
Qed.

Lemma rowLine_containsByte (c : ascii) (v : string) (cells : list string) :
  Spec.containsByte c v = false →
  Forall (λ cell, Spec.containsByte c cell = false) cells →
  Spec.containsByte c (Spec.rowLine v cells) = false.
Proof.
  intros Hv Hcells. rewrite rowLine_concat, containsByte_app, Hv.
  rewrite containsByte_concat; [done |].
  apply Forall_fmap. eapply Forall_impl; [exact Hcells |].
  intros cell Hcell. simpl. by rewrite containsByte_app, Hcell, Hv.
Qed.

Lemma formattedCells_containsByte (c : ascii) (config : TableConfig)
    (colWidths : list Z) (cells : list string) :
  Spec.containsByte c " " = false →
  Forall (λ cell, Spec.containsByte c cell = false) cells →
  Forall (λ cell, Spec.containsByte c cell = false)
    (Spec.formattedCells config colWidths cells).
Proof.
  intros Hsp Hcells. apply Forall_forall. intros fc Hfc.
  apply list_elem_of_lookup in Hfc as [i Hi].
  apply formattedCells_lookup in Hi as (cell & w & Hcell & _ & ->).
  destruct (formatCellContent_shape cell w (getColumnAlignment config i))
    as (lead & trail & _ & _ & -> & _).
  rewrite !containsByte_app, !containsByte_repeatNat by done.
  rewrite cleanText_containsByte; [done |].
  rewrite Forall_forall in Hcells. apply Hcells.
  by apply list_elem_of_lookup_2 in Hcell.
Qed.

(** No line of the grid holds the byte [c], when no glyph of the style, no
    header and no cell does, and [c] is not the space. *)
Lemma renderLines_containsByte (c : ascii) (r : ASCIITableRenderer)
    (config : TableConfig) :
  Spec.containsByte c " " = false →
  Forall (λ g, Spec.containsByte c g = false) (Spec.glyphTexts (Style r)) →
  Forall (λ cell, Spec.containsByte c cell = false) (Spec.allCells config) →
  Forall (λ l, Spec.containsByte c l = false) (Spec.renderLines r config).
Proof.
  intros Hsp Hglyphs Hcells.
  unfold Spec.glyphTexts in Hglyphs.
  repeat (apply Forall_cons in Hglyphs as [? Hglyphs]).
  unfold Spec.allCells in Hcells. apply Forall_app in Hcells as [Hhead Hrows].
  assert (Hsep : Spec.containsByte c (Spec.separatorLine r config) = false).
  { by apply borderLine_containsByte. }
  assert (Hrow : ∀ row, row ∈ Rows config →
            Spec.containsByte c (Spec.dataLine r config row) = false).
  { intros row Hin. rewrite dataLine_rowLine.
    apply rowLine_containsByte; [done |].
    apply formattedCells_containsByte; [done |].
    apply Forall_concat in Hrows. rewrite Forall_forall in Hrows.
    by apply Hrows. }
  unfold Spec.renderLines. cbv zeta.
  apply Forall_app. split.
  { apply Forall_cons. split; [by apply borderLine_containsByte |].
    apply Forall_cons. split; [| by apply Forall_singleton].
    rewrite headerLine_rowLine. apply rowLine_containsByte; [done |].
    by apply formattedCells_containsByte. }
  apply Forall_app. split.
  2:{ apply Forall_singleton. by apply borderLine_containsByte. }
  assert (Hdata : ∀ rows total i,
            (∀ row, row ∈ rows →
               Spec.containsByte c (Spec.dataLine r config row) = false) →
            Forall (λ l, Spec.containsByte c l = false)
              (Spec.dataLines r config total i rows)).
  { induction rows as [|row rows IH]; intros total i Hin; [constructor |].
    cbn [Spec.dataLines]. apply Forall_cons. split.
    { apply Hin. apply list_elem_of_here. }
    apply Forall_app. split.
    - case_match; [by apply Forall_singleton | constructor].
    - apply IH. intros row' Hin'. apply Hin. by apply list_elem_of_further. }
  by apply Hdata.
Qed.

(** X3: The layout of the rendered text of a table with headers and [n] rows,
    when no glyph, header or cell holds a line feed: [2n + 3] lines, the top
    border, the header row, then a separator before every data row, and the
    bottom border; data row [k] is line [2k + 3]. *)
Theorem rendered_text_line_layout (r : ASCIITableRenderer) (config : TableConfig) :
  (1 <= length (Headers config))%nat → (1 <= length (Rows config))%nat →
  Forall (λ g, Spec.containsByte (ascii_of_nat 10) g = false)
    (Spec.glyphTexts (Style r)) →
  Forall (λ cell, Spec.containsByte (ascii_of_nat 10) cell = false)
    (Spec.allCells config) →
  let n := length (Rows config) in
  let ls := Spec.linesOf (Render r config) in
  let cw := calculateColumnWidths config in
  let st := Style r in
  length ls = (2 * n + 3)%nat
  ∧ ls !! 0%nat
    = Some (Spec.borderLine r (TopLeft st) (TopJoin st) (TopRight st) cw)
  ∧ ls !! 1%nat = Some (Spec.headerLine r config)
  ∧ (∀ k, (k < n)%nat →
       ls !! (2 * k + 2)%nat = Some (Spec.separatorLine r config))
  ∧ (∀ k row, Rows config !! k = Some row →
       ls !! (2 * k + 3)%nat = Some (Spec.dataLine r config row))
  ∧ ls !! (2 * n + 2)%nat
    = Some (Spec.borderLine r (BottomLeft st) (BottomJoin st) (BottomRight st) cw).
Proof.
  intros Hh Hr Hglyphs Hcells n ls cw st.
  assert (Hls : ls = Spec.renderLines r config).
  { unfold ls. rewrite Render_nondegenerate by done.
    apply linesOf_unlines. by apply renderLines_containsByte. }
  rewrite Hls. unfold Spec.renderLines. cbv zeta. fold n cw st.
  destruct (dataLines_layout r config (Rows config) 0 n eq_refl)
    as (Hlen & Hrow & Hsep).
  destruct Hlen as [Hlen | Hnil]; [| rewrite Hnil in Hr; simpl in Hr; lia].
  fold n in Hlen, Hsep.
  set (D := Spec.dataLines r config n 0 (Rows config)) in *.
  split; [rewrite !length_app; simpl; lia |].
  split; [done |]. split; [done |]. split; [| split].
  - intros [|k] Hk; [done |].
    replace (2 * S k + 2)%nat with (3 + (2 * k + 1))%nat by lia.
    rewrite lookup_app_r by (simpl; lia).
    replace (3 + (2 * k + 1) - length [_; _; _])%nat with (2 * k + 1)%nat
      by (simpl; lia).
    rewrite lookup_app_l by lia. apply Hsep. lia.
  - intros k row Hk.
    replace (2 * k + 3)%nat with (3 + 2 * k)%nat by lia.
    rewrite lookup_app_r by (simpl; lia).
    replace (3 + 2 * k - length [_; _; _])%nat with (2 * k)%nat by (simpl; lia).
    apply lookup_lt_Some in Hk as Hlt. fold n in Hlt.
    rewrite lookup_app_l by lia. by apply Hrow.
  - replace (2 * n + 2)%nat with (3 + (2 * n - 1))%nat by lia.
    rewrite lookup_app_r by (simpl; lia).
    replace (3 + (2 * n - 1) - length [_; _; _])%nat with (length D + 0)%nat
      by (simpl; lia).
    by rewrite lookup_app_r, Nat.add_0_r, Nat.sub_diag by lia.
Qed.

(** A property of every line of the grid: it suffices that the border
    lines and the row lines have it. *)
Lemma renderLines_Forall (P : string → Prop) (r : ASCIITableRenderer)
    (config : TableConfig) :
  (∀ left join right,
     left ∈ Spec.glyphTexts (Style r) → join ∈ Spec.glyphTexts (Style r) →
     right ∈ Spec.glyphTexts (Style r) →
     P (Spec.borderLine r left join right (calculateColumnWidths config))) →
  (∀ cells, cells = Headers config ∨ cells ∈ Rows config →
     P (Spec.rowLine (Vertical (Style r))
          (Spec.formattedCells config (calculateColumnWidths config) cells))) →
  Forall P (Spec.renderLines r config).
Proof.
  intros Hborder' Hrow.
  assert (Hborder : ∀ left join right,
            In left (Spec.glyphTexts (Style r)) →
            In join (Spec.glyphTexts (Style r)) →
            In right (Spec.glyphTexts (Style r)) →
            P (Spec.borderLine r left join right (calculateColumnWidths config))).
  { intros left join right Hl Hj Hr.
    apply Hborder'; by apply list_elem_of_In. }
  clear Hborder'.
  assert (Hdata : ∀ rows total i,
            (∀ row, row ∈ rows → row ∈ Rows config) →
            Forall P (Spec.dataLines r config total i rows)).
  { induction rows as [|row rows IH]; intros total i Hin; [constructor |].
    cbn [Spec.dataLines]. apply Forall_cons. split.
    { rewrite dataLine_rowLine. apply Hrow. right. apply Hin, list_elem_of_here. }
    apply Forall_app. split.
    - case_match; [| constructor].
      apply Forall_singleton, Hborder; simpl; tauto.
    - apply IH. intros row' Hin'. by apply Hin, list_elem_of_further. }
  unfold Spec.renderLines. cbv zeta. apply Forall_app. split.
  { apply Forall_cons. split; [apply Hborder; simpl; tauto |].
    apply Forall_cons. split;
      [| apply Forall_singleton, Hborder; simpl; tauto].
    rewrite headerLine_rowLine. apply Hrow. by left. }
  apply Forall_app. split; [by apply Hdata |].
  apply Forall_singleton, Hborder; simpl; tauto.
Qed.

End GridLines.

(** ** UTF-8: decoding a text that follows a well-formed text *)

Section Utf8Append.
Import Utf8 Strings.

(** What follows a well-formed sequence does not change how it decodes. *)
Lemma decode_app_wellFormed (c0 : ascii) (r0 b : string) :
  wellFormed (DecodeRuneInString (String c0 r0)) = true →
  DecodeRuneInString (String c0 r0 +:+ b) = DecodeRuneInString (String c0 r0).
Proof.
  rewrite !decode_noLen. simpl. unfold decodeNoLen.
  destruct (first (byteZ c0)) as [| |sz lo hi] eqn:Hf; [done | done |].
  destruct r0 as [|c1 r1]; simpl; [intros Hwf; by vm_compute in Hwf |].
  destruct ((byteZ c1 <? lo) || (hi <? byteZ c1)); [done |].
  destruct (Nat.leb sz 2); [done |].
  destruct r1 as [|c2 r2]; simpl; [intros Hwf; by vm_compute in Hwf |].
  destruct ((byteZ c2 <? locb) || (hicb <? byteZ c2)); [done |].
  destruct (Nat.leb sz 3); [done |].
  destruct r2 as [|c3 r3]; simpl; [intros Hwf; by vm_compute in Hwf | done].
Qed.

Lemma decodeFrom_app_valid (s b : string) (k : nat) :
  (k <= String.length s)%nat →
  forallb wellFormed (decodeFrom k s) = true →
  decodeFrom k (s +:+ b) = decodeFrom k s ++ decodeFrom 0 b.
Proof.
  revert k. induction s as [|c0 r0 IH]; intros k Hk Hvalid.
  - simpl in Hk. by replace k with 0%nat by lia.
  - destruct k as [|k].
    + change (decodeFrom 0 (String c0 r0))
        with (DecodeRuneInString (String c0 r0)
              :: decodeFrom ((DecodeRuneInString (String c0 r0)).2 - 1) r0)
        in Hvalid |- *.
      cbn [forallb] in Hvalid. apply andb_true_iff in Hvalid as [Hd Hrest].
      change (decodeFrom 0 (String c0 r0 +:+ b))
        with (DecodeRuneInString (String c0 r0 +:+ b)
              :: decodeFrom ((DecodeRuneInString (String c0 r0 +:+ b)).2 - 1)
                   (r0 +:+ b)).
      rewrite decode_app_wellFormed by done.
      pose proof (decode_nonempty_width c0 r0) as Hw.
      cbn [String.length] in Hw. rewrite IH by (lia || done). done.
    + simpl in Hk. simpl. apply IH; [lia | done].
Qed.

Lemma decodeAll_app_valid (a b : string) :
  ValidString a = true → decodeAll (a +:+ b) = decodeAll a ++ decodeAll b.
Proof. intros Ha. apply decodeFrom_app_valid; [lia | done]. Qed.

(** The number of characters of a text that follows a well-formed text. *)
Lemma runeCount_app_valid (a b : string) :
  ValidString a = true →
  RuneCountInString (a +:+ b) = RuneCountInString a + RuneCountInString b.
Proof.
  intros Ha. unfold RuneCountInString, runes.
  rewrite decodeAll_app_valid by done.
  rewrite !length_fmap, length_app. lia.
Qed.

Lemma ValidString_app_valid (a b : string) :
  ValidString a = true → ValidString (a +:+ b) = ValidString b.
Proof.
  intros Ha. unfold ValidString. rewrite decodeAll_app_valid by done.
  rewrite forallb_app. unfold ValidString in Ha. by rewrite Ha.
Qed.

Lemma ValidString_repeatNat (g : string) (n : nat) :
  ValidString g = true → ValidString (repeatNat g n) = true.
Proof.
  intros Hg. induction n as [|n IH]; [done |].
  cbn [repeatNat]. by rewrite ValidString_app_valid.
Qed.

Lemma runeCount_repeatNat (g : string) (n : nat) :
  ValidString g = true →
  RuneCountInString (repeatNat g n) = Z.of_nat n * RuneCountInString g.
Proof.
  intros Hg. induction n as [|n IH]; [done |].
  cbn [repeatNat]. rewrite runeCount_app_valid by done. lia.
Qed.

Lemma ValidString_concat (l : list string) :
  Forall (λ s, ValidString s = true) l → ValidString (concatStrings l) = true.
Proof.
  induction 1 as [|s l Hs _ IH]; [done |].
  change (concatStrings (s :: l)) with (s +:+ concatStrings l).
  by rewrite ValidString_app_valid.
Qed.

Lemma runeCount_concat (l : list string) :
  Forall (λ s, ValidString s = true) l →
  RuneCountInString (concatStrings l) = Spec.sumZ (RuneCountInString <$> l).
Proof.
  induction 1 as [|s l Hs _ IH]; [done |].
  change (concatStrings (s :: l)) with (s +:+ concatStrings l).
  rewrite runeCount_app_valid by done. rewrite fmap_cons.
  cbn [Spec.sumZ foldr]. unfold Spec.sumZ in IH. lia.
Qed.

End Utf8Append.

(** ** The width of the lines of the grid *)

Section GridWidth.
Import Tables Strings.
Context `{StringsToLower}.

Lemma oneCharacter_spec (g : string) :
  Spec.oneCharacter g = true →
  Utf8.ValidString g = true ∧ Utf8.RuneCountInString g = 1.
Proof.
  unfold Spec.oneCharacter. intros Hg.
  apply andb_true_iff in Hg as [Hv Hc]. split; [done | lia].
Qed.

Lemma sumZ_fmap_add {A : Type} (f : A → Z) (a : Z) (l : list A) :
  Spec.sumZ ((λ c, f c + a) <$> l) = Spec.sumZ (f <$> l) + a * Z.of_nat (length l).
Proof.
  unfold Spec.sumZ. induction l as [|x l IH]; [simpl; lia |].
  rewrite !fmap_cons, length_cons. cbn [foldr]. lia.
Qed.

(** The rulers of a border line: every ruler as wide as its column, and a
    join between two columns. *)
Lemma rulers_width (r : ASCIITableRenderer) (join : string) (n : nat)
    (xs : list Z) (i : nat) :
  n = (i + length xs)%nat →
  Forall (λ w, 0 <= w) xs →
  Spec.oneCharacter (Horizontal (Style r)) = true →
  Spec.oneCharacter join = true →
  Utf8.ValidString
    (concatStrings (imap (λ k, Spec.rulerPiece r join n (i + k)) xs)) = true
  ∧ Utf8.RuneCountInString
      (concatStrings (imap (λ k, Spec.rulerPiece r join n (i + k)) xs))
    + match xs with [] => 0 | _ => 1 end
    = Spec.sumZ xs + Z.of_nat (length xs).
Proof.
  intros Hn Hxs Hh Hj.
  apply oneCharacter_spec in Hh as [Hhv Hhc].
  apply oneCharacter_spec in Hj as [Hjv Hjc].
  revert i Hn. induction Hxs as [|x xs Hx _ IH]; intros i Hn; [done |].
  rewrite imap_cons.
  change (concatStrings (?p :: ?l)) with (p +:+ concatStrings l).
  rewrite (imap_ext _ (λ k, Spec.rulerPiece r join n (S i + k)) xs).
  2:{ intros k y _. simpl. f_equal. lia. }
  destruct (IH (S i)) as [IHv IHc]; [simpl in Hn; lia |].
  set (rest := concatStrings (imap (λ k, Spec.rulerPiece r join n (S i + k)) xs)) in *.
  assert (Hpv : Utf8.ValidString (Spec.rulerPiece r join n (i + 0) x) = true).
  { unfold Spec.rulerPiece, Repeat.
    rewrite ValidString_app_valid by by apply ValidString_repeatNat.
    by destruct (Z.of_nat (i + 0) <? Z.of_nat n - 1). }
  split; [by rewrite ValidString_app_valid |].
  rewrite runeCount_app_valid by done.
  unfold Spec.rulerPiece at 1. unfold Repeat.
  rewrite runeCount_app_valid by by apply ValidString_repeatNat.
  rewrite runeCount_repeatNat by done.
  cbn [Spec.sumZ foldr length]. fold (Spec.sumZ xs).
  destruct xs as [|x' xs'].
  - destruct (Z.ltb_spec (Z.of_nat (i + 0)) (Z.of_nat n - 1));
      [simpl in Hn; lia |].
    change (Utf8.RuneCountInString "") with 0.
    unfold rest. simpl. change (Utf8.RuneCountInString "") with 0. lia.
  - destruct (Z.ltb_spec (Z.of_nat (i + 0)) (Z.of_nat n - 1));
      [| simpl in Hn; lia].
    lia.
Qed.

Lemma borderLine_width (r : ASCIITableRenderer) (left join right : string)
    (colWidths : list Z) :
  Spec.oneCharacter left = true → Spec.oneCharacter join = true →
  Spec.oneCharacter right = true →
  Spec.oneCharacter (Horizontal (Style r)) = true →
  colWidths ≠ [] → Forall (λ w, 0 <= w) colWidths →
  Spec.displayWidth (Spec.borderLine r left join right colWidths)
  = Spec.sumZ colWidths + Z.of_nat (length colWidths) + 1.
Proof.
  intros Hl Hj Hr Hh Hne Hcw.
  set (W := concatStrings
              (imap (Spec.rulerPiece r join (length colWidths)) colWidths)).
  assert (Utf8.ValidString W = true
          ∧ Utf8.RuneCountInString W + match colWidths with [] => 0 | _ => 1 end
            = Spec.sumZ colWidths + Z.of_nat (length colWidths)) as [Hv Hc].
  { exact (rulers_width r join (length colWidths) colWidths 0 eq_refl Hcw Hh Hj). }
  apply oneCharacter_spec in Hl as [Hlv Hlc].
  apply oneCharacter_spec in Hr as [Hrv Hrc].
  unfold Spec.displayWidth, Spec.borderLine.
  rewrite writeRulers_pieces. fold W.
  rewrite !runeCount_app_valid by done.
  destruct colWidths; [done | lia].
Qed.

(** The width of a row line: the delimiter, then every cell and the
    delimiter. *)
Lemma rowLine_width (v : string) (cells : list string) :
  Utf8.ValidString v = true → Forall Spec.spaced cells →
  Spec.displayWidth (Spec.rowLine v cells)
  = Utf8.RuneCountInString v
    + Spec.sumZ ((λ c, Utf8.RuneCountInString c + Utf8.RuneCountInString v)
                   <$> cells).
Proof.
  intros Hv Hcells. unfold Spec.displayWidth, Spec.rowLine.
  rewrite runeCount_app_valid by done. f_equal.
  induction Hcells as [|c cells [_ [y Hy]] _ IH]; [done |].
  rewrite fmap_cons. cbn [foldr Spec.sumZ]. fold (Spec.sumZ).
  set (T := foldr (λ cell acc, (cell +:+ v) +:+ acc) "" cells) in *.
  assert (Hc : Utf8.RuneCountInString c = Utf8.RuneCountInString y + 1).
  { rewrite Hy. rewrite runeCount_app_ascii by apply space_ascii.
    change (Utf8.RuneCountInString "") with 0. lia. }
  rewrite Hy at 1. rewrite !string_app_assoc.
  change (" " +:+ v +:+ T) with (String " "%char (v +:+ T)).
  rewrite runeCount_app_ascii by apply space_ascii.
  rewrite runeCount_app_valid by done.
  unfold Spec.sumZ in *. lia.
Qed.

Lemma formattedCells_all_spaced (config : TableConfig) (colWidths : list Z)
    (cells : list string) :
  Forall Spec.spaced (Spec.formattedCells config colWidths cells).
Proof.
  apply Forall_forall. intros fc Hfc.
  apply list_elem_of_lookup in Hfc as [i Hi].
  apply formattedCells_lookup in Hi as (cell & w & _ & _ & ->).
  destruct (formatCellContent_shape cell w (getColumnAlignment config i))
    as (lead & trail & Hl & Ht & -> & _).
  by apply spaced_padded.
Qed.

(** The formatted cells of the headers, or of a row that has a cell for
    every header, are as wide as the columns. *)
(** The formatted cells of the headers or of a row are as wide as the
    columns they fall into. *)
Lemma formattedCells_widths (config : TableConfig) (cells : list string) :
  cells = Headers config ∨ cells ∈ Rows config →
  Spec.displayWidth
    <$> Spec.formattedCells config (calculateColumnWidths config) cells
  = take (length cells) (calculateColumnWidths config).
Proof.
  intros Hcells. apply list_eq. intros i.
  rewrite list_lookup_fmap.
  destruct (Spec.formattedCells config (calculateColumnWidths config) cells !! i)
    as [fc|] eqn:Hfc.
  - rewrite lookup_take_lt.
    + by rewrite (formattedCell_width config cells i fc Hcells Hfc).
    + apply lookup_lt_Some in Hfc. rewrite formattedCells_length in Hfc. lia.
  - apply lookup_ge_None in Hfc. rewrite formattedCells_length in Hfc.
    symmetry. apply lookup_ge_None. rewrite length_take. lia.
Qed.

Lemma formatted_rowLine_width (r : ASCIITableRenderer) (config : TableConfig)
    (cells : list string) :
  Spec.oneCharacter (Vertical (Style r)) = true →
  cells = Headers config ∨ cells ∈ Rows config →
  Spec.displayWidth
    (Spec.rowLine (Vertical (Style r))
       (Spec.formattedCells config (calculateColumnWidths config) cells))
  = Spec.sumZ (take (length cells) (calculateColumnWidths config))
    + Z.of_nat (length cells `min` length (Headers config)) + 1.
Proof.
  intros Hv Hcells. apply oneCharacter_spec in Hv as [Hvv Hvc].
  rewrite rowLine_width; [| done | apply formattedCells_all_spaced].
  rewrite Hvc, sumZ_fmap_add.
  change (Utf8.RuneCountInString <$> ?l) with (Spec.displayWidth <$> l).
  rewrite formattedCells_widths by done.
  rewrite formattedCells_length, calculateColumnWidths_length. lia.
Qed.

(** X4: The grid is rectangular.  Under a style whose glyphs are one character
    each, for a table with headers and rows, the border lines, the
    separators and the header row have the same display width: the sum of
    the column widths, one delimiter per column and one more.  The line of
    a data row with [k] cells is as wide as the first [min k N] columns,
    their delimiters and one more: as wide as the other lines when the row
    has a cell for every header, and narrower otherwise.  So, when every
    row has a cell for every header, all the lines of the grid have the
    same width; when no glyph, header or cell holds a line feed, they are
    the lines of the rendered text. *)
Theorem rendered_lines_have_the_same_width (r : ASCIITableRenderer)
    (config : TableConfig) :
  (1 <= length (Headers config))%nat → (1 <= length (Rows config))%nat →
  Forall (λ g, Spec.oneCharacter g = true) (Spec.glyphTexts (Style r)) →
  let cw := calculateColumnWidths config in
  let N := length (Headers config) in
  let width := Spec.sumZ cw + Z.of_nat N + 1 in
  Render r config = Spec.unlines (Spec.renderLines r config)
  ∧ (∀ left join right,
       left ∈ Spec.glyphTexts (Style r) → join ∈ Spec.glyphTexts (Style r) →
       right ∈ Spec.glyphTexts (Style r) →
       Spec.displayWidth (Spec.borderLine r left join right cw) = width)
  ∧ Spec.displayWidth (Spec.headerLine r config) = width
  ∧ (∀ row, row ∈ Rows config →
       Spec.displayWidth (Spec.dataLine r config row)
       = Spec.sumZ (take (length row) cw) + Z.of_nat (length row `min` N) + 1
       ∧ ((N <= length row)%nat →
          Spec.displayWidth (Spec.dataLine r config row) = width)
       ∧ ((length row < N)%nat →
          Spec.displayWidth (Spec.dataLine r config row) < width))
  ∧ (Forall (λ row, (N <= length row)%nat) (Rows config) →
     Forall (λ l, Spec.displayWidth l = width) (Spec.renderLines r config)
     ∧ (Forall (λ g, Spec.containsByte (ascii_of_nat 10) g = false)
          (Spec.glyphTexts (Style r)) →
        Forall (λ cell, Spec.containsByte (ascii_of_nat 10) cell = false)
          (Spec.allCells config) →
        Forall (λ l, Spec.displayWidth l = width)
          (Spec.linesOf (Render r config)))).
Proof.
  intros Hh Hr Hglyphs cw N width.
  assert (Hrender : Render r config = Spec.unlines (Spec.renderLines r config))
    by by apply Render_nondegenerate.
  rewrite Forall_forall in Hglyphs.
  assert (HV : Spec.oneCharacter (Vertical (Style r)) = true).
  { apply Hglyphs, list_elem_of_In. simpl. tauto. }
  assert (HH : Spec.oneCharacter (Horizontal (Style r)) = true).
  { apply Hglyphs, list_elem_of_In. simpl. tauto. }
  assert (Hne : cw ≠ []).
  { intros Hnil. apply (f_equal length) in Hnil. unfold cw in Hnil.
    rewrite calculateColumnWidths_length in Hnil. simpl in Hnil. lia. }
  assert (Hpos : Forall (λ w, 0 <= w) cw).
  { eapply Forall_impl; [apply calculateColumnWidths_ge_2 |].
    intros w Hw. simpl in Hw. lia. }
  assert (Hborder : ∀ left join right,
            left ∈ Spec.glyphTexts (Style r) → join ∈ Spec.glyphTexts (Style r) →
            right ∈ Spec.glyphTexts (Style r) →
            Spec.displayWidth (Spec.borderLine r left join right cw) = width).
  { intros left join right Hl Hj Hri.
    rewrite borderLine_width by (done || by apply Hglyphs).
    unfold cw. by rewrite calculateColumnWidths_length. }
  assert (Hrow : ∀ cells, cells = Headers config ∨ cells ∈ Rows config →
            Spec.displayWidth
              (Spec.rowLine (Vertical (Style r))
                 (Spec.formattedCells config cw cells))
            = Spec.sumZ (take (length cells) cw)
              + Z.of_nat (length cells `min` N) + 1)
    by (intros cells Hcells; by apply formatted_rowLine_width).
  assert (Hfull : ∀ cells, cells = Headers config ∨ cells ∈ Rows config →
            (N <= length cells)%nat →
            Spec.displayWidth
              (Spec.rowLine (Vertical (Style r))
                 (Spec.formattedCells config cw cells))
            = width).
  { intros cells Hcells Hlen. rewrite Hrow by done.
    rewrite take_ge by (unfold cw; rewrite calculateColumnWidths_length; done).
    unfold width. lia. }
  assert (Hshort : ∀ (k : nat), (k < N)%nat →
            Spec.sumZ (take k cw) + Z.of_nat k < Spec.sumZ cw + Z.of_nat N).
  { intros k Hk. rewrite <- (take_drop k cw) at 2.
    assert (Hsum : ∀ l1 l2, Spec.sumZ (l1 ++ l2) = Spec.sumZ l1 + Spec.sumZ l2).
    { intros l1 l2. unfold Spec.sumZ.
      induction l1 as [|x l1 IH]; simpl; [done | lia]. }
    rewrite Hsum.
    assert (Hdrop : 0 <= Spec.sumZ (drop k cw)).
    { assert (Hd : Forall (λ w, 0 <= w) (drop k cw)) by by apply Forall_drop.
      unfold Spec.sumZ. induction Hd as [|x l Hx _ IH]; simpl; lia. }
    lia. }
  split; [done |]. split; [done |].
  split; [rewrite headerLine_rowLine; by apply Hfull; [left |] |].
  split.
  { intros row Hin. rewrite dataLine_rowLine. fold cw.
    split; [by apply Hrow; right |].
    split; [by apply Hfull; right |].
    intros Hlt. rewrite Hrow by by right.
    rewrite Nat.min_l by lia. unfold width.
    pose proof (Hshort (length row) Hlt). lia. }
  intros Hall.
  assert (Hlines : Forall (λ l, Spec.displayWidth l = width)
                     (Spec.renderLines r config)).
  { rewrite Forall_forall in Hall. apply renderLines_Forall.
    - by apply Hborder.
    - intros cells Hcells. apply Hfull; [done |].
      destruct Hcells as [-> | Hin]; [done | by apply Hall]. }
  split; [done |].
  intros Hnl1 Hnl2. rewrite Hrender, linesOf_unlines; [done |].
  by apply renderLines_containsByte.
Qed.

End GridWidth.

(** ** Emphasis markers and the grid *)

Section GridMarkers.
Import Tables Strings.
Context `{StringsToLower}.

Lemma occurrences_marker_free (s : string) :
  Spec.containsByte "*" s = false → Spec.occurrences "**" s = 0%nat.
Proof.
  induction s as [|c s IH]; [done |].
  cbn [Spec.containsByte Spec.occurrences]. intros Hc.
  apply orb_false_iff in Hc as [Hc Hs].
  rewrite prefix_marker, Ascii.eqb_sym, Hc, IH by done. done.
Qed.

Lemma occurrences_marker_app_free (a b : string) :
  Spec.containsByte "*" a = false →
  Spec.occurrences "**" (a +:+ b) = Spec.occurrences "**" b.
Proof.
  induction a as [|c a IH]; [done |].
  cbn [Spec.containsByte]. intros Hc. apply orb_false_iff in Hc as [Hc Ha].
  change (String c a +:+ b) with (String c (a +:+ b)).
  cbn [Spec.occurrences].
  rewrite prefix_marker, Ascii.eqb_sym, Hc, IH by done. done.
Qed.

Lemma occurrences_marker_rowLine (v : string) (cells : list string) :
  Spec.containsByte "*" v = false →
  Forall (λ c, Spec.spaced c ∧ Spec.occurrences "**" c = 0%nat) cells →
  Spec.occurrences "**" (Spec.rowLine v cells) = 0%nat.
Proof.
  intros Hv Hcells. unfold Spec.rowLine.
  rewrite occurrences_marker_app_free by done.
  induction Hcells as [|c cells [[_ [y Hy]] H0] _ IH]; [done |].
  cbn [foldr].
  set (T := foldr (λ cell acc, (cell +:+ v) +:+ acc) "" cells) in *.
  assert (Hy0 : Spec.occurrences "**" y = 0%nat).
  { rewrite Hy in H0.
    rewrite occurrences_app_stop, occurrences_nil in H0 by done. lia. }
  rewrite Hy, !string_app_assoc.
  change (" " +:+ v +:+ T) with (String " "%char (v +:+ T)).
  rewrite occurrences_app_stop by done.
  rewrite occurrences_marker_app_free by done. lia.
Qed.

Lemma occurrences_unlines (v : string) (ls : list string) :
  v ≠ "" → Spec.containsByte (ascii_of_nat 10) v = false →
  Forall (λ l, Spec.occurrences v l = 0%nat) ls →
  Spec.occurrences v (Spec.unlines ls) = 0%nat.
Proof.
  intros Hv Hnl. induction 1 as [|l ls Hl _ IH]; [by apply occurrences_nil |].
  rewrite unlines_cons.
  change (newline +:+ Spec.unlines ls)
    with (String (ascii_of_nat 10) (Spec.unlines ls)).
  rewrite occurrences_app_stop by done. lia.
Qed.

Lemma Render_no_marker (r : ASCIITableRenderer) (config : TableConfig) :
  Forall (λ g, Spec.containsByte "*" g = false) (Spec.glyphTexts (Style r)) →
  Spec.occurrences "**" (Render r config) = 0%nat.
Proof.
  intros Hglyphs. rewrite Render_lines. case_match; [done |].
  apply occurrences_unlines; [done | done |].
  rewrite Forall_forall in Hglyphs.
  apply renderLines_Forall.
  - intros left join right Hl Hj Hr.
    apply occurrences_marker_free, borderLine_containsByte; apply Hglyphs;
      try done; apply list_elem_of_In; simpl; tauto.
  - intros cells Hcells. apply occurrences_marker_rowLine.
    + apply Hglyphs, list_elem_of_In. simpl. tauto.
    + apply formattedCells_spaced; [done | done |].
      intros cell _. apply cleanText_no_marker.
Qed.

(** X5: The rendered text holds no emphasis marker, whatever the headers and
    the cells, when no glyph of the style holds a star: [Render] writes
    every header and every cell without its markers. *)
Theorem rendered_text_has_no_marker (r : ASCIITableRenderer) (config : TableConfig) :
  Forall (λ g, Spec.containsByte "*" g = false) (Spec.glyphTexts (Style r)) →
  Spec.occurrences "**" (Render r config) = 0%nat.
Proof. apply Render_no_marker. Qed.

Lemma columnCells_fmap (f : string → string) (rows : list (list string)) (i : nat) :
  Spec.columnCells (fmap (M := list) f <$> rows) i = f <$> Spec.columnCells rows i.
Proof.
  induction rows as [|row rows IH]; [done |].
  rewrite fmap_cons, !columnCells_cons, list_lookup_fmap.
  destruct (row !! i); simpl; by rewrite IH.
Qed.

Lemma calculateColumnWidths_withoutMarkers (config : TableConfig) :
  calculateColumnWidths (Spec.withoutMarkers config) = calculateColumnWidths config.
Proof.
  apply list_eq. intros i.
  destruct (Headers config !! i) as [h|] eqn:Hh.
  - rewrite (calculateColumnWidths_lookup config i h Hh).
    rewrite (calculateColumnWidths_lookup _ i (cleanText h)).
    2:{ cbn [Spec.withoutMarkers Headers]. by rewrite list_lookup_fmap, Hh. }
    cbn [Spec.withoutMarkers Rows]. unfold Spec.maxDisplayLength.
    rewrite columnCells_fmap, getDisplayLength_cleanText, <- list_fmap_compose.
    do 3 f_equal. apply list_fmap_ext. intros k x _. simpl.
    apply getDisplayLength_cleanText.
  - apply lookup_ge_None in Hh.
    rewrite !(proj2 (lookup_ge_None _ _)); [done | |];
      rewrite calculateColumnWidths_length;
      cbn [Spec.withoutMarkers Headers]; rewrite ?length_fmap; done.
Qed.

Lemma formattedCells_withoutMarkers (config : TableConfig) (colWidths : list Z)
    (cells : list string) :
  Spec.formattedCells (Spec.withoutMarkers config) colWidths (cleanText <$> cells)
  = Spec.formattedCells config colWidths cells.
Proof.
  unfold Spec.formattedCells. rewrite <- fmap_take, imap_fmap.
  apply imap_ext. intros i cell _. simpl. apply formatCellContent_cleanText.
Qed.

Lemma dataLines_withoutMarkers (r : ASCIITableRenderer) (config : TableConfig)
    (total i : nat) (rows : list (list string)) :
  Spec.dataLines r (Spec.withoutMarkers config) total i
    (fmap (M := list) cleanText <$> rows)
  = Spec.dataLines r config total i rows.
Proof.
  revert i. induction rows as [|row rows IH]; intros i; [done |].
  rewrite fmap_cons. cbn [Spec.dataLines]. rewrite IH.
  unfold Spec.separatorLine. rewrite calculateColumnWidths_withoutMarkers.
  f_equal. rewrite !dataLine_rowLine, calculateColumnWidths_withoutMarkers.
  by rewrite formattedCells_withoutMarkers.
Qed.

(** X6: Emphasis markers do not show in the grid: a table description and the
    same description with the markers removed from every header and every
    cell have the same column widths and the same rendered text. *)
Theorem markers_do_not_change_the_grid (r : ASCIITableRenderer)
    (config : TableConfig) :
  calculateColumnWidths (Spec.withoutMarkers config) = calculateColumnWidths config
  ∧ Render r (Spec.withoutMarkers config) = Render r config.
Proof.
  split; [apply calculateColumnWidths_withoutMarkers |].
  rewrite !Render_lines. cbn [Spec.withoutMarkers Rows Headers].
  rewrite !length_fmap. case_match; [done |]. f_equal.
  unfold Spec.renderLines. cbv zeta.
  rewrite calculateColumnWidths_withoutMarkers.
  cbn [Spec.withoutMarkers Rows]. rewrite length_fmap.
  rewrite dataLines_withoutMarkers.
  unfold Spec.separatorLine. rewrite calculateColumnWidths_withoutMarkers.
  do 2 f_equal.
  rewrite !headerLine_rowLine, calculateColumnWidths_withoutMarkers.
  cbn [Spec.withoutMarkers Headers]. by rewrite formattedCells_withoutMarkers.
Qed.

End GridMarkers.

(** ** Alignment hints *)

Section AlignmentHints.
Import Tables Strings.
Context `{StringsToLower}.

Lemma parseAlignment_values (align : string) :
  parseAlignment align ∈ [AlignLeft; AlignCenter; AlignRight].
Proof.
  unfold parseAlignment. apply list_elem_of_In.
  repeat case_match; simpl; tauto.
Qed.

Lemma formattedCells_alignment (config : TableConfig) (alignment : list string)
    (colWidths : list Z) (cells : list string) :
  (∀ i, (i < length colWidths)%nat →
     getColumnAlignment (Spec.withAlignment config alignment) i
     = getColumnAlignment config i) →
  Spec.formattedCells (Spec.withAlignment config alignment) colWidths cells
  = Spec.formattedCells config colWidths cells.
Proof.
  intros Hal. unfold Spec.formattedCells. apply imap_ext.
  intros i cell Hi. simpl. rewrite Hal; [done |].
  apply lookup_lt_Some in Hi. rewrite length_take in Hi. lia.
Qed.

Lemma Render_alignment (r : ASCIITableRenderer) (config : TableConfig)
    (alignment : list string) :
  (∀ i, (i < length (Headers config))%nat →
     getColumnAlignment (Spec.withAlignment config alignment) i
     = getColumnAlignment config i) →
  Render r (Spec.withAlignment config alignment) = Render r config.
Proof.
  intros Hal.
  assert (Hcells : ∀ cells,
            Spec.formattedCells (Spec.withAlignment config alignment)
              (calculateColumnWidths config) cells
            = Spec.formattedCells config (calculateColumnWidths config) cells).
  { intros cells. apply formattedCells_alignment.
    by rewrite calculateColumnWidths_length. }
  assert (Hdata : ∀ rows total i,
            Spec.dataLines r (Spec.withAlignment config alignment) total i rows
            = Spec.dataLines r config total i rows).
  { induction rows as [|row rows IH]; intros total i; [done |].
    cbn [Spec.dataLines]. rewrite IH. f_equal.
    rewrite !dataLine_rowLine.
    change (calculateColumnWidths (Spec.withAlignment config alignment))
      with (calculateColumnWidths config).
    by rewrite Hcells. }
  rewrite !Render_lines. cbn [Spec.withAlignment Rows Headers].
  case_match; [done |]. f_equal.
  unfold Spec.renderLines. cbv zeta.
  change (calculateColumnWidths (Spec.withAlignment config alignment))
    with (calculateColumnWidths config).
  cbn [Spec.withAlignment Rows]. rewrite Hdata.
  change (Spec.separatorLine r (Spec.withAlignment config alignment))
    with (Spec.separatorLine r config).
  do 2 f_equal. rewrite !headerLine_rowLine.
  change (calculateColumnWidths (Spec.withAlignment config alignment))
    with (calculateColumnWidths config).
  by rewrite Hcells.
Qed.

(** X7: The alignment hints only count column by column: the column widths do
    not depend on them; the rendered text only depends on the alignment
    they give to each column, so that hints beyond the header count are
    ignored; a column without hint is aligned to the left, and every column
    gets one of the three alignments. *)
Theorem alignment_hints_count_per_column (r : ASCIITableRenderer)
    (config : TableConfig) (alignment : list string) :
  let N := length (Headers config) in
  let config' := Spec.withAlignment config alignment in
  calculateColumnWidths config' = calculateColumnWidths config
  ∧ ((∀ i, (i < N)%nat → getColumnAlignment config' i = getColumnAlignment config i) →
     Render r config' = Render r config)
  ∧ (take N alignment = take N (Alignment config) →
     Render r config' = Render r config)
  ∧ (∀ i, (length (Alignment config) <= i)%nat →
       getColumnAlignment config i = AlignLeft)
  ∧ (∀ i, getColumnAlignment config i ∈ [AlignLeft; AlignCenter; AlignRight]).
Proof.
  intros N config'. split; [done |].
  split; [apply Render_alignment |].
  split.
  { intros Htake. apply Render_alignment. intros i Hi.
    unfold getColumnAlignment. cbn [Spec.withAlignment Alignment].
    assert (Hi' : alignment !! i = Alignment config !! i).
    { rewrite <- (lookup_take_lt alignment N i), <- (lookup_take_lt (Alignment config) N i)
        by done.
      by rewrite Htake. }
    by rewrite Hi'. }
  split.
  { intros i Hi. unfold getColumnAlignment.
    by rewrite (proj2 (lookup_ge_None _ _) Hi). }
  intros i. unfold getColumnAlignment.
  destruct (Alignment config !! i); [apply parseAlignment_values |].
  apply list_elem_of_here.
Qed.

End AlignmentHints.

(** ** Registering styles *)

Section RegistryUpdates.
Import Tables Strings.
Context `{StringsToLower}.

(** X8: [RegisterTableStyle] changes the registry at the lower-cased name only:
    the lookup of any other name succeeds as before, with the same style;
    the available types are the former ones and that name, one more than
    before or as many; of two registrations under names with the same
    lower-casing the second replaces the first; registrations under names
    with different lower-casings can be made in either order; registering
    again what is registered changes nothing. *)
Theorem registering_a_style_updates_one_name (styles : gmap string TableStyle)
    (name : string) (style : TableStyle) :
  let styles' := RegisterTableStyle name style styles in
  (∀ tableType, ToLower tableType ≠ ToLower name →
     ∀ r, GetRenderer styles' tableType = inl r
          ↔ GetRenderer styles tableType = inl r)
  ∧ (∀ key, key ∈ getAvailableTypes styles'
            ↔ key = ToLower name ∨ key ∈ getAvailableTypes styles)
  ∧ length (getAvailableTypes styles')
    = (if decide (ToLower name ∈ getAvailableTypes styles)
       then length (getAvailableTypes styles)
       else S (length (getAvailableTypes styles)))
  ∧ (∀ name2 style2, ToLower name2 = ToLower name →
       RegisterTableStyle name2 style2 styles'
       = RegisterTableStyle name2 style2 styles)
  ∧ (∀ name2 style2, ToLower name2 ≠ ToLower name →
       RegisterTableStyle name2 style2 styles'
       = RegisterTableStyle name style (RegisterTableStyle name2 style2 styles))
  ∧ (styles !! ToLower name = Some style → styles' = styles).
Proof.
  intros styles'. unfold styles', RegisterTableStyle. split.
  { intros tableType Hne r. unfold GetRenderer.
    rewrite lookup_insert_ne by done.
    by destruct (styles !! ToLower tableType). }
  split.
  { intros key. rewrite !getAvailableTypes_elem, lookup_insert_is_Some.
    split.
    - intros [<- | [_ Hk]]; [by left | by right].
    - intros [-> | Hk]; [by left |].
      destruct (decide (ToLower name = key)); [by left | by right]. }
  split.
  { unfold getAvailableTypes. rewrite !length_fmap, !length_map_to_list.
    rewrite map_size_insert.
    destruct (decide (ToLower name ∈ (map_to_list styles).*1)) as [Hin | Hnin].
    - apply (getAvailableTypes_elem styles) in Hin as [st Hst]. by rewrite Hst.
    - destruct (styles !! ToLower name) as [st|] eqn:Hst; [| done].
      destruct Hnin. apply (getAvailableTypes_elem styles). by eexists. }
  split.
  { intros name2 style2 ->. apply insert_insert_eq. }
  split.
  { intros name2 style2 Hne. by apply insert_insert_ne. }
  intros Hsame. by apply insert_id.
Qed.

End RegistryUpdates.

(** ** The lines of a text *)

Section SplitLines.
Import Strings.

Lemma prefix_newline (c : ascii) (r : string) :
  String.prefix newline (String c r) = Ascii.eqb (ascii_of_nat 10) c.
Proof.
  unfold newline. rewrite prefix_cons, prefix_nil_l.
  by destruct (Ascii.eqb (ascii_of_nat 10) c).
Qed.

Lemma splitFrom_newline_cons (c : ascii) (r cur : string) :
  splitFrom 0 (String c r) newline cur
  = if Ascii.eqb (ascii_of_nat 10) c then cur :: splitFrom 0 r newline ""
    else splitFrom 0 r newline (cur +:+ String c "").
Proof. cbn [splitFrom]. by rewrite prefix_newline. Qed.

(** What holds of a text and is inherited on both sides of a line feed
    holds of every line of the text. *)
Lemma splitFrom_Forall (P : string → Prop) (s cur : string) :
  (∀ a b, P (a +:+ String (ascii_of_nat 10) b) → P a ∧ P b) →
  P (cur +:+ s) → Forall P (splitFrom 0 s newline cur).
Proof.
  intros HP. revert cur. induction s as [|c r IH]; intros cur Hcur.
  - rewrite string_app_nil_r in Hcur. by apply Forall_singleton.
  - rewrite splitFrom_newline_cons.
    destruct (Ascii.eqb (ascii_of_nat 10) c) eqn:Hc.
    + apply Ascii.eqb_eq in Hc. subst c. apply HP in Hcur as [Ha Hb].
      apply Forall_cons. split; [done |]. by apply IH.
    + apply IH. by rewrite string_app_assoc.
Qed.

Lemma Split_Forall (P : string → Prop) (s : string) :
  (∀ a b, P (a +:+ String (ascii_of_nat 10) b) → P a ∧ P b) →
  P s → Forall P (Split s newline).
Proof. intros HP Hs. by apply splitFrom_Forall. Qed.

Lemma splitFrom_line (l rest cur : string) :
  Spec.containsByte (ascii_of_nat 10) l = false →
  splitFrom 0 (l +:+ newline +:+ rest) newline cur
  = (cur +:+ l) :: splitFrom 0 rest newline "".
Proof.
  revert cur. induction l as [|x l IH]; intros cur Hc.
  - change ("" +:+ newline +:+ rest) with (String (ascii_of_nat 10) rest).
    by rewrite splitFrom_newline_cons, Ascii.eqb_refl, string_app_nil_r.
  - cbn [Spec.containsByte] in Hc. apply orb_false_iff in Hc as [Hx Hl].
    change (String x l +:+ newline +:+ rest)
      with (String x (l +:+ newline +:+ rest)).
    rewrite splitFrom_newline_cons, Ascii.eqb_sym, Hx, (IH _ Hl).
    by rewrite string_app_assoc.
Qed.

(** The lines [strings.Split] finds in a text made of lines that hold no
    line feed: these lines, and the empty text after the last
    terminator. *)
Lemma Split_unlines (ls : list string) :
  Forall (λ l, Spec.containsByte (ascii_of_nat 10) l = false) ls →
  Split (Spec.unlines ls) newline = ls ++ [""].
Proof.
  unfold Split. induction 1 as [|l ls Hl _ IH]; [done |].
  by rewrite unlines_cons, splitFrom_line, IH.
Qed.

End SplitLines.

(** ** The segments of a line without emphasis marker *)

Section UnmarkedLines.
Import Output Strings.

Lemma classify_not_header (t : string) :
  Forall (λ seg, Type_ seg = ASCIIText ∨ Type_ seg = ContentText)
    (classifyTextSegments t asciiChars).
Proof.
  rewrite classifyTextSegments_runs. apply Forall_fmap.
  eapply Forall_impl; [apply runsOf_types |].
  intros g [r Hr]. simpl. rewrite Hr. apply charTypeOf_cases.
Qed.

Lemma emphasisRun_unmarked (s : string) :
  String.prefix "**" s = false → Spec.emphasisRun s = None.
Proof.
  intros Hp. destruct (Spec.emphasisRun s) as [[x rest]|] eqn:He; [| done].
  apply emphasisRun_some in He as [-> _].
  by rewrite prefix_app in Hp.
Qed.

Lemma pieces_unmarked (s : string) :
  Spec.occurrences "**" s = 0%nat →
  Spec.piecesFrom 0 s = match s with "" => [] | _ => [(false, s)] end.
Proof.
  induction s as [|c r IH]; [done |].
  cbn [Spec.occurrences]. intros Hocc.
  destruct (String.prefix "**" (String c r)) eqn:Hp; [lia |].
  cbn [Spec.piecesFrom]. rewrite emphasisRun_unmarked by done.
  rewrite IH by lia. by destruct r.
Qed.

Lemma parseLineSegments_unmarked (line : string) :
  Spec.occurrences "**" line = 0%nat →
  parseLineSegments line = classifyTextSegments line asciiChars.
Proof.
  intros Hocc. rewrite parseLineSegments_pieces. unfold Spec.pieces.
  rewrite pieces_unmarked by done.
  destruct line; [done |].
  cbn [fmap list_fmap concat]. unfold Spec.segmentsOfPiece. simpl.
  apply app_nil_r.
Qed.

(** X9: The segments of a line that holds no emphasis marker are the runs of
    its characters: none is a header segment, and when the line is
    well-formed UTF-8 their texts, one after the other, are the line. *)
Theorem segments_of_a_line_without_marker (line : string) :
  Spec.occurrences "**" line = 0%nat →
  parseLineSegments line = classifyTextSegments line asciiChars
  ∧ Forall (λ seg, Type_ seg = ASCIIText ∨ Type_ seg = ContentText)
      (parseLineSegments line)
  ∧ (Utf8.ValidString line = true →
     Spec.segmentsText (parseLineSegments line) = line).
Proof.
  intros Hocc. rewrite parseLineSegments_unmarked by done.
  split; [done |]. split; [apply classify_not_header |].
  intros Hvalid. by rewrite segmentsText_classify, encodeRunes_valid.
Qed.

End UnmarkedLines.

(** ** Well-formed texts in the grid *)

Section GridValid.
Import Tables Strings.
Context `{StringsToLower}.

Lemma star_split (s : string) :
  Spec.containsByte "*" s = false
  ∨ ∃ a w, s = a +:+ String "*" w ∧ Spec.containsByte "*" a = false.
Proof.
  induction s as [|c s IH]; [by left |].
  destruct (Ascii.eqb c "*") eqn:Hc.
  - apply Ascii.eqb_eq in Hc. subst c. right. by exists "", s.
  - destruct IH as [Hs | (a & w & -> & Ha)].
    + left. cbn [Spec.containsByte]. by rewrite Hc, Hs.
    + right. exists (String c a), w. split; [done |].
      cbn [Spec.containsByte]. by rewrite Hc, Ha.
Qed.

Lemma cleanText_app_free (a x : string) :
  Spec.containsByte "*" a = false → cleanText (a +:+ x) = a +:+ cleanText x.
Proof.
  induction a as [|c a IH]; [done |].
  cbn [Spec.containsByte]. intros Hc. apply orb_false_iff in Hc as [Hc Ha].
  change (String c a +:+ x) with (String c (a +:+ x)).
  rewrite cleanText_other by by rewrite prefix_marker, Ascii.eqb_sym, Hc.
  by rewrite IH.
Qed.

(** Removing the markers of a well-formed text leaves a well-formed
    text. *)
Lemma ValidString_cleanText (s : string) :
  Utf8.ValidString s = true → Utf8.ValidString (cleanText s) = true.
Proof.
  assert (Hn : ∀ n s, (String.length s <= n)%nat →
            Utf8.ValidString s = true → Utf8.ValidString (cleanText s) = true).
  { clear s. induction n as [|n IH]; intros s Hlen Hvalid.
    - destruct s; [done | simpl in Hlen; lia].
    - destruct (star_split s) as [Hfree | (a & w & -> & Ha)].
      { by rewrite cleanText_unmarked by by apply occurrences_marker_free. }
      rewrite ValidString_app_ascii in Hvalid by apply star_ascii.
      apply andb_true_iff in Hvalid as [Hva Hvw].
      rewrite string_length_app in Hlen. cbn [String.length] in Hlen.
      rewrite cleanText_app_free, ValidString_app_valid by done.
      destruct (String.prefix "**" (String "*" w)) eqn:Hp.
      + rewrite prefix_marker in Hp. apply andb_true_iff in Hp as [_ Hp].
        destruct w as [|c w']; [done |].
        rewrite prefix_star in Hp. apply Ascii.eqb_eq in Hp. subst c.
        rewrite cleanText_marker. apply IH; [simpl in Hlen; lia |].
        by rewrite ValidString_ascii_cons in Hvw by apply star_ascii.
      + rewrite cleanText_other by done.
        rewrite ValidString_ascii_cons by apply star_ascii.
        apply IH; [lia | done]. }
  by apply (Hn (String.length s)).
Qed.

Lemma ValidString_spaces (n : nat) : Utf8.ValidString (repeatNat " " n) = true.
Proof. by apply ValidString_repeatNat. Qed.

Lemma ValidString_app_both (a b : string) :
  Utf8.ValidString a = true → Utf8.ValidString b = true →
  Utf8.ValidString (a +:+ b) = true.
Proof. intros Ha Hb. by rewrite ValidString_app_valid. Qed.

Lemma borderLine_valid (r : ASCIITableRenderer) (left join right : string)
    (colWidths : list Z) :
  Utf8.ValidString left = true → Utf8.ValidString join = true →
  Utf8.ValidString right = true →
  Utf8.ValidString (Horizontal (Style r)) = true →
  Utf8.ValidString (Spec.borderLine r left join right colWidths) = true.
Proof.
  intros Hl Hj Hr Hh. unfold Spec.borderLine. rewrite writeRulers_pieces.
  apply ValidString_app_both; [done |].
  apply ValidString_app_both; [| done].
  apply ValidString_concat, Forall_imap_intro. intros i w _.
  unfold Spec.rulerPiece, Repeat.
  apply ValidString_app_both; [by apply ValidString_repeatNat |].
  by destruct (Z.of_nat i <? Z.of_nat (length colWidths) - 1).
Qed.

Lemma rowLine_valid (v : string) (cells : list string) :
  Utf8.ValidString v = true →
  Forall (λ cell, Utf8.ValidString cell = true) cells →
  Utf8.ValidString (Spec.rowLine v cells) = true.
Proof.
  intros Hv Hcells. rewrite rowLine_concat.
  apply ValidString_app_both; [done |].
  apply ValidString_concat, Forall_fmap.
  eapply Forall_impl; [exact Hcells |].
  intros cell Hcell. simpl. by apply ValidString_app_both.
Qed.

Lemma formattedCells_valid (config : TableConfig) (colWidths : list Z)
    (cells : list string) :
  Forall (λ cell, Utf8.ValidString cell = true) cells →
  Forall (λ cell, Utf8.ValidString cell = true)
    (Spec.formattedCells config colWidths cells).
Proof.
  intros Hcells. apply Forall_forall. intros fc Hfc.
  apply list_elem_of_lookup in Hfc as [i Hi].
  apply formattedCells_lookup in Hi as (cell & w & Hcell & _ & ->).
  destruct (formatCellContent_shape cell w (getColumnAlignment config i))
    as (lead & trail & _ & _ & -> & _).
  apply ValidString_app_both; [apply ValidString_spaces |].
  apply ValidString_app_both; [| apply ValidString_spaces].
  apply ValidString_cleanText.
  rewrite Forall_forall in Hcells. apply Hcells.
  by apply list_elem_of_lookup_2 in Hcell.
Qed.

Lemma unlines_valid (ls : list string) :
  Forall (λ l, Utf8.ValidString l = true) ls →
  Utf8.ValidString (Spec.unlines ls) = true.
Proof.
  induction 1 as [|l ls Hl _ IH]; [done |].
  rewrite unlines_cons. apply ValidString_app_both; [done |].
  by apply ValidString_app_both.
Qed.

(** The rendered text of well-formed headers and cells, under a style of
    well-formed glyphs, is well-formed. *)
Lemma Render_valid (r : ASCIITableRenderer) (config : TableConfig) :
  Forall (λ g, Utf8.ValidString g = true) (Spec.glyphTexts (Style r)) →
  Forall (λ cell, Utf8.ValidString cell = true) (Spec.allCells config) →
  Utf8.ValidString (Render r config) = true.
Proof.
  intros Hglyphs Hcells. rewrite Render_lines. case_match; [done |].
  apply unlines_valid.
  rewrite Forall_forall in Hglyphs.
  unfold Spec.allCells in Hcells. apply Forall_app in Hcells as [Hhead Hrows].
  apply Forall_concat in Hrows. rewrite Forall_forall in Hrows.
  apply renderLines_Forall.
  - intros left join right Hl Hj Hr.
    apply borderLine_valid; apply Hglyphs; try done.
    apply list_elem_of_In. simpl. tauto.
  - intros cells Hin. apply rowLine_valid.
    + apply Hglyphs, list_elem_of_In. simpl. tauto.
    + apply formattedCells_valid. destruct Hin as [-> | Hin]; [done |].
      by apply Hrows.
Qed.

End GridValid.

(** ** The bytes the segmenter replaces *)

Section ReplacedBytes.
Import Output Strings Utf8.









End ReplacedBytes.

(** ** From the rendered text to the segments of the picture *)

Section TableSegments.
Import Tables Output Strings.
Context `{StringsToLower} `{StringsTrimSpace}.

Lemma segments_loop (lines : list string) (i : nat)
    (segments : list (list TextSegment)) :
  forRange (λ segments (_ : nat) line,
      if String.eqb (TrimSpace line) "" then segments
      else segments ++ [parseLineSegments line]) i lines segments
  = segments
    ++ (parseLineSegments <$> filter (λ line, TrimSpace line ≠ "") lines).
Proof.
  revert i segments. induction lines as [|line lines IH]; intros i segments.
  - simpl. by rewrite app_nil_r.
  - cbn [forRange]. rewrite IH.
    destruct (String.eqb_spec (TrimSpace line) "") as [Heq | Hne].
    + by rewrite filter_cons_False by (intros ?; done).
    + rewrite filter_cons_True by done.
      by rewrite fmap_cons, <- app_assoc.
Qed.

(** What [GeneratePNG] segments: the lines of the table text that are not
    blank, in their order. *)
Lemma tableSegments_lines (tableText : string) :
  tableSegments tableText
  = parseLineSegments
      <$> filter (λ line, TrimSpace line ≠ "") (Split tableText newline).
Proof. unfold tableSegments. cbv zeta. by rewrite segments_loop. Qed.

(** X11: The emphasis of a cell does not reach the picture.  When no glyph of
    the style holds a star, no line of the rendered text holds a marker, so
    that [GeneratePNG] finds no header segment in it: the segments of every
    line of the rendered text are the runs of its characters; and when the
    glyphs, the headers and the cells are well-formed UTF-8, the texts of
    the segments of a line, one after the other, are the line. *)
Theorem rendered_text_has_no_header_segment (r : ASCIITableRenderer)
    (config : TableConfig) :
  Forall (λ g, Spec.containsByte "*" g = false) (Spec.glyphTexts (Style r)) →
  let tableText := Render r config in
  tableSegments tableText
  = parseLineSegments
      <$> filter (λ line, TrimSpace line ≠ "") (Split tableText newline)
  ∧ Forall (λ line, parseLineSegments line = classifyTextSegments line asciiChars)
      (Split tableText newline)
  ∧ Forall (Forall (λ seg, Type_ seg = ASCIIText ∨ Type_ seg = ContentText))
      (tableSegments tableText)
  ∧ (Forall (λ g, Utf8.ValidString g = true) (Spec.glyphTexts (Style r)) →
     Forall (λ cell, Utf8.ValidString cell = true) (Spec.allCells config) →
     Forall (λ line, Spec.segmentsText (parseLineSegments line) = line)
       (Split tableText newline))
  ∧ ((1 <= length (Headers config))%nat → (1 <= length (Rows config))%nat →
     Forall (λ g, Spec.containsByte (ascii_of_nat 10) g = false)
       (Spec.glyphTexts (Style r)) →
     Forall (λ cell, Spec.containsByte (ascii_of_nat 10) cell = false)
       (Spec.allCells config) →
     Split tableText newline = Spec.renderLines r config ++ [""]).
Proof.
  intros Hglyphs tableText.
  assert (Hunmarked : Forall (λ line, Spec.occurrences "**" line = 0%nat)
                        (Split tableText newline)).
  { apply Split_Forall.
    - intros a b Hab. rewrite occurrences_app_stop in Hab by done. lia.
    - by apply Render_no_marker. }
  split; [apply tableSegments_lines |].
  split.
  { eapply Forall_impl; [exact Hunmarked |].
    intros line Hline. by apply parseLineSegments_unmarked. }
  split.
  { rewrite tableSegments_lines. apply Forall_fmap, Forall_forall.
    intros line Hline. apply list_elem_of_filter in Hline as [_ Hline].
    rewrite Forall_forall in Hunmarked. unfold compose.
    rewrite parseLineSegments_unmarked by by apply Hunmarked.
    apply classify_not_header. }
  split.
  { intros Hvg Hvc.
    assert (Hvalid : Forall (λ line, Utf8.ValidString line = true)
                       (Split tableText newline)).
    { apply Split_Forall.
      - intros a b Hab. rewrite ValidString_app_ascii in Hab by done.
        by apply andb_true_iff in Hab.
      - by apply Render_valid. }
    rewrite Forall_forall in Hunmarked, Hvalid. apply Forall_forall.
    intros line Hline.
    rewrite parseLineSegments_unmarked by by apply Hunmarked.
    rewrite segmentsText_classify, encodeRunes_valid; [done |].
    by apply Hvalid. }
  intros Hh Hr Hnl1 Hnl2. unfold tableText.
  rewrite Render_nondegenerate by done.
  apply Split_unlines. by apply renderLines_containsByte.
Qed.

End TableSegments.

(** ** The picture: where the lines are drawn *)

Section PictureLayout.
Import Output Strings.
Context `{Graphics}.

Lemma int32_small (z : Z) : - 2 ^ 31 <= z < 2 ^ 31 → int32 z = z.
Proof. intros Hz. unfold int32. rewrite Z.mod_small; lia. Qed.

Lemma Ceil_small (x : Z) : 0 <= x → x + 63 < 2 ^ 31 → Ceil x = (x + 63) / 64.
Proof.
  intros H0 Hx. unfold Ceil. rewrite int32_small by lia.
  by rewrite Z.shiftr_div_pow2.
Qed.

Lemma drawLines_drawAll (img : RGBA) (fonts : gmap Z Font) (cfg : PNGConfig)
    (x lh : Z) (segments : list (list TextSegment)) (y : Z) :
  drawLines img fonts cfg x lh segments y
  = Spec.drawAll img (fonts !! ASCIIText) (Size (ASCIIFont cfg))
      (imap (λ k lineSegs, (lineText lineSegs, x, y + Z.of_nat k * lh)) segments).
Proof.
  revert img y. induction segments as [|lineSegs rest IH]; intros img y; [done |].
  rewrite imap_cons. cbn [drawLines Spec.drawAll]. cbv zeta.
  replace (y + Z.of_nat 0 * lh) with y by lia.
  destruct (freetypeDrawString img (fonts !! ASCIIText) (Size (ASCIIFont cfg))
              (lineText lineSegs) x y) as [img' [err|]]; [done |].
  rewrite IH. f_equal. apply imap_ext. intros k ls _. unfold compose.
  f_equal. lia.
Qed.

(** [renderText] makes the draws of the lines, one after the other, until
    one fails. *)
Lemma renderText_draws (img : RGBA) (segments : list (list TextSegment))
    (fonts : gmap Z Font) (cfg : PNGConfig) :
  renderText img segments fonts cfg
  = Spec.drawAll img (fonts !! ASCIIText) (Size (ASCIIFont cfg))
      (Spec.lineDraws segments fonts cfg).
Proof. unfold renderText. cbv zeta. by rewrite drawLines_drawAll. Qed.

(** The loop of [calculateImageDimensions]: the greatest of the initial
    value and of the whole pixels of the advances of the lines. *)
Lemma maxWidth_loop (face : Face) (segments : list (list TextSegment))
    (i : nat) (m : Z) :
  let m' := forRange (λ maxWidth (_ : nat) lineSegs,
                let full := lineText lineSegs in
                let w := fontMeasureString face full in
                if maxWidth <? Z.shiftr w 6 then Z.shiftr w 6 else maxWidth)
              i segments m in
  m <= m'
  ∧ Forall (λ lineSegs,
      Z.shiftr (fontMeasureString face (lineText lineSegs)) 6 <= m') segments
  ∧ (m' = m
     ∨ Exists (λ lineSegs,
         m' = Z.shiftr (fontMeasureString face (lineText lineSegs)) 6) segments).
Proof.
  revert i m. induction segments as [|lineSegs rest IH]; intros i m; cbv zeta.
  - split; [done |]. split; [constructor | by left].
  - cbn [forRange].
    set (w := Z.shiftr (fontMeasureString face (lineText lineSegs)) 6).
    specialize (IH (S i) (if m <? w then w else m)). cbv zeta in IH.
    destruct IH as (Hle & Hall & Hatt).
    set (m' := forRange _ (S i) rest (if m <? w then w else m)) in *.
    destruct (Z.ltb_spec m w).
    + split; [lia |]. split; [apply Forall_cons; split; [lia | done] |].
      right. destruct Hatt as [-> | Hex].
      * by apply Exists_cons_hd.
      * by apply Exists_cons_tl.
    + split; [lia |]. split; [apply Forall_cons; split; [lia | done] |].
      destruct Hatt as [-> | Hex]; [by left | right; by apply Exists_cons_tl].
Qed.

(** X12: Every line is drawn inside the picture.  For a face whose metrics are
    not negative and small enough for the 32 bits of a fixed-point number,
    [renderText] draws the lines, in their order and until a draw fails,
    at places that all lie inside a picture of the dimensions that
    [calculateImageDimensions] gives: the height is 100 pixels more than
    the line height times the number of lines, the width 100 pixels more
    than the whole pixels of the advance of the widest line. *)
Theorem lines_are_drawn_inside_the_picture (img : RGBA)
    (segments : list (list TextSegment)) (fonts : gmap Z Font) (cfg : PNGConfig) :
  let face := newFace (fonts !! ASCIIText) (Size (ASCIIFont cfg)) in
  0 <= metricsAscent face → 0 <= metricsDescent face →
  metricsAscent face + metricsDescent face + 63 < 2 ^ 31 →
  let width := (calculateImageDimensions segments fonts cfg).1 in
  let height := (calculateImageDimensions segments fonts cfg).2 in
  renderText img segments fonts cfg
  = Spec.drawAll img (fonts !! ASCIIText) (Size (ASCIIFont cfg))
      (Spec.lineDraws segments fonts cfg)
  ∧ Spec.lineDraws segments fonts cfg
    = imap (λ k lineSegs,
              (lineText lineSegs, 50,
               50 + (metricsAscent face + 63) / 64
               + Z.of_nat k * ((metricsAscent face + metricsDescent face + 63) / 64)))
           segments
  ∧ height
    = Z.of_nat (length segments)
      * ((metricsAscent face + metricsDescent face + 63) / 64) + 100
  ∧ (width = 100
     ∨ Exists (λ lineSegs,
         width = Z.shiftr (fontMeasureString face (lineText lineSegs)) 6 + 100)
         segments)
  ∧ Forall (Spec.inside face width height) (Spec.lineDraws segments fonts cfg).
Proof.
  intros face HA HD Hsmall width height.
  assert (HlineHeight :
    lineHeight face = (metricsAscent face + metricsDescent face + 63) / 64).
  { unfold lineHeight. rewrite int32_small by lia. apply Ceil_small; lia. }
  assert (HceilA : Ceil (metricsAscent face) = (metricsAscent face + 63) / 64)
    by (apply Ceil_small; lia).
  assert (HceilD : Ceil (metricsDescent face) = (metricsDescent face + 63) / 64)
    by (apply Ceil_small; lia).
  unfold width, height, calculateImageDimensions. cbv zeta. fold face.
  cbn [fst snd].
  destruct (maxWidth_loop face segments 0 0) as (Hle & Hall & Hatt).
  cbv zeta in Hle, Hall, Hatt.
  set (maxWidth := forRange _ 0%nat segments 0) in *.
  split; [apply renderText_draws |].
  assert (Hdraws : Spec.lineDraws segments fonts cfg
    = imap (λ k lineSegs,
              (lineText lineSegs, 50,
               50 + (metricsAscent face + 63) / 64
               + Z.of_nat k * ((metricsAscent face + metricsDescent face + 63) / 64)))
           segments).
  { unfold Spec.lineDraws. cbv zeta. fold face. by rewrite HceilA, HlineHeight. }
  split; [done |].
  split; [by rewrite HlineHeight |].
  split.
  { destruct Hatt as [-> | Hex]; [by left | right].
    eapply Exists_impl; [exact Hex |]. intros ls Hls. simpl in Hls. lia. }
  rewrite Hdraws. apply Forall_imap_intro. intros k lineSegs Hk.
  unfold Spec.inside. rewrite HceilA, HceilD, HlineHeight.
  apply lookup_lt_Some in Hk as Hlt.
  rewrite Forall_forall in Hall.
  pose proof (Hall lineSegs (list_elem_of_lookup_2 _ _ _ Hk)) as Hw.
  simpl in Hw.
  set (A := metricsAscent face) in *. set (D := metricsDescent face) in *.
  assert (Hlh : 0 <= (A + D + 63) / 64) by (apply Z.div_pos; lia).
  assert (Hsum : (A + 63) / 64 + (D + 63) / 64 <= (A + D + 63) / 64 + 1)
    by (Z.div_mod_to_equations; lia).
  split; [done |]. split; [nia |]. split; [nia | lia].
Qed.

End PictureLayout.

(** ** The picture: what it depends on *)

Section PictureTexts.
Import Output Strings.
Context `{Graphics}.

Lemma lineText_segmentsText (lineSegs : list TextSegment) :
  lineText lineSegs = Spec.segmentsText lineSegs.
Proof.
  unfold lineText.
  assert (Hloop : ∀ i full,
            forRange (λ full (_ : nat) (s : TextSegment), full +:+ Text s)
              i lineSegs full
            = full +:+ Spec.segmentsText lineSegs).
  { induction lineSegs as [|seg rest IH]; intros i full.
    - simpl. by rewrite string_app_nil_r.
    - cbn [forRange Spec.segmentsText foldr]. rewrite IH.
      by rewrite string_app_assoc. }
  by rewrite Hloop.
Qed.

Lemma forRange_fmap {A B St : Type} (f : A → B) (body : St → nat → B → St)
    (i : nat) (xs : list A) (st : St) :
  forRange (λ st i x, body st i (f x)) i xs st = forRange body i (f <$> xs) st.
Proof.
  revert i st. induction xs as [|x xs IH]; intros i st; [done |].
  rewrite fmap_cons. cbn [forRange]. apply IH.
Qed.

Lemma lineDraws_texts (segments : list (list TextSegment)) (fonts : gmap Z Font)
    (cfg : PNGConfig) :
  Spec.lineDraws segments fonts cfg
  = imap (λ k text,
            (text, 50,
             50 + Ceil (metricsAscent
                          (newFace (fonts !! ASCIIText) (Size (ASCIIFont cfg))))
             + Z.of_nat k
               * lineHeight (newFace (fonts !! ASCIIText) (Size (ASCIIFont cfg)))))
         (lineText <$> segments).
Proof. unfold Spec.lineDraws. cbv zeta. by rewrite imap_fmap. Qed.

Lemma calculateImageDimensions_texts (segments : list (list TextSegment))
    (fonts : gmap Z Font) (cfg : PNGConfig) :
  calculateImageDimensions segments fonts cfg
  = let face := newFace (fonts !! ASCIIText) (Size (ASCIIFont cfg)) in
    (forRange (λ maxWidth (_ : nat) text,
         if maxWidth <? Z.shiftr (fontMeasureString face text) 6
         then Z.shiftr (fontMeasureString face text) 6 else maxWidth)
       0 (lineText <$> segments) 0 + 100,
     Z.of_nat (length (lineText <$> segments)) * lineHeight face + 100).
Proof.
  unfold calculateImageDimensions. cbv zeta.
  by rewrite <- forRange_fmap, length_fmap.
Qed.

Lemma picture_of_the_line_texts
    (segments segments' : list (list TextSegment)) (fonts fonts' : gmap Z Font)
    (cfg cfg' : PNGConfig) :
  fonts !! ASCIIText = fonts' !! ASCIIText →
  Size (ASCIIFont cfg) = Size (ASCIIFont cfg') →
  lineText <$> segments = lineText <$> segments' →
  calculateImageDimensions segments fonts cfg
  = calculateImageDimensions segments' fonts' cfg'
  ∧ (∀ img, renderText img segments fonts cfg = renderText img segments' fonts' cfg').
Proof.
  intros Hfont Hsize Htexts'. split.
  { rewrite !calculateImageDimensions_texts. by rewrite Hfont, Hsize, Htexts'. }
  intros img. rewrite !renderText_draws, !lineDraws_texts.
  by rewrite Hfont, Hsize, Htexts'.
Qed.

(** X13: The picture only depends on the texts of the lines and on the font and
    the size of the box-drawing characters: the types of the segments, the
    way a line is divided into segments, the title font and the content
    font and their sizes change neither the dimensions of the picture nor
    what is drawn.  The text of a line is the concatenation of the texts of
    its segments: for a well-formed UTF-8 line, the line without the
    markers of its emphasis runs. *)
Theorem the_picture_depends_on_the_line_texts_only
    (segments segments' : list (list TextSegment)) (fonts fonts' : gmap Z Font)
    (cfg cfg' : PNGConfig) :
  fonts !! ASCIIText = fonts' !! ASCIIText →
  Size (ASCIIFont cfg) = Size (ASCIIFont cfg') →
  Spec.segmentsText <$> segments = Spec.segmentsText <$> segments' →
  calculateImageDimensions segments fonts cfg
  = calculateImageDimensions segments' fonts' cfg'
  ∧ (∀ img, renderText img segments fonts cfg = renderText img segments' fonts' cfg')
  ∧ (∀ line, Utf8.ValidString line = true →
       lineText (parseLineSegments line) = Spec.stripEmphasis line).
Proof.
  intros Hfont Hsize Htexts.
  assert (Htexts' : lineText <$> segments = lineText <$> segments').
  { rewrite !(list_fmap_ext lineText Spec.segmentsText); [done | |];
      intros; apply lineText_segmentsText. }
  destruct (picture_of_the_line_texts segments segments' fonts fonts' cfg cfg'
              Hfont Hsize Htexts') as [Hdims Hdraws].
  split; [done |]. split; [done |].
  intros line Hvalid. rewrite lineText_segmentsText, parseLineSegments_pieces.
  unfold Spec.stripEmphasis. apply segmentsText_pieces.
  apply valid_plain_pieces; [apply piecesFrom_separated |].
  by rewrite pieces_source.
Qed.

End PictureTexts.

(** ** The fonts of the system *)

Section SystemFonts.
Import Output Strings.
Context `{Graphics} `{!Files} `{!StringsToLower}.

Lemma candidatePaths_elem (dir : string) (fontNames : list string) (p : string) :
  p ∈ candidatePaths dir fontNames
  ↔ ∃ fontName name ext,
      fontName ∈ fontNames ∧ name ∈ namingVariations fontName
      ∧ ext ∈ extensions ∧ p = filepathJoin [dir; name +:+ ext].
Proof.
  unfold candidatePaths. rewrite list_elem_of_bind. split.
  - intros (fontName & Hp & Hname). apply list_elem_of_bind in Hp as (name & Hp & Hn).
    apply list_elem_of_bind in Hp as (ext & Hp & He).
    apply list_elem_of_singleton in Hp. by exists fontName, name, ext.
  - intros (fontName & name & ext & Hf & Hn & He & ->).
    exists fontName. split; [| done].
    apply list_elem_of_bind. exists name. split; [| done].
    apply list_elem_of_bind. exists ext. split; [| done].
    by apply list_elem_of_singleton.
Qed.

Lemma searchDirectories_cons (dir : string) (rest fontNames : list string) :
  searchDirectories (dir :: rest) fontNames
  = match Spec.offer dir fontNames with
    | Some fontPath => Some fontPath
    | None => searchDirectories rest fontNames
    end.
Proof.
  cbn [searchDirectories]. unfold Spec.offer.
  destruct (osStatNotExist dir); [done |].
  destruct (List.find osStat (candidatePaths dir fontNames)); [done |].
  cbv zeta. by destruct (negb (String.eqb (searchFontInSubdirs dir fontNames 2) "")).
Qed.

Lemma offer_Some (dir : string) (fontNames : list string) (p : string) :
  Spec.offer dir fontNames = Some p →
  osStatNotExist dir = false
  ∧ ((p ∈ candidatePaths dir fontNames ∧ osStat p = true)
     ∨ (Forall (λ q, osStat q = false) (candidatePaths dir fontNames)
        ∧ p = searchFontInSubdirs dir fontNames 2 ∧ p ≠ "")).
Proof.
  unfold Spec.offer. destruct (osStatNotExist dir); [done |].
  destruct (List.find osStat (candidatePaths dir fontNames)) as [q|] eqn:Hfind.
  - intros [= <-]. apply find_some in Hfind as [Hin Hstat].
    split; [done |]. left. split; [by apply list_elem_of_In | done].
  - destruct (String.eqb_spec (searchFontInSubdirs dir fontNames 2) "");
      [done |].
    intros [= <-]. split; [done |]. right. split; [| done].
    apply Forall_forall. intros q Hq. apply list_elem_of_In in Hq.
    pose proof (find_none _ _ Hfind q Hq) as Hq'. by destruct (osStat q).
Qed.

Lemma offer_None (dir : string) (fontNames : list string) :
  Spec.offer dir fontNames = None →
  osStatNotExist dir = true
  ∨ (Forall (λ q, osStat q = false) (candidatePaths dir fontNames)
     ∧ searchFontInSubdirs dir fontNames 2 = "").
Proof.
  unfold Spec.offer. destruct (osStatNotExist dir); [by left |].
  destruct (List.find osStat (candidatePaths dir fontNames)) as [q|] eqn:Hfind;
    [done |].
  destruct (String.eqb_spec (searchFontInSubdirs dir fontNames 2) "");
    [| done].
  intros _. right. split; [| done].
  apply Forall_forall. intros q Hq. apply list_elem_of_In in Hq.
  pose proof (find_none _ _ Hfind q Hq) as Hq'. by destruct (osStat q).
Qed.

(** The search returns what the first directory that offers a path
    offers. *)
Lemma searchDirectories_first (dirs fontNames : list string) :
  match searchDirectories dirs fontNames with
  | Some p =>
    ∃ before dir after,
      dirs = before ++ dir :: after
      ∧ Forall (λ d, Spec.offer d fontNames = None) before
      ∧ Spec.offer dir fontNames = Some p
  | None => Forall (λ d, Spec.offer d fontNames = None) dirs
  end.
Proof.
  induction dirs as [|dir rest IH]; [constructor |].
  rewrite searchDirectories_cons.
  destruct (Spec.offer dir fontNames) as [p|] eqn:Hoffer.
  - by exists [], dir, rest.
  - destruct (searchDirectories rest fontNames) as [p|].
    + destruct IH as (before & d & after & -> & Hbefore & Hd).
      exists (dir :: before), d, after.
      split; [done |]. split; [by apply Forall_cons | done].
    + by apply Forall_cons.
Qed.

Lemma getFontDirectories_local :
  ∃ dirs, getFontDirectories = "./fonts" :: "." :: dirs.
Proof. unfold getFontDirectories. cbv zeta. by eexists. Qed.

Lemma findSystemFont_failure (fontNames : list string) (p e : string) :
  findSystemFont fontNames = (p, Some e) →
  p = "" ∧ e = "font not found: tried " +:+ formatStrings fontNames
  ∧ searchDirectories getFontDirectories fontNames = None.
Proof.
  unfold findSystemFont. cbv zeta.
  destruct (searchDirectories getFontDirectories fontNames); [done |].
  by intros [= <- <-].
Qed.

(** X14: [findSystemFont] looks into the directories in their order, the
    directory [./fonts] and the current directory first on every system,
    and skips those reported missing.  When it succeeds, the path it
    returns is what the first directory that offers a path offers: the
    first candidate path of the directory that exists (a font name of the
    list in one of its variations, with the extension [.ttf] or [.TTF]),
    else what the search of the subdirectories finds.  It fails exactly
    when no directory offers a path, with the empty path and a message that
    lists the font names. *)
Theorem findSystemFont_returns_the_first_offer (fontNames : list string) :
  (∃ dirs, getFontDirectories = "./fonts" :: "." :: dirs)
  ∧ (∀ p, findSystemFont fontNames = (p, None) →
       ∃ before dir after,
         getFontDirectories = before ++ dir :: after
         ∧ Forall (λ d, Spec.offer d fontNames = None) before
         ∧ Spec.offer dir fontNames = Some p
         ∧ osStatNotExist dir = false
         ∧ ((osStat p = true
             ∧ ∃ fontName name ext,
                 fontName ∈ fontNames ∧ name ∈ namingVariations fontName
                 ∧ ext ∈ [".ttf"; ".TTF"] ∧ p = filepathJoin [dir; name +:+ ext])
            ∨ (Forall (λ q, osStat q = false) (candidatePaths dir fontNames)
               ∧ p = searchFontInSubdirs dir fontNames 2 ∧ p ≠ "")))
  ∧ (∀ p e, findSystemFont fontNames = (p, Some e) →
       p = "" ∧ e = "font not found: tried " +:+ formatStrings fontNames
       ∧ Forall (λ dir,
           osStatNotExist dir = true
           ∨ (Forall (λ q, osStat q = false) (candidatePaths dir fontNames)
              ∧ searchFontInSubdirs dir fontNames 2 = ""))
           getFontDirectories)
  ∧ (is_Some (findSystemFont fontNames).2
     ↔ Forall (λ d, Spec.offer d fontNames = None) getFontDirectories).
Proof.
  split; [apply getFontDirectories_local |].
  pose proof (searchDirectories_first getFontDirectories fontNames) as Hfirst.
  split.
  { intros p Hp. unfold findSystemFont in Hp. cbv zeta in Hp.
    destruct (searchDirectories getFontDirectories fontNames) as [q|]; [| done].
    injection Hp as ->.
    destruct Hfirst as (before & dir & after & Hdirs & Hbefore & Hoffer).
    exists before, dir, after. split; [done |]. split; [done |]. split; [done |].
    apply offer_Some in Hoffer as [Hexists Hcases]. split; [done |].
    destruct Hcases as [[Hin Hstat] | Hsub]; [left | by right].
    split; [done |]. by apply candidatePaths_elem. }
  split.
  { intros p e Hpe. apply findSystemFont_failure in Hpe as (-> & -> & Hnone).
    split; [done |]. split; [done |].
    rewrite Hnone in Hfirst.
    eapply Forall_impl; [exact Hfirst |]. intros dir. apply offer_None. }
  unfold findSystemFont. cbv zeta.
  destruct (searchDirectories getFontDirectories fontNames) as [q|]; simpl.
  - split; [by intros [? ?] |]. intros Hall.
    destruct Hfirst as (before & dir & after & Hdirs & _ & Hoffer).
    rewrite Hdirs in Hall. apply Forall_app in Hall as [_ Hall].
    apply Forall_cons in Hall as [Hdir _]. congruence.
  - split; [done | by eexists].
Qed.

(** The fallbacks of [getDefaultSystemFonts]. *)
Lemma getDefaultSystemFonts_cases :
  let s := findSystemFont (Names SystemSansSerif) in
  let b := findSystemFont (Names SystemSansSerifBold) in
  let m := findSystemFont (Names SystemMonospace) in
  getDefaultSystemFonts
  = match s.2, b.2, m.2 with
    | Some _, Some _, Some _ =>
      ("", "", "",
       Some ("no system fonts found. Please specify font paths in your JSON config or place TTF files in ./fonts/ directory. Searched for: "
             +:+ formatStrings (Names SystemSansSerif) +:+ ", "
             +:+ formatStrings (Names SystemSansSerifBold) +:+ ", "
             +:+ formatStrings (Names SystemMonospace)))
    | None, None, None => (s.1, b.1, m.1, None)
    | None, None, Some _ => (s.1, b.1, s.1, None)
    | None, Some _, None => (s.1, s.1, m.1, None)
    | None, Some _, Some _ => (s.1, s.1, s.1, None)
    | Some _, None, None => (b.1, b.1, m.1, None)
    | Some _, None, Some _ => (b.1, b.1, b.1, None)
    | Some _, Some _, None => (b.1, b.1, m.1, None)
    end.
Proof.
  intros s b m. unfold getDefaultSystemFonts. fold s b m.
  destruct s as [ps [es|]], b as [pb [eb|]], m as [pm [em|]]; reflexivity.
Qed.

(** A failed search leaves the empty path. *)
Lemma findSystemFont_failed_path (fontNames : list string) :
  is_Some (findSystemFont fontNames).2 → (findSystemFont fontNames).1 = "".
Proof.
  destruct (findSystemFont fontNames) as [p [e|]] eqn:Hf; [| by intros [? ?]].
  intros _. by apply findSystemFont_failure in Hf as [-> _].
Qed.

(** X15: [getDefaultSystemFonts] fails exactly when none of the three searches
    finds a font.  When the search of the regular or of the bold font
    succeeds, the three paths it returns are paths that a search found:
    each font that was not found is replaced by the regular font, or by the
    bold font when the regular font was not found either.  When only the
    search of the monospace font succeeds, it returns no error, the path of
    the monospace font and the empty path for the two other fonts: the
    monospace font is a fallback of no font. *)
Theorem default_fonts_and_their_fallbacks :
  let s := findSystemFont (Names SystemSansSerif) in
  let b := findSystemFont (Names SystemSansSerifBold) in
  let m := findSystemFont (Names SystemMonospace) in
  let found := omap (λ r : string * option string,
                       match r.2 with None => Some r.1 | Some _ => None end)
                 [s; b; m] in
  let '(sansSerifPath, boldPath, monospacePath, err) := getDefaultSystemFonts in
  (is_Some err ↔ is_Some s.2 ∧ is_Some b.2 ∧ is_Some m.2)
  ∧ (is_Some err → sansSerifPath = "" ∧ boldPath = "" ∧ monospacePath = "")
  ∧ (s.2 = None → sansSerifPath = s.1)
  ∧ (b.2 = None → boldPath = b.1)
  ∧ (m.2 = None → monospacePath = m.1)
  ∧ (s.2 = None ∨ b.2 = None →
     err = None ∧ sansSerifPath ∈ found ∧ boldPath ∈ found ∧ monospacePath ∈ found)
  ∧ (is_Some s.2 → is_Some b.2 → m.2 = None →
     err = None ∧ sansSerifPath = "" ∧ boldPath = "" ∧ monospacePath = m.1).
Proof.
  intros s b m found.
  pose proof getDefaultSystemFonts_cases as Hcases. cbv zeta in Hcases.
  fold s b m in Hcases.
  pose proof (findSystemFont_failed_path (Names SystemSansSerif)) as Hs.
  pose proof (findSystemFont_failed_path (Names SystemSansSerifBold)) as Hb.
  pose proof (findSystemFont_failed_path (Names SystemMonospace)) as Hm.
  fold s in Hs. fold b in Hb. fold m in Hm.
  unfold found. clearbody s b m.
  destruct s as [ps [es|]], b as [pb [eb|]], m as [pm [em|]];
    cbn [fst snd] in *; rewrite Hcases; cbn [omap list_omap fst snd];
    repeat match goal with
           | |- _ ∧ _ => split
           | |- _ ↔ _ => split
           | |- _ → _ => intros ?
           end;
    repeat match goal with
           | Hor : _ ∨ _ |- _ => destruct Hor
           | Hand : _ ∧ _ |- _ => destruct Hand
           | Hnone : is_Some None |- _ => by destruct Hnone
           end;
    try done; try (by eexists);
    try (apply Hs; by eexists); try (apply Hb; by eexists);
    try (apply Hm; by eexists);
    try (apply list_elem_of_In; simpl; tauto).
Qed.

Lemma resolveSystemFont_cases (fontPath : string) :
  resolveSystemFont fontPath
  = if osStat fontPath then (fontPath, None) else findSystemFont [fontPath].
Proof.
  unfold resolveSystemFont. destruct (osStat fontPath); [done |].
  by rewrite andb_false_r.
Qed.

(** X16: [loadFont] takes its argument for the path of a file when such a
    file exists, whether the path is absolute or not, and reads that file;
    otherwise it takes it for the name of a font and reads what the first
    font directory that offers a path for this name offers.  When there is
    no such file and no directory offers a path, it fails with a message
    that holds the argument twice: as the font that was not resolved and as
    the list of the names that were tried. *)
Theorem loadFont_reads_a_file_or_a_system_font (fontPath : string) :
  resolveSystemFont fontPath
  = (if osStat fontPath then (fontPath, None) else findSystemFont [fontPath])
  ∧ (∀ font, loadFont fontPath = inl font →
       ∃ resolvedPath fontBytes,
         resolveSystemFont fontPath = (resolvedPath, None)
         ∧ ioutilReadFile resolvedPath = inl fontBytes
         ∧ truetypeParse fontBytes = inl font
         ∧ (osStat fontPath = true → resolvedPath = fontPath)
         ∧ (osStat fontPath = false →
            ∃ before dir after,
              getFontDirectories = before ++ dir :: after
              ∧ Forall (λ d, Spec.offer d [fontPath] = None) before
              ∧ Spec.offer dir [fontPath] = Some resolvedPath))
  ∧ (osStat fontPath = false →
     Forall (λ d, Spec.offer d [fontPath] = None) getFontDirectories →
     loadFont fontPath
     = inr ("failed to resolve font '" +:+ fontPath
            +:+ "': font not found: tried [" +:+ fontPath +:+ "]"))
  ∧ (∀ resolvedPath err,
       resolveSystemFont fontPath = (resolvedPath, None) →
       ioutilReadFile resolvedPath = inr err →
       loadFont fontPath
       = inr ("failed to read font file '" +:+ resolvedPath +:+ "': " +:+ err)).
Proof.
  split; [apply resolveSystemFont_cases |].
  pose proof (searchDirectories_first getFontDirectories [fontPath]) as Hfirst.
  split.
  { intros font. unfold loadFont. rewrite resolveSystemFont_cases.
    destruct (osStat fontPath) eqn:Hstat.
    - destruct (ioutilReadFile fontPath) as [fontBytes | e] eqn:Hread; [| done].
      destruct (truetypeParse fontBytes) as [f | e] eqn:Hparse; [| done].
      intros [= <-]. exists fontPath, fontBytes. by repeat split.
    - unfold findSystemFont. cbv zeta.
      destruct (searchDirectories getFontDirectories [fontPath]) as [q|]; [| done].
      destruct (ioutilReadFile q) as [fontBytes | e] eqn:Hread; [| done].
      destruct (truetypeParse fontBytes) as [f | e] eqn:Hparse; [| done].
      intros [= <-]. exists q, fontBytes. by repeat split. }
  split.
  { intros Hstat Hnone. unfold loadFont.
    rewrite resolveSystemFont_cases, Hstat. unfold findSystemFont. cbv zeta.
    destruct (searchDirectories getFontDirectories [fontPath]) as [q|].
    - destruct Hfirst as (before & dir & after & Hdirs & _ & Hoffer).
      rewrite Hdirs in Hnone. apply Forall_app in Hnone as [_ Hnone].
      apply Forall_cons in Hnone as [Hdir _]. congruence.
    - reflexivity. }
  intros resolvedPath err Hresolve Hread. unfold loadFont.
  by rewrite Hresolve, Hread.
Qed.

End SystemFonts.

(** ** Writing the picture *)

Section WrittenPicture.
Import Output Strings.
Context `{Graphics} `{!Files} `{!StringsToLower} `{!StringsTrimSpace}.

Lemma loaded_fonts_ascii (asciiFont titleFont contentFont : Font) :
  (<[ContentText := contentFont]>
     (<[HeaderText := titleFont]> (<[ASCIIText := asciiFont]> ∅)) : gmap Z Font)
    !! ASCIIText
  = ({[ASCIIText := asciiFont]} : gmap Z Font) !! ASCIIText.
Proof.
  rewrite lookup_insert_ne by done. rewrite lookup_insert_ne by done.
  by rewrite lookup_insert_eq, lookup_singleton_eq.
Qed.

(** X17: [GeneratePNG] returns no error exactly when the three fonts load, every
    line is drawn and the file is created and encoded.  The picture it
    writes is then the picture of the lines of the table text that are not
    blank, drawn with the font of the box-drawing characters alone, in the
    dimensions computed for these lines.  The title font and the content
    font are loaded first all the same: when one of them does not load,
    nothing is drawn or written. *)
Theorem the_written_picture (tableText : string) (config : PNGConfig)
    (outputPath : string) :
  (GeneratePNG tableText config outputPath = None
   ↔ ∃ asciiPath titlePath contentPath asciiFont titleFont contentFont img,
       fontPaths config = inl (asciiPath, titlePath, contentPath)
       ∧ loadFont asciiPath = inl asciiFont
       ∧ loadFont titlePath = inl titleFont
       ∧ loadFont contentPath = inl contentFont
       ∧ (let fonts : gmap Z Font := {[ASCIIText := asciiFont]} in
          let segments := tableSegments tableText in
          let dimensions := calculateImageDimensions segments fonts config in
          renderText (imageNewRGBA dimensions.1 dimensions.2) segments fonts config
          = (img, None))
       ∧ osCreate outputPath = None
       ∧ pngEncode outputPath img = None)
  ∧ (∀ asciiPath titlePath contentPath asciiFont err,
       fontPaths config = inl (asciiPath, titlePath, contentPath) →
       loadFont asciiPath = inl asciiFont →
       loadFont titlePath = inr err →
       GeneratePNG tableText config outputPath
       = Some ("failed to load title font: " +:+ err))
  ∧ (∀ asciiPath titlePath contentPath asciiFont titleFont err,
       fontPaths config = inl (asciiPath, titlePath, contentPath) →
       loadFont asciiPath = inl asciiFont →
       loadFont titlePath = inl titleFont →
       loadFont contentPath = inr err →
       GeneratePNG tableText config outputPath
       = Some ("failed to load content font: " +:+ err)).
Proof.
  split.
  - unfold GeneratePNG. cbv zeta.
    destruct (fontPaths config) as [[[asciiPath titlePath] contentPath] | e].
    2:{ split; [done |]. by intros (? & ? & ? & ? & ? & ? & ? & ? & _). }
    destruct (loadFont asciiPath) as [asciiFont | e] eqn:Hascii.
    2:{ split; [done |].
        intros (? & ? & ? & ? & ? & ? & ? & [= <- <- <-] & Hl & _). congruence. }
    destruct (loadFont titlePath) as [titleFont | e] eqn:Htitle.
    2:{ split; [done |].
        intros (? & ? & ? & ? & ? & ? & ? & [= <- <- <-] & _ & Hl & _).
        congruence. }
    destruct (loadFont contentPath) as [contentFont | e] eqn:Hcontent.
    2:{ split; [done |].
        intros (? & ? & ? & ? & ? & ? & ? & [= <- <- <-] & _ & _ & Hl & _).
        congruence. }
    set (fonts := <[ContentText := contentFont]>
                    (<[HeaderText := titleFont]> (<[ASCIIText := asciiFont]> ∅))).
    destruct (picture_of_the_line_texts (tableSegments tableText)
                (tableSegments tableText) fonts {[ASCIIText := asciiFont]}
                config config (loaded_fonts_ascii _ _ _) eq_refl eq_refl)
      as [Hdims Hdraws].
    rewrite Hdims.
    destruct (calculateImageDimensions (tableSegments tableText)
                {[ASCIIText := asciiFont]} config) as [width height] eqn:Hcalc.
    rewrite Hdraws. cbn [fst snd].
    destruct (renderText (imageNewRGBA width height) (tableSegments tableText)
                {[ASCIIText := asciiFont]} config) as [img [e|]] eqn:Hrender.
    { split; [done |].
      intros (? & ? & ? & ? & ? & ? & ? & [= <- <- <-] & Ha & _ & _ & Hr & _).
      rewrite Hascii in Ha. injection Ha as <-.
      rewrite Hcalc in Hr. cbn [fst snd] in Hr. congruence. }
    destruct (osCreate outputPath) as [e|] eqn:Hcreate.
    { split; [done |]. intros (? & ? & ? & ? & ? & ? & ? & _ & _ & _ & _ & _ & Hc & _).
      congruence. }
    destruct (pngEncode outputPath img) as [e|] eqn:Hencode.
    { split; [done |].
      intros (? & ? & ? & ? & ? & ? & ? & [= <- <- <-] & Ha & _ & _ & Hr & _ & He).
      rewrite Hascii in Ha. injection Ha as <-.
      rewrite Hcalc in Hr. cbn [fst snd] in Hr.
      rewrite Hrender in Hr. injection Hr as <-. congruence. }
    split; [| done]. intros _.
    exists asciiPath, titlePath, contentPath, asciiFont, titleFont, contentFont, img.
    by rewrite Hcalc.
  - split.
    + intros asciiPath titlePath contentPath asciiFont err Hpaths Hascii Htitle.
      unfold GeneratePNG. cbv zeta. by rewrite Hpaths, Hascii, Htitle.
    + intros asciiPath titlePath contentPath asciiFont titleFont err
        Hpaths Hascii Htitle Hcontent.
      unfold GeneratePNG. cbv zeta. by rewrite Hpaths, Hascii, Htitle, Hcontent.
Qed.

End WrittenPicture.

(** ** The command *)

Section CommandRuns.
Import Tables Output Strings Main.
Context `{StringsToLower} `{StringsTrimSpace} `{Graphics} `{!Files} `{!Command}.




End CommandRuns.

(** ** Instances of the further properties *)

Section FurtherInstances.
Import Tables Output Strings.

(** The scenario of the specification renders to five lines. *)
Lemma rendered_text_line_layout_witness :
  let r := {| Style := singleLineFull |} in
  length (Spec.linesOf (Render (H := asciiToLower) r (Spec.scenarioConfig ""))) = 5%nat
  ∧ Spec.linesOf (Render (H := asciiToLower) r (Spec.scenarioConfig "")) !! 3%nat
    = Some (Spec.dataLine (H := asciiToLower) r (Spec.scenarioConfig "") ["x"; "yy"]).
Proof.
  intros r.
  destruct (rendered_text_line_layout (H := asciiToLower) r (Spec.scenarioConfig "")
              ltac:(simpl; lia) ltac:(simpl; lia)
              ltac:(repeat constructor) ltac:(repeat constructor))
    as (Hlen & _ & _ & _ & Hrow & _).
  split; [exact Hlen |]. exact (Hrow 0%nat ["x"; "yy"] eq_refl).
Defined.

(** The five lines of the scenario are ten characters wide. *)
Lemma rendered_lines_have_the_same_width_witness :
  Forall (λ l, Spec.displayWidth l = 10)
    (Spec.renderLines (H := asciiToLower) {| Style := singleLineFull |}
       (Spec.scenarioConfig "")).
Proof.
  destruct (rendered_lines_have_the_same_width (H := asciiToLower)
              {| Style := singleLineFull |} (Spec.scenarioConfig "")
              ltac:(simpl; lia) ltac:(simpl; lia)
              ltac:(repeat constructor))
    as (_ & _ & _ & _ & Hfull).
  destruct (Hfull ltac:(repeat constructor; simpl; lia)) as [Hwidth _].
  exact Hwidth.
Defined.

(** A table with an emphasized header and an emphasized cell. *)
Lemma rendered_text_has_no_marker_witness :
  Spec.occurrences "**"
    (Render (H := asciiToLower) {| Style := doubleLineFull |}
       {| Tables.Type_ := "double-line-full"; Name := "";
          Headers := ["**Name**"; "Value"]; Rows := [["**a**"; "b*"]];
          Alignment := ["center"] |}) = 0%nat.
Proof.
  apply (rendered_text_has_no_marker (H := asciiToLower)). repeat constructor.
Defined.

(** A row line of the grid. *)
Lemma segments_of_a_line_without_marker_witness :
  parseLineSegments "│ x │" = classifyTextSegments "│ x │" asciiChars
  ∧ Spec.segmentsText (parseLineSegments "│ x │") = "│ x │".
Proof.
  destruct (segments_of_a_line_without_marker "│ x │" eq_refl) as (Heq & _ & Htext).
  split; [exact Heq | exact (Htext eq_refl)].
Defined.

(** The scenario, with an emphasized header. *)
Lemma rendered_text_has_no_header_segment_witness :
  Forall (Forall (λ seg, Type_ seg = ASCIIText ∨ Type_ seg = ContentText))
    (tableSegments (H := asciiTrimSpace)
       (Render (H := asciiToLower) {| Style := singleLineFull |}
          {| Tables.Type_ := "single-line-full"; Name := "";
             Headers := ["**A**"; "BB"]; Rows := [["x"; "yy"]];
             Alignment := [] |})).
Proof.
  destruct (rendered_text_has_no_header_segment (H := asciiToLower)
              (H0 := asciiTrimSpace) {| Style := singleLineFull |}
              {| Tables.Type_ := "single-line-full"; Name := "";
                 Headers := ["**A**"; "BB"]; Rows := [["x"; "yy"]];
                 Alignment := [] |}
              ltac:(repeat constructor))
    as (_ & _ & Htypes & _).
  exact Htypes.
Defined.

(** One line, with the face of the examples at 12 points: the line height
    is 15 pixels, the picture 115 pixels high. *)
Lemma lines_are_drawn_inside_the_picture_witness :
  (calculateImageDimensions (H := Spec.exampleGraphics)
     Spec.exampleLine Spec.exampleFonts Spec.exampleConfig).2
  = 1 * ((64 * 12 + 16 * 12 + 63) / 64) + 100
  ∧ Forall (Spec.inside (H := Spec.exampleGraphics) 12
              (calculateImageDimensions (H := Spec.exampleGraphics)
                 Spec.exampleLine Spec.exampleFonts Spec.exampleConfig).1
              (calculateImageDimensions (H := Spec.exampleGraphics)
                 Spec.exampleLine Spec.exampleFonts Spec.exampleConfig).2)
      (Spec.lineDraws (H := Spec.exampleGraphics)
         Spec.exampleLine Spec.exampleFonts Spec.exampleConfig).
Proof.
  destruct (lines_are_drawn_inside_the_picture (H := Spec.exampleGraphics)
              [] Spec.exampleLine Spec.exampleFonts Spec.exampleConfig
              ltac:(vm_compute; discriminate) ltac:(vm_compute; discriminate)
              ltac:(vm_compute; reflexivity))
    as (_ & _ & Hheight & _ & Hinside).
  split; [exact Hheight | exact Hinside].
Defined.

(** The same line in one segment and divided by the types of its
    characters, with one font and with three. *)
Lemma the_picture_depends_on_the_line_texts_only_witness :
  calculateImageDimensions (H := Spec.exampleGraphics)
    Spec.exampleLine Spec.exampleFonts Spec.exampleConfig
  = calculateImageDimensions (H := Spec.exampleGraphics)
      Spec.exampleLineDivided Spec.exampleFontsLoaded Spec.exampleConfig.
Proof.
  destruct (the_picture_depends_on_the_line_texts_only (H := Spec.exampleGraphics)
              Spec.exampleLine Spec.exampleLineDivided
              Spec.exampleFonts Spec.exampleFontsLoaded
              Spec.exampleConfig Spec.exampleConfig
              ltac:(vm_compute; reflexivity) eq_refl ltac:(vm_compute; reflexivity))
    as (Hdims & _).
  exact Hdims.
Defined.


End FurtherInstances.
